(** * Interval timer: parser, set expansion and timer engine of [app.js]

    A shallow embedding of the workout parser ([parseDuration],
    [parseActivity], [parseWorkout]), of [flattenWorkout] and of the timer
    functions ([start], [startActivity], [tick], [next], [pause], [resume],
    [stop], [finish]) together with the browser timers they drive.

    The embedding follows the current version of the program, the one that
    accepts an activity without a name and plays a sample three seconds
    before a step ends.  Time is counted in whole seconds: the tick interval
    and the sample timeout are set at the same instants and so stay in
    phase.

    The sound code ([ensureAudioContext], [unlockAudioGesture], [loadSample],
    [playSample], [beep]) is embedded over an explicit browser, which says
    how each call into Web Audio and each request for a file ends.  The
    source file ends with an earlier variant of the page, which beeps
    instead of playing a sample; what differs in it is embedded too. *)

From Stdlib Require Import List ZArith NArith Bool Lia String Ascii Arith.
From Stdlib Require Import DecimalString.
Import ListNotations.

Set Implicit Arguments.

(** ** JavaScript values used by the program *)

Module JS.

(** A JavaScript string is a sequence of UTF-16 code units. *)
Definition jsstring := list N.

(** Program literals are written as Rocq strings. *)
Definition str (s : string) : jsstring :=
  map N_of_ascii (list_ascii_of_string s).

(** Numbers: the program only ever builds integers and [NaN] (the latter out
    of [undefined - 0]).  Integers are kept exact, which is what the program
    computes as long as they stay below 2^53. *)
Inductive num := Fin (z : Z) | NaN.

Definition nadd (a b : num) : num :=
  match a, b with Fin x, Fin y => Fin (x + y) | _, _ => NaN end.
Definition nsub (a b : num) : num :=
  match a, b with Fin x, Fin y => Fin (x - y) | _, _ => NaN end.
Definition nmul (a b : num) : num :=
  match a, b with Fin x, Fin y => Fin (x * y) | _, _ => NaN end.
(** [Math.max(a, b)] *)
Definition nmax (a b : num) : num :=
  match a, b with Fin x, Fin y => Fin (Z.max x y) | _, _ => NaN end.
(** [a <= b], [a > b], [a === b]: every comparison with [NaN] is false. *)
Definition nle (a b : num) : bool :=
  match a, b with Fin x, Fin y => (x <=? y)%Z | _, _ => false end.
Definition ngt (a b : num) : bool :=
  match a, b with Fin x, Fin y => (y <? x)%Z | _, _ => false end.
Definition neq (a b : num) : bool :=
  match a, b with Fin x, Fin y => (x =? y)%Z | _, _ => false end.

(** *** Character classes *)

Open Scope N_scope.

(** [\d] *)
Definition isDigit (c : N) : bool := (48 <=? c) && (c <=? 57).

(** [\s], which is also the set [String.prototype.trim] strips: WhiteSpace
    and LineTerminator. *)
Definition isSpace (c : N) : bool :=
  ((9 <=? c) && (c <=? 13)) || (c =? 32) || (c =? 160) || (c =? 5760)
  || ((8192 <=? c) && (c <=? 8202)) || (c =? 8232) || (c =? 8233)
  || (c =? 8239) || (c =? 8287) || (c =? 12288) || (c =? 65279).

(** LineTerminator: LF, CR, LS, PS.  [.] matches everything else. *)
Definition isLineTerminator (c : N) : bool :=
  (c =? 10) || (c =? 13) || (c =? 8232) || (c =? 8233).
Definition dot (c : N) : bool := negb (isLineTerminator c).

(** A lower-case ASCII letter of a pattern under the [i] flag matches the
    letter itself and its upper-case form. *)
Definition ci (x : ascii) (c : N) : bool :=
  (c =? N_of_ascii x) || (c =? N_of_ascii x - 32).
(** A literal pattern character. *)
Definition lit (x : ascii) (c : N) : bool := c =? N_of_ascii x.

(** *** Backtracking regular expressions

    The fragment of the patterns in the program: anchors, one-character
    classes, greedy [*] over a class, sequence, ordered alternation, greedy
    optional group and capture groups. *)
Inductive regex :=
| Bos                              (* ^ *)
| Eos                              (* $ *)
| Chr (p : N -> bool)              (* one code unit of a class *)
| Star (p : N -> bool)             (* class*, greedy *)
| Seq (r1 r2 : regex)
| Alt (r1 r2 : regex)              (* r1|r2, r1 first *)
| Opt (r : regex)                  (* (?:r)?, greedy *)
| Group (i : nat) (r : regex).     (* i-th capture group *)

(** [class+] *)
Definition Plus (p : N -> bool) : regex := Seq (Chr p) (Star p).

(** Captures, most recent first. *)
Definition captures := list (nat * jsstring).

Fixpoint capture (i : nat) (caps : captures) : option jsstring :=
  match caps with
  | [] => None
  | (j, v) :: rest => if Nat.eqb i j then Some v else capture i rest
  end.

Section Matcher.
Variable A : Type.

(** Greedy star over a class: the longest run first, then shorter ones. *)
Fixpoint star (p : N -> bool) (pos : nat) (s : jsstring)
         (k : nat -> jsstring -> option A) : option A :=
  match s with
  | c :: s' =>
      if p c then
        match star p (S pos) s' k with
        | Some r => Some r
        | None => k pos s
        end
      else k pos s
  | [] => k pos s
  end.

(** [matchAt r pos s caps k]: match [r] at offset [pos], where [s] is the
    rest of the input, and continue with [k]; [None] makes the matcher
    backtrack into the latest open choice. *)
Fixpoint matchAt (r : regex) (pos : nat) (s : jsstring) (caps : captures)
         (k : nat -> jsstring -> captures -> option A) : option A :=
  match r with
  | Bos => if Nat.eqb pos 0 then k pos s caps else None
  | Eos => match s with [] => k pos s caps | _ :: _ => None end
  | Chr p =>
      match s with
      | c :: s' => if p c then k (S pos) s' caps else None
      | [] => None
      end
  | Star p => star p pos s (fun pos' s' => k pos' s' caps)
  | Seq r1 r2 =>
      matchAt r1 pos s caps (fun pos' s' caps' => matchAt r2 pos' s' caps' k)
  | Alt r1 r2 =>
      match matchAt r1 pos s caps k with
      | Some x => Some x
      | None => matchAt r2 pos s caps k
      end
  | Opt r1 =>
      match matchAt r1 pos s caps k with
      | Some x => Some x
      | None => k pos s caps
      end
  | Group i r1 =>
      matchAt r1 pos s caps
        (fun pos' s' caps' => k pos' s' ((i, firstn (pos' - pos) s) :: caps'))
  end.
End Matcher.

(** [RegExp.prototype.exec] without the [g] flag: the leftmost start offset
    at which the pattern matches; capture 0 is the whole match. *)
Fixpoint search (r : regex) (pos : nat) (s : jsstring) : option captures :=
  match matchAt (Group 0 r) pos s [] (fun _ _ caps => Some caps) with
  | Some caps => Some caps
  | None =>
      match s with
      | [] => None
      | _ :: s' => search r (S pos) s'
      end
  end.

(** [s.match(r)] *)
Definition match_ (r : regex) (s : jsstring) : option captures := search r 0 s.

(** *** String functions *)

Fixpoint trimStart (s : jsstring) : jsstring :=
  match s with
  | c :: s' => if isSpace c then trimStart s' else s
  | [] => []
  end.
Definition trimEnd (s : jsstring) : jsstring := rev (trimStart (rev s)).
Definition trim (s : jsstring) : jsstring := trimEnd (trimStart s).

(** [s.split(sep)] for a one-character separator. *)
Fixpoint split (sep : N) (s : jsstring) : list jsstring :=
  match s with
  | [] => [[]]
  | c :: s' =>
      if c =? sep then [] :: split sep s'
      else match split sep s' with
           | w :: ws => (c :: w) :: ws
           | [] => [[c]]
           end
  end.

(** [Boolean(s)] for a string. *)
Definition truthy (s : jsstring) : bool :=
  match s with [] => false | _ :: _ => true end.

(** [String(m)] for a match array [m] with groups [0..n]: the elements joined
    by commas, an unset group printing as the empty string. *)
Fixpoint joinGroups (caps : captures) (i n : nat) : jsstring :=
  let g := match capture i caps with Some v => v | None => [] end in
  match n with
  | O => g
  | S n' => g ++ str "," ++ joinGroups caps (S i) n'
  end.

Definition digitVal (c : N) : Z := Z.of_N (c - 48).

Definition hexVal (c : N) : option Z :=
  if isDigit c then Some (Z.of_N (c - 48))
  else if (97 <=? c) && (c <=? 102) then Some (Z.of_N (c - 87))
  else if (65 <=? c) && (c <=? 70) then Some (Z.of_N (c - 55))
  else None.

(** The longest prefix of digits of the radix, read left to right. *)
Fixpoint readDigits (radix : Z) (val : N -> option Z) (acc : option Z)
         (s : jsstring) : option Z :=
  match s with
  | c :: s' =>
      match val c with
      | Some d =>
          readDigits radix val
            (Some (match acc with Some a => a * radix + d | None => d end)%Z) s'
      | None => acc
      end
  | [] => acc
  end.

Definition decVal (c : N) : option Z :=
  if isDigit c then Some (digitVal c) else None.

(** [parseInt(s)] with no radix argument: leading white space, a sign, an
    optional [0x] prefix, then digits; [NaN] when there is no digit. *)
Definition parseInt (s : jsstring) : num :=
  let s1 := trimStart s in
  let '(sign, s2) :=
    match s1 with
    | c :: r =>
        if c =? 45 then ((-1)%Z, r)            (* - *)
        else if c =? 43 then (1%Z, r)          (* + *)
        else (1%Z, s1)
    | [] => (1%Z, s1)
    end in
  let v :=
    match s2 with
    | c0 :: c1 :: r =>
        if (c0 =? 48) && ((c1 =? 120) || (c1 =? 88))   (* 0x, 0X *)
        then readDigits 16 hexVal None r
        else readDigits 10 decVal None s2
    | _ => readDigits 10 decVal None s2
    end in
  match v with
  | Some z => Fin (sign * z)
  | None => NaN
  end.

Close Scope N_scope.

End JS.
Import JS.

(** ** Parsing *)

Module Parser.

(** What [parseActivity] returns when the text parses. *)
Record Activity := { name : jsstring; duration : num }.

(** The objects [parseWorkout] builds.  An activity node is
    [{ type: "activity", ...parseActivity(line) }]: spreading [null] adds no
    property, so the node of a line that did not parse has neither a name nor
    a duration. *)
Inductive PlanNode :=
| ActivityNode (fields : option Activity)
| SetNode (repeat : num) (steps : list Activity).

(** A word of the pattern, letters matched under the [i] flag. *)
Fixpoint word (w : list ascii) : regex :=
  match w with
  | [] => Star (fun _ => false)          (* the empty word *)
  | [x] => Chr (ci x)
  | x :: w' => Seq (Chr (ci x)) (word w')
  end.
Definition kw (w : string) : regex := word (list_ascii_of_string w).

(** The pattern "/(\d+)\s*(m|min)/i". *)
Definition reMin : regex :=
  Seq (Group 1 (Plus isDigit))
      (Seq (Star isSpace) (Group 2 (Alt (kw "m") (kw "min")))).

(** The pattern "/(\d+)\s*(s|sec)/i". *)
Definition reSec : regex :=
  Seq (Group 1 (Plus isDigit))
      (Seq (Star isSpace) (Group 2 (Alt (kw "s") (kw "sec")))).

(** The pattern of [parseActivity], "/^ DUR (?:\s+ NAME )?$/i" without the
    blanks, where DUR is the group "(\d+\s*(?:m|min|s|sec)(?:\s*\d*\s*(?:s|sec))?)"
    and NAME is the group around ".*". *)
Definition reActivity : regex :=
  Seq Bos
   (Seq (Group 1
          (Seq (Plus isDigit)
          (Seq (Star isSpace)
          (Seq (Alt (kw "m") (Alt (kw "min") (Alt (kw "s") (kw "sec"))))
               (Opt (Seq (Star isSpace)
                    (Seq (Star isDigit)
                    (Seq (Star isSpace)
                         (Alt (kw "s") (kw "sec"))))))))))
   (Seq (Opt (Seq (Plus isSpace) (Group 2 (Star dot))))
        Eos)).

(** The pattern "/^(\d+)x\s*\((.+)\)$/i". *)
Definition reSet : regex :=
  Seq Bos
   (Seq (Group 1 (Plus isDigit))
   (Seq (kw "x")
   (Seq (Star isSpace)
   (Seq (Chr (lit "("))
   (Seq (Group 2 (Plus dot))
   (Seq (Chr (lit ")"))
        Eos)))))).

(** [m[i]] for a group that took part in the match. *)
Definition group (i : nat) (m : captures) : jsstring :=
  match capture i m with Some v => v | None => [] end.

Definition parseDuration (s : jsstring) : num :=
  let total := Fin 0 in
  let min := match_ reMin s in
  let sec := match_ reSec s in
  let total :=
    match min with
    | Some m => nadd total (nmul (parseInt (joinGroups m 0 2)) (Fin 60))
    | None => total
    end in
  let total :=
    match sec with
    | Some m => nadd total (parseInt (joinGroups m 0 2))
    | None => total
    end in
  total.

Definition parseActivity (text : jsstring) : option Activity :=
  match match_ reActivity (trim text) with
  | None => None
  | Some m =>
      Some {| name := match capture 2 m with
                      | Some g => if truthy g then trim g else []
                      | None => []
                      end;
              duration := parseDuration (group 1 m) |}
  end.

(** [.filter(Boolean)] on an array of objects and [null]s. *)
Fixpoint filterBoolean {A : Type} (l : list (option A)) : list A :=
  match l with
  | [] => []
  | Some a :: l' => a :: filterBoolean l'
  | None :: l' => filterBoolean l'
  end.

(** The callback of the second [map] of [parseWorkout]. *)
Definition parseLine (line : jsstring) : PlanNode :=
  match match_ reSet line with
  | None => ActivityNode (parseActivity line)
  | Some set =>
      SetNode (parseInt (group 1 set))
              (filterBoolean
                 (map parseActivity (split (N_of_ascii ",") (group 2 set))))
  end.

(** [Boolean(node)]: an object is truthy whatever its properties. *)
Definition truthyNode (n : PlanNode) : bool := true.

Definition parseWorkout (text : jsstring) : list PlanNode :=
  filter truthyNode
    (map parseLine
       (filter truthy (map trim (split (N_of_ascii "010") text)))).

End Parser.
Import Parser.

(** ** Flattening *)

Module Flatten.

(** An entry of the timeline: [{ ...block }] for an activity node, and
    [{ ...step, interval: r, intervalTotal: block.repeat }] for a step of a
    set. *)
Record TimelineStep := {
  activity : option Activity;
  interval : option Z;
  intervalTotal : option num
}.

(** [timeline.push(x)] *)
Definition push {A : Type} (timeline : list A) (x : A) : list A :=
  timeline ++ [x].

(** [block.steps.forEach(step => timeline.push({...}))] for one [r]. *)
Definition pushSteps (r : Z) (repeat : num) (steps : list Activity)
           (timeline : list TimelineStep) : list TimelineStep :=
  fold_left
    (fun tl step =>
       push tl {| activity := Some step;
                  interval := Some r;
                  intervalTotal := Some repeat |})
    steps timeline.

(** [for (; r <= block.repeat; r++) ...], unrolled at most [fuel] times. *)
Fixpoint forLoop (fuel : nat) (r : Z) (repeat : num) (steps : list Activity)
         (timeline : list TimelineStep) : list TimelineStep :=
  match fuel with
  | O => timeline
  | S fuel' =>
      if nle (Fin r) repeat
      then forLoop fuel' (r + 1) repeat steps (pushSteps r repeat steps timeline)
      else timeline
  end.

(** How often the loop body runs. *)
Definition iterations (repeat : num) : nat :=
  match repeat with Fin R => Z.to_nat R | NaN => 0 end.

(** The body of [parsed.forEach(block => ...)]. *)
Definition flattenBlock (timeline : list TimelineStep) (block : PlanNode)
  : list TimelineStep :=
  match block with
  | ActivityNode fields =>
      push timeline {| activity := fields; interval := None;
                       intervalTotal := None |}
  | SetNode repeat steps =>
      forLoop (iterations repeat) 1 repeat steps timeline
  end.

Definition flattenWorkout (parsed : list PlanNode) : list TimelineStep :=
  fold_left flattenBlock parsed [].

End Flatten.
Import Flatten.

(** ** The timer *)

Module Timer.

(** What the program shows and plays. *)
Inductive Event :=
| ClockText (clock : num)
    (* [updateUI] cut short: only [clock.textContent = format(remaining)] *)
| Snapshot (clock : num) (activityName : option jsstring)
           (intervalShown : option (Z * option num))
           (elapsedShown : Z) (totalRemaining : num)
    (* a complete [updateUI]; the four times go through [format] *)
| Pulse                                       (* [pulseClock] *)
| PlaySample                                  (* [playSample] *)
| Controls (running paused : bool)            (* [updateControls] *)
| Screen (clock activityText intervalText elapsedText remainingText : string)
    (* the five literal texts [stop] writes *)
| Done (clock activityText : string)          (* the two texts of [finish] *)
| Uncaught.                                   (* a TypeError left a callback *)

Inductive TimerKind := TickTimer | SampleTimer.

(** A live browser timer: its handle, what it calls, and the whole seconds
    until it fires next. *)
Record BrowserTimer := { tid : nat; kind : TimerKind; due : nat }.

(** The global variables of the program, and the browser's timer table
    (oldest first) with the next free handle. *)
Record TimerState := {
  timeline : list TimelineStep;
  index : nat;
  remaining : num;
  elapsed : Z;
  intervalId : option nat;
  sampleTimeoutId : option nat;
  isRunning : bool;
  isPaused : bool;
  timers : list BrowserTimer;
  nextId : nat
}.

Definition initial : TimerState :=
  {| timeline := []; index := 0; remaining := Fin 0; elapsed := 0;
     intervalId := None; sampleTimeoutId := None;
     isRunning := false; isPaused := false; timers := []; nextId := 1 |}.

Definition set_timeline v st :=
  {| timeline := v; index := index st; remaining := remaining st;
     elapsed := elapsed st; intervalId := intervalId st;
     sampleTimeoutId := sampleTimeoutId st; isRunning := isRunning st;
     isPaused := isPaused st; timers := timers st; nextId := nextId st |}.
Definition set_index v st :=
  {| timeline := timeline st; index := v; remaining := remaining st;
     elapsed := elapsed st; intervalId := intervalId st;
     sampleTimeoutId := sampleTimeoutId st; isRunning := isRunning st;
     isPaused := isPaused st; timers := timers st; nextId := nextId st |}.
Definition set_remaining v st :=
  {| timeline := timeline st; index := index st; remaining := v;
     elapsed := elapsed st; intervalId := intervalId st;
     sampleTimeoutId := sampleTimeoutId st; isRunning := isRunning st;
     isPaused := isPaused st; timers := timers st; nextId := nextId st |}.
Definition set_elapsed v st :=
  {| timeline := timeline st; index := index st; remaining := remaining st;
     elapsed := v; intervalId := intervalId st;
     sampleTimeoutId := sampleTimeoutId st; isRunning := isRunning st;
     isPaused := isPaused st; timers := timers st; nextId := nextId st |}.
Definition set_intervalId v st :=
  {| timeline := timeline st; index := index st; remaining := remaining st;
     elapsed := elapsed st; intervalId := v;
     sampleTimeoutId := sampleTimeoutId st; isRunning := isRunning st;
     isPaused := isPaused st; timers := timers st; nextId := nextId st |}.
Definition set_sampleTimeoutId v st :=
  {| timeline := timeline st; index := index st; remaining := remaining st;
     elapsed := elapsed st; intervalId := intervalId st;
     sampleTimeoutId := v; isRunning := isRunning st;
     isPaused := isPaused st; timers := timers st; nextId := nextId st |}.
Definition set_isRunning v st :=
  {| timeline := timeline st; index := index st; remaining := remaining st;
     elapsed := elapsed st; intervalId := intervalId st;
     sampleTimeoutId := sampleTimeoutId st; isRunning := v;
     isPaused := isPaused st; timers := timers st; nextId := nextId st |}.
Definition set_isPaused v st :=
  {| timeline := timeline st; index := index st; remaining := remaining st;
     elapsed := elapsed st; intervalId := intervalId st;
     sampleTimeoutId := sampleTimeoutId st; isRunning := isRunning st;
     isPaused := v; timers := timers st; nextId := nextId st |}.
Definition set_timers v st :=
  {| timeline := timeline st; index := index st; remaining := remaining st;
     elapsed := elapsed st; intervalId := intervalId st;
     sampleTimeoutId := sampleTimeoutId st; isRunning := isRunning st;
     isPaused := isPaused st; timers := v; nextId := nextId st |}.
Definition set_nextId v st :=
  {| timeline := timeline st; index := index st; remaining := remaining st;
     elapsed := elapsed st; intervalId := intervalId st;
     sampleTimeoutId := sampleTimeoutId st; isRunning := isRunning st;
     isPaused := isPaused st; timers := timers st; nextId := v |}.

(** *** Statements: state, emitted events, and a thrown TypeError *)

Record Result (A : Type) := {
  value : option A;          (* [None]: a TypeError was thrown *)
  state : TimerState;
  events : list Event
}.

Definition M (A : Type) := TimerState -> Result A.

Definition ret {A} (a : A) : M A :=
  fun st => {| value := Some a; state := st; events := [] |}.
Definition bind {A B} (m : M A) (f : A -> M B) : M B :=
  fun st =>
    match m st with
    | {| value := Some a; state := st1; events := ev1 |} =>
        match f a st1 with
        | {| value := v; state := st2; events := ev2 |} =>
            {| value := v; state := st2; events := ev1 ++ ev2 |}
        end
    | {| value := None; state := st1; events := ev1 |} =>
        {| value := None; state := st1; events := ev1 |}
    end.
Definition get : M TimerState :=
  fun st => {| value := Some st; state := st; events := [] |}.
Definition modify (f : TimerState -> TimerState) : M unit :=
  fun st => {| value := Some tt; state := f st; events := [] |}.
Definition emit (e : Event) : M unit :=
  fun st => {| value := Some tt; state := st; events := [e] |}.
Definition throw {A} : M A :=
  fun st => {| value := None; state := st; events := [] |}.
(** The browser runs a callback: a TypeError that leaves it is reported and
    the page goes on. *)
Definition callback (m : M unit) : M unit :=
  fun st =>
    match m st with
    | {| value := Some u; state := st1; events := ev1 |} =>
        {| value := Some u; state := st1; events := ev1 |}
    | {| value := None; state := st1; events := ev1 |} =>
        {| value := Some tt; state := st1; events := ev1 ++ [Uncaught] |}
    end.

Declare Scope js_scope.
Delimit Scope js_scope with js.
Notation "x <- m ;; k" := (bind m (fun x => k))
  (at level 61, m at next level, right associativity) : js_scope.
Notation "m ;; k" := (bind m (fun _ => k))
  (at level 61, right associativity) : js_scope.
Open Scope js_scope.

(** *** Browser timers *)

(** [setInterval(tick, 1000)] *)
Definition setInterval : M nat :=
  st <- get ;;
  modify (fun st =>
    set_nextId (S (nextId st))
      (set_timers (timers st ++ [{| tid := nextId st; kind := TickTimer;
                                    due := 1 |}]) st)) ;;
  ret (nextId st).

(** [setTimeout(() => { playSample(); sampleTimeoutId = null; }, d * 1000)] *)
Definition setTimeout (d : nat) : M nat :=
  st <- get ;;
  modify (fun st =>
    set_nextId (S (nextId st))
      (set_timers (timers st ++ [{| tid := nextId st; kind := SampleTimer;
                                    due := d |}]) st)) ;;
  ret (nextId st).

(** [clearInterval(id)] and [clearTimeout(id)] share the handles; clearing
    [null] or a dead handle does nothing. *)
Definition clearTimer (id : option nat) : M unit :=
  match id with
  | Some i =>
      modify (fun st =>
        set_timers (filter (fun t => negb (Nat.eqb (tid t) i)) (timers st)) st)
  | None => ret tt
  end.

(** *** The functions of the program *)

Definition playSample : M unit := emit PlaySample.
Definition pulseClock : M unit := emit Pulse.

Definition updateControls : M unit :=
  st <- get ;; emit (Controls (isRunning st) (isPaused st)).

(** [a.duration] in arithmetic: a missing property reads [undefined], which
    counts as [NaN]. *)
Definition stepDuration (a : TimelineStep) : num :=
  match activity a with
  | Some act => duration act
  | None => NaN
  end.

(** [timeline.slice(index).reduce((s, a) => s + a.duration, 0)] *)
Definition sumFrom (tl : list TimelineStep) (i : nat) : num :=
  fold_left (fun s a => nadd s (stepDuration a)) (skipn i tl) (Fin 0).

Definition updateUI : M unit :=
  st <- get ;;
  match nth_error (timeline st) (index st) with
  | None =>
      (* [cur] is undefined: the clock is written, then [cur.name] throws *)
      emit (ClockText (remaining st)) ;; throw
  | Some cur =>
      emit (Snapshot (remaining st)
              (option_map name (activity cur))
              (match interval cur with
               | Some r => if (r =? 0)%Z then None
                           else Some (r, intervalTotal cur)
               | None => None
               end)
              (elapsed st)
              (nsub (sumFrom (timeline st) (index st))
                    (nsub (stepDuration cur) (remaining st))))
  end.

(** [if (sampleTimeoutId) { clearTimeout(sampleTimeoutId); sampleTimeoutId = null; }] *)
Definition clearSampleTimeout : M unit :=
  st <- get ;;
  match sampleTimeoutId st with
  | Some i => clearTimer (Some i) ;; modify (set_sampleTimeoutId None)
  | None => ret tt
  end.

(** [index < timeline.length - 1] *)
Definition notLast (st : TimerState) : bool :=
  (Z.of_nat (index st) <? Z.of_nat (List.length (timeline st)) - 1)%Z.

(** The delay [(remaining - 3) * 1000] ms in whole seconds. *)
Definition cueDelay (r : num) : nat :=
  match r with Fin z => Z.to_nat (z - 3) | NaN => 0 end.

(** The cue part shared by [startActivity] and [resume]. *)
Definition scheduleSample : M unit :=
  st <- get ;;
  if ngt (remaining st) (Fin 3) then
    id <- setTimeout (cueDelay (remaining st)) ;;
    modify (set_sampleTimeoutId (Some id))
  else if neq (remaining st) (Fin 3) then playSample
  else ret tt.

Definition startActivity (subtractOne : bool) : M unit :=
  st <- get ;;
  clearTimer (intervalId st) ;;
  clearSampleTimeout ;;
  st <- get ;;
  match nth_error (timeline st) (index st) with
  | None => throw            (* [timeline[index].duration] of undefined *)
  | Some cur =>
      modify (set_remaining
                (nmax (Fin 0)
                      (nsub (stepDuration cur)
                            (Fin (if subtractOne then 1 else 0))))) ;;
      updateUI ;;
      id <- setInterval ;;
      modify (set_intervalId (Some id)) ;;
      st <- get ;;
      if notLast st then scheduleSample else ret tt
  end.

Definition finish : M unit :=
  st <- get ;;
  clearTimer (intervalId st) ;;
  clearSampleTimeout ;;
  emit (Done "🎉" "done") ;;
  modify (set_isRunning false) ;;
  updateControls.

Definition next : M unit :=
  modify (fun st => set_index (S (index st)) st) ;;
  st <- get ;;
  if List.length (timeline st) <=? index st then finish
  else startActivity true.

Definition tick : M unit :=
  st <- get ;;
  if nle (remaining st) (Fin 0) then next
  else
    modify (fun st => set_remaining (nsub (remaining st) (Fin 1)) st) ;;
    modify (fun st => set_elapsed (elapsed st + 1)%Z st) ;;
    updateUI ;;
    pulseClock.

(** [start()], with [input.value] as its argument. *)
Definition start (input : jsstring) : M unit :=
  modify (set_timeline (flattenWorkout (parseWorkout input))) ;;
  st <- get ;;
  if List.length (timeline st) =? 0 then ret tt
  else
    modify (set_index 0) ;;
    modify (set_elapsed 0%Z) ;;
    modify (set_isRunning true) ;;
    modify (set_isPaused false) ;;
    startActivity false ;;
    updateControls.

Definition pause : M unit :=
  st <- get ;;
  clearTimer (intervalId st) ;;
  clearSampleTimeout ;;
  modify (set_isPaused true) ;;
  modify (set_isRunning false) ;;
  updateControls.

Definition resume : M unit :=
  modify (set_isPaused false) ;;
  modify (set_isRunning true) ;;
  id <- setInterval ;;
  modify (set_intervalId (Some id)) ;;
  st <- get ;;
  (if notLast st then clearSampleTimeout ;; scheduleSample else ret tt) ;;
  updateControls.

Definition stop : M unit :=
  st <- get ;;
  clearTimer (intervalId st) ;;
  clearSampleTimeout ;;
  modify (set_isRunning false) ;;
  modify (set_isPaused false) ;;
  emit (Screen "00:00" "ready" "" "0:00" "0:00") ;;
  updateControls.

(** [format(sec)] *)
Definition showInt (z : Z) : string :=
  DecimalString.NilZero.string_of_int (Z.to_int z).
Definition padStart2 (s : string) : string :=
  match String.length s with
  | 0 => "00"
  | 1 => "0" ++ s
  | _ => s
  end%string.
Definition format (sec : num) : string :=
  match sec with
  | Fin z => (showInt (z / 60) ++ ":" ++ padStart2 (showInt (Z.rem z 60)))%string
  | NaN => "NaN:NaN"%string
  end.

(** *** The page: clicks and the passing of time *)

(** [startBtn.onclick], [pauseBtn.onclick], [stopBtn.onclick] *)
Definition clickStart (input : jsstring) : M unit :=
  st <- get ;; if isPaused st then resume else start input.
Definition clickPause : M unit :=
  st <- get ;; if isRunning st then pause else ret tt.
Definition clickStop : M unit := stop.

Definition live (i : nat) (st : TimerState) : bool :=
  existsb (fun t => Nat.eqb (tid t) i) (timers st).

(** A timer that is due fires unless an earlier callback cleared it; a
    timeout leaves the table when it fires. *)
Definition fire (t : BrowserTimer) : M unit :=
  st <- get ;;
  if live (tid t) st then
    match kind t with
    | TickTimer => callback tick
    | SampleTimer =>
        clearTimer (Some (tid t)) ;;
        callback (playSample ;; modify (set_sampleTimeoutId None))
    end
  else ret tt.

Fixpoint forEach {A} (f : A -> M unit) (l : list A) : M unit :=
  match l with
  | [] => ret tt
  | a :: l' => f a ;; forEach f l'
  end.

Definition isDue (t : BrowserTimer) : bool := due t <=? 1.

(** One second of wall time: the timers that are due fire, oldest first, the
    others come one second closer. *)
Definition second : M unit :=
  st <- get ;;
  modify (set_timers
            (map (fun t => if isDue t then t
                           else {| tid := tid t; kind := kind t;
                                   due := due t - 1 |})
                 (timers st))) ;;
  forEach fire (filter isDue (timers st)).

Inductive Action :=
| ClickStart (input : jsstring)
| ClickPause
| ClickStop
| Second.

Definition step (a : Action) : M unit :=
  match a with
  | ClickStart input => callback (clickStart input)
  | ClickPause => callback clickPause
  | ClickStop => callback clickStop
  | Second => second
  end.

(** The state after a list of actions, and what each action emitted. *)
Fixpoint run (acts : list Action) (st : TimerState)
  : TimerState * list (TimerState * list Event) :=
  match acts with
  | [] => (st, [])
  | a :: acts' =>
      let r := step a st in
      let '(st', log) := run acts' (state r) in
      (st', (state r, events r) :: log)
  end.

End Timer.
Import Timer.

(** ** Sound *)

Module Audio.

(** [audioCtx.state] *)
Inductive CtxState := Suspended | Running | Closed.

(** How the request for one file ends: [fetch] rejects, the response is not
    [ok], [arrayBuffer()] rejects, [decodeAudioData] rejects, or there is a
    decoded buffer. *)
Inductive Response :=
| FetchRejects | NotOk | BodyRejects | DecodeRejects | Decodes.

(** The browser as the sound code meets it: whether [new AudioContext()]
    returns (it throws otherwise), whether the new context starts running
    (it starts suspended otherwise), whether [resume()] resolves, what
    becomes of the request for a file, and whether the node calls
    ([createOscillator], [createGain], [createBufferSource], [connect],
    [start]) return without throwing. *)
Record Browser := {
  constructs : bool;
  startsRunning : bool;
  resumes : bool;
  respond : string -> Response;
  nodesWork : bool
}.

(** The two variables of the sound code.  A context is kept with its state;
    a decoded buffer is named by the file it came from. *)
Record AudioState := {
  audioCtx : option CtxState;
  sampleBuffer : option string
}.

Definition initialAudio : AudioState :=
  {| audioCtx := None; sampleBuffer := None |}.

(** What the sound code asks of the browser. *)
Inductive AudioEvent :=
| NewContext                       (* [new AudioContext()] *)
| Resume                           (* [audioCtx.resume()] *)
| Fetch (url : string)             (* [fetch(url)] *)
| ReadBody (url : string)          (* [resp.arrayBuffer()] *)
| Decode (url : string)            (* [ctx.decodeAudioData(...)] *)
| Burst                            (* the short oscillator of the unlock *)
| Tone (freq duration : Z)         (* the oscillator of [beep] *)
| Play (buffer : string).          (* [src.start()] on a buffer source *)

(** Statements: a result, the state after, and the requests made. *)
Definition Sound (T : Type) := AudioState -> T * AudioState * list AudioEvent.

Definition ret {T} (x : T) : Sound T := fun st => (x, st, []).
Definition bind {T U} (m : Sound T) (f : T -> Sound U) : Sound U :=
  fun st =>
    let '(x, st1, ev1) := m st in
    let '(y, st2, ev2) := f x st1 in
    (y, st2, ev1 ++ ev2).
Definition get : Sound AudioState := fun st => (st, st, []).
Definition emit (e : AudioEvent) : Sound unit := fun st => (tt, st, [e]).
Definition setCtx (c : option CtxState) : Sound unit :=
  fun st => (tt, {| audioCtx := c; sampleBuffer := sampleBuffer st |}, []).
Definition setBuffer (buf : option string) : Sound unit :=
  fun st => (tt, {| audioCtx := audioCtx st; sampleBuffer := buf |}, []).

Declare Scope sound_scope.
Delimit Scope sound_scope with sound.
Notation "x <- m ;; k" := (bind m (fun x => k))
  (at level 61, m at next level, right associativity) : sound_scope.
Notation "m ;; k" := (bind m (fun _ => k))
  (at level 61, right associativity) : sound_scope.
Local Open Scope sound_scope.

(** [audioCtx && audioCtx.state !== "closed"] *)
Definition usable (c : option CtxState) : bool :=
  match c with
  | Some Suspended | Some Running => true
  | Some Closed | None => false
  end.

(** [ensureAudioContext()]; the result says whether the promise resolves to
    a context ([true]) or to [null]. *)
Definition ensureAudioContext (b : Browser) : Sound bool :=
  st <- get ;;
  if usable (audioCtx st) then ret true
  else
    emit NewContext ;;
    if constructs b then
      if startsRunning b then setCtx (Some Running) ;; ret true
      else
        setCtx (Some Suspended) ;;
        emit Resume ;;
        (if resumes b then setCtx (Some Running) else ret tt) ;;
        ret true
    else setCtx None ;; ret false.

Definition candidates : list string :=
  ["sound.wav"; "sound.wav.asd"; "sound.wv.asd"]%string.

(** The loop of [loadSample] over the candidates that are left. *)
Fixpoint tryCandidates (b : Browser) (urls : list string)
  : Sound (option string) :=
  match urls with
  | [] => ret None
  | url :: rest =>
      emit (Fetch url) ;;
      match respond b url with
      | FetchRejects => tryCandidates b rest
      | NotOk => tryCandidates b rest
      | BodyRejects => emit (ReadBody url) ;; tryCandidates b rest
      | DecodeRejects =>
          emit (ReadBody url) ;; emit (Decode url) ;; tryCandidates b rest
      | Decodes =>
          emit (ReadBody url) ;; emit (Decode url) ;;
          setBuffer (Some url) ;; ret (Some url)
      end
  end.

(** [loadSample()]; the result is the buffer the promise resolves to. *)
Definition loadSample (b : Browser) : Sound (option string) :=
  ctx <- ensureAudioContext b ;;
  if negb ctx then ret None
  else
    st <- get ;;
    match sampleBuffer st with
    | Some buf => ret (Some buf)
    | None => tryCandidates b candidates
    end.

(** The [try] block that plays a buffer; a throw is swallowed. *)
Definition startSource (b : Browser) (buf : string) : Sound unit :=
  if nodesWork b then emit (Play buf) else ret tt.

Definition playSample (b : Browser) : Sound unit :=
  ctx <- ensureAudioContext b ;;
  if negb ctx then ret tt
  else
    st <- get ;;
    match sampleBuffer st with
    | None =>
        buf <- loadSample b ;;
        match buf with
        | None => ret tt
        | Some x => startSource b x
        end
    | Some x => startSource b x
    end.

Definition unlockAudioGesture (b : Browser) : Sound unit :=
  ctx <- ensureAudioContext b ;;
  if negb ctx then ret tt
  else
    st <- get ;;
    match audioCtx st with
    | Some Running => ret tt
    | _ =>
        (if nodesWork b then emit Burst else ret tt) ;;
        loadSample b ;;
        ret tt
    end.

Definition beep (b : Browser) (freq duration : Z) : Sound unit :=
  ctx <- ensureAudioContext b ;;
  if negb ctx then ret tt
  else if nodesWork b then emit (Tone freq duration) else ret tt.

(** The calls into the sound code, each with the browser it meets.  A call
    has run to its end, with the load it may have started, before the next
    one is made. *)
Inductive Call :=
| CallEnsure | CallUnlock | CallLoad | CallPlay
| CallBeep (freq duration : Z).

Definition call (b : Browser) (c : Call) : Sound unit :=
  match c with
  | CallEnsure => ensureAudioContext b ;; ret tt
  | CallUnlock => unlockAudioGesture b
  | CallLoad => loadSample b ;; ret tt
  | CallPlay => playSample b
  | CallBeep f d => beep b f d
  end.

Fixpoint calls (l : list (Browser * Call)) : Sound unit :=
  match l with
  | [] => ret tt
  | (b, c) :: l' => call b c ;; calls l'
  end.

(** *** Notions used in the statements *)

Definition decodes (b : Browser) (url : string) : bool :=
  match respond b url with Decodes => true | _ => false end.

(** The files asked for: the candidates up to the first that decodes. *)
Fixpoint asked (b : Browser) (urls : list string) : list string :=
  match urls with
  | [] => []
  | url :: rest => url :: (if decodes b url then [] else asked b rest)
  end.

Definition fetched (evs : list AudioEvent) : list string :=
  flat_map (fun e => match e with Fetch url => [url] | _ => [] end) evs.

Definition played (evs : list AudioEvent) : list string :=
  flat_map (fun e => match e with Play buf => [buf] | _ => [] end) evs.

Definition isContextCall (e : AudioEvent) : bool :=
  match e with NewContext | Resume => true | _ => false end.

Definition result {T} (r : T * AudioState * list AudioEvent) : T := fst (fst r).
Definition after {T} (r : T * AudioState * list AudioEvent) : AudioState :=
  snd (fst r).
Definition requests {T} (r : T * AudioState * list AudioEvent)
  : list AudioEvent := snd r.

(** A statement that leaves a context that exists alone: it keeps the
    context and neither makes nor resumes one. *)
Definition keepsContext {T} (m : Sound T) : Prop :=
  forall st, usable (audioCtx st) = true ->
    audioCtx (after (m st)) = audioCtx st
    /\ existsb isContextCall (requests (m st)) = false.

End Audio.

(** ** The earlier variant of the page

    The source file ends with an earlier variant of the program: an
    activity needs a name, and instead of the sample [tick] beeps in the
    last three seconds of a step and once more, higher, when a step that is
    not the last reaches zero.  What differs is embedded here; [parseDuration],
    [flattenWorkout], [updateUI], [updateControls], [pulseClock] and [format]
    are the same text in both variants. *)

Module Earlier.

(** The pattern of [parseActivity], "/^ DUR \s+ NAME $/i" without the blanks,
    DUR and NAME as in the later variant: the white space and the name are
    not optional. *)
Definition reActivity : regex :=
  Seq Bos
   (Seq (Group 1
          (Seq (Plus isDigit)
          (Seq (Star isSpace)
          (Seq (Alt (kw "m") (Alt (kw "min") (Alt (kw "s") (kw "sec"))))
               (Opt (Seq (Star isSpace)
                    (Seq (Star isDigit)
                    (Seq (Star isSpace)
                         (Alt (kw "s") (kw "sec"))))))))))
   (Seq (Plus isSpace)
   (Seq (Group 2 (Star dot))
        Eos))).

Definition parseActivity (text : jsstring) : option Activity :=
  match match_ reActivity (trim text) with
  | None => None
  | Some m =>
      Some {| name := trim (group 2 m);
              duration := parseDuration (group 1 m) |}
  end.

Definition parseLine (line : jsstring) : PlanNode :=
  match match_ reSet line with
  | None => ActivityNode (parseActivity line)
  | Some set =>
      SetNode (parseInt (group 1 set))
              (filterBoolean
                 (map parseActivity (split (N_of_ascii ",") (group 2 set))))
  end.

Definition parseWorkout (text : jsstring) : list PlanNode :=
  filter truthyNode
    (map parseLine
       (filter truthy (map trim (split (N_of_ascii "010") text)))).

(** What the earlier page shows and plays: the events of the later one, and
    the beeps. *)
Inductive Out :=
| Shown (e : Event)
| Beep (freq duration : Z).         (* [beep(freq, duration)] *)

Record EResult (A : Type) := {
  evalue : option A;         (* [None]: a TypeError was thrown *)
  estate : TimerState;
  eevents : list Out
}.

Definition EM (A : Type) := TimerState -> EResult A.

Definition eret {A} (a : A) : EM A :=
  fun st => {| evalue := Some a; estate := st; eevents := [] |}.
Definition ebind {A B} (m : EM A) (f : A -> EM B) : EM B :=
  fun st =>
    match m st with
    | {| evalue := Some a; estate := st1; eevents := ev1 |} =>
        match f a st1 with
        | {| evalue := v; estate := st2; eevents := ev2 |} =>
            {| evalue := v; estate := st2; eevents := ev1 ++ ev2 |}
        end
    | {| evalue := None; estate := st1; eevents := ev1 |} =>
        {| evalue := None; estate := st1; eevents := ev1 |}
    end.
(** A statement of the later variant, unchanged. *)
Definition same {A} (m : M A) : EM A :=
  fun st =>
    match m st with
    | {| value := v; state := st1; events := ev1 |} =>
        {| evalue := v; estate := st1; eevents := map Shown ev1 |}
    end.
Definition ecallback (m : EM unit) : EM unit :=
  fun st =>
    match m st with
    | {| evalue := Some u; estate := st1; eevents := ev1 |} =>
        {| evalue := Some u; estate := st1; eevents := ev1 |}
    | {| evalue := None; estate := st1; eevents := ev1 |} =>
        {| evalue := Some tt; estate := st1;
           eevents := ev1 ++ [Shown Uncaught] |}
    end.

Declare Scope earlier_scope.
Delimit Scope earlier_scope with earlier.
Notation "x <- m ;; k" := (ebind m (fun x => k))
  (at level 61, m at next level, right associativity) : earlier_scope.
Notation "m ;; k" := (ebind m (fun _ => k))
  (at level 61, right associativity) : earlier_scope.
Local Open Scope earlier_scope.

Definition beep (freq duration : Z) : EM unit :=
  fun st => {| evalue := Some tt; estate := st;
               eevents := [Beep freq duration] |}.

Definition startActivity (subtractOne : bool) : EM unit :=
  st <- same get ;;
  same (clearTimer (intervalId st)) ;;
  st <- same get ;;
  match nth_error (timeline st) (index st) with
  | None => same throw       (* [timeline[index].duration] of undefined *)
  | Some cur =>
      same (modify (set_remaining
                      (nmax (Fin 0)
                            (nsub (stepDuration cur)
                                  (Fin (if subtractOne then 1 else 0)))))) ;;
      same updateUI ;;
      id <- same setInterval ;;
      same (modify (set_intervalId (Some id)))
  end.

Definition finish : EM unit :=
  st <- same get ;;
  same (clearTimer (intervalId st)) ;;
  same (emit (Done "🎉" "done")) ;;
  same (modify (set_isRunning false)) ;;
  same updateControls.

Definition next : EM unit :=
  same (modify (fun st => set_index (S (index st)) st)) ;;
  st <- same get ;;
  if List.length (timeline st) <=? index st then finish
  else startActivity true.

Definition tick : EM unit :=
  st <- same get ;;
  if nle (remaining st) (Fin 0) then next
  else
    same (modify (fun st => set_remaining (nsub (remaining st) (Fin 1)) st)) ;;
    same (modify (fun st => set_elapsed (elapsed st + 1)%Z st)) ;;
    st <- same get ;;
    (if nle (remaining st) (Fin 3) && ngt (remaining st) (Fin 0)
     then beep 1000 150 else eret tt) ;;
    (if neq (remaining st) (Fin 0) && notLast st
     then beep 1500 250 else eret tt) ;;
    same updateUI ;;
    same pulseClock.

Definition start (input : jsstring) : EM unit :=
  same (modify (set_timeline (flattenWorkout (parseWorkout input)))) ;;
  st <- same get ;;
  if List.length (timeline st) =? 0 then eret tt
  else
    same (modify (set_index 0)) ;;
    same (modify (set_elapsed 0%Z)) ;;
    same (modify (set_isRunning true)) ;;
    same (modify (set_isPaused false)) ;;
    startActivity false ;;
    same updateControls.

Definition pause : EM unit :=
  st <- same get ;;
  same (clearTimer (intervalId st)) ;;
  same (modify (set_isPaused true)) ;;
  same (modify (set_isRunning false)) ;;
  same updateControls.

Definition resume : EM unit :=
  same (modify (set_isPaused false)) ;;
  same (modify (set_isRunning true)) ;;
  id <- same setInterval ;;
  same (modify (set_intervalId (Some id))) ;;
  same updateControls.

Definition stop : EM unit :=
  st <- same get ;;
  same (clearTimer (intervalId st)) ;;
  same (modify (set_isRunning false)) ;;
  same (modify (set_isPaused false)) ;;
  same (emit (Screen "00:00" "ready" "" "0:00" "0:00")) ;;
  same updateControls.

(** [startBtn.onclick], [pauseBtn.onclick], [stopBtn.onclick] *)
Definition clickStart (input : jsstring) : EM unit :=
  st <- same get ;; if isPaused st then resume else start input.
Definition clickPause : EM unit :=
  st <- same get ;; if isRunning st then pause else eret tt.
Definition clickStop : EM unit := stop.

(** The only timers are tick intervals. *)
Definition fire (t : BrowserTimer) : EM unit :=
  st <- same get ;;
  if live (tid t) st then ecallback tick else eret tt.

Fixpoint forEach {A} (f : A -> EM unit) (l : list A) : EM unit :=
  match l with
  | [] => eret tt
  | a :: l' => f a ;; forEach f l'
  end.

(** One second of wall time. *)
Definition second : EM unit :=
  st <- same get ;;
  forEach fire (filter isDue (timers st)).

Definition step (a : Action) : EM unit :=
  match a with
  | ClickStart input => ecallback (clickStart input)
  | ClickPause => ecallback clickPause
  | ClickStop => ecallback clickStop
  | Second => second
  end.

Fixpoint run (acts : list Action) (st : TimerState)
  : TimerState * list (TimerState * list Out) :=
  match acts with
  | [] => (st, [])
  | a :: acts' =>
      let r := step a st in
      let '(st', log) := run acts' (estate r) in
      (st', (estate r, eevents r) :: log)
  end.

End Earlier.

(** ** Notions used in the statements *)

Module Spec.

(** The expansion of the plan as the specification words it: one plain step
    per activity, and for a set the groups [r = 1 .. R], each holding every
    step of the set annotated with [r] and [R]. *)
Definition plainStep (fields : option Activity) : TimelineStep :=
  {| activity := fields; interval := None; intervalTotal := None |}.

Definition annotated (r : Z) (repeat : num) (step : Activity) : TimelineStep :=
  {| activity := Some step; interval := Some r; intervalTotal := Some repeat |}.

Definition groupOf (repeat : num) (steps : list Activity) (r : nat)
  : list TimelineStep :=
  map (annotated (Z.of_nat r) repeat) steps.

Definition expandNode (node : PlanNode) : list TimelineStep :=
  match node with
  | ActivityNode fields => [plainStep fields]
  | SetNode repeat steps =>
      flat_map (groupOf repeat steps) (seq 1 (iterations repeat))
  end.

Definition flattenSpec (plan : list PlanNode) : list TimelineStep :=
  flat_map expandNode plan.

(** The number of plain activities, and [R * k] summed over the sets. *)
Definition isActivityNode (node : PlanNode) : bool :=
  match node with ActivityNode _ => true | SetNode _ _ => false end.

Definition setSize (node : PlanNode) : nat :=
  match node with
  | ActivityNode _ => 0
  | SetNode repeat steps => iterations repeat * List.length steps
  end.

Definition activityCount (plan : list PlanNode) : nat :=
  List.length (filter isActivityNode plan).

Definition setTotal (plan : list PlanNode) : nat :=
  list_sum (map setSize plan).

(** How many times the sample is played in a list of events. *)
Definition isCue (e : Event) : bool :=
  match e with PlaySample => true | _ => false end.
Definition cueCount (evs : list Event) : nat := List.length (filter isCue evs).

(** The cues played for step [i] in a log of [run]: those of the actions
    that ended with [index = i]. *)
Definition cuesFor (i : nat) (log : list (TimerState * list Event)) : nat :=
  list_sum (map (fun e => if Nat.eqb (index (fst e)) i
                          then cueCount (snd e) else 0) log).

(** The program variables back at the values they are declared with. *)
Definition isReset (st : TimerState) : Prop :=
  timeline st = [] /\ index st = 0 /\ remaining st = Fin 0 /\ elapsed st = 0%Z
  /\ isRunning st = false /\ isPaused st = false.

(** Every live browser timer is one the program still holds the handle of. *)
Definition owned (st : TimerState) : Prop :=
  forall t, In t (timers st) ->
            intervalId st = Some (tid t) \/ sampleTimeoutId st = Some (tid t).

(** The step under [index] exists, its duration is an integer [d >= 0], and
    [remaining] is an integer between [0] and [d]. *)
Definition inRange (st : TimerState) : Prop :=
  exists cur d r,
    nth_error (timeline st) (index st) = Some cur
    /\ stepDuration cur = Fin d /\ remaining st = Fin r /\ (0 <= r <= d)%Z.

(** Every step has a duration that is a non-negative integer. *)
Definition goodStep (a : TimelineStep) : Prop :=
  exists d, stepDuration a = Fin d /\ (0 <= d)%Z.
Definition goodTimeline (tl : list TimelineStep) : Prop := Forall goodStep tl.

(** *** A run that is started and then left alone *)

(** The snapshot [updateUI] shows for the step [cur] in state [st]. *)
Definition shown (st : TimerState) (cur : TimelineStep) : Event :=
  Snapshot (remaining st)
    (option_map name (activity cur))
    (match interval cur with
     | Some r => if (r =? 0)%Z then None else Some (r, intervalTotal cur)
     | None => None
     end)
    (elapsed st)
    (nsub (sumFrom (timeline st) (index st))
          (nsub (stepDuration cur) (remaining st))).

Definition tickTimer (a : nat) : BrowserTimer :=
  {| tid := a; kind := TickTimer; due := 1 |}.

(** The pending sample timeout, if any: its handle and its delay. *)
Definition cueTimers (c : option (nat * nat)) : list BrowserTimer :=
  match c with
  | Some (b, d) => [{| tid := b; kind := SampleTimer; due := d |}]
  | None => []
  end.

(** The timer running in step [i] with [r] seconds left, [e] elapsed, the
    tick interval under handle [a] and the sample timeout [c]. *)
Definition runningAt (tl : list TimelineStep) (i : nat) (r e : Z) (a : nat)
           (c : option (nat * nat)) (n : nat) : TimerState :=
  {| timeline := tl; index := i; remaining := Fin r; elapsed := e;
     intervalId := Some a; sampleTimeoutId := option_map fst c;
     isRunning := true; isPaused := false;
     timers := tickTimer a :: cueTimers c; nextId := n |}.

(** A pending sample timeout fires when three seconds are left. *)
Definition cueOk (r : Z) (a : nat) (c : option (nat * nat)) : Prop :=
  match c with
  | Some (b, d) => (3 < r)%Z /\ d = Z.to_nat (r - 3) /\ b <> a
  | None => True
  end.

(** The state [finish] leaves: nothing runs and no timer is live. *)
Definition isFinished (st : TimerState) : Prop :=
  isRunning st = false /\ isPaused st = false /\ timers st = []
  /\ index st = List.length (timeline st).

Definition isDone (e : Event) : bool :=
  match e with Done _ _ => true | _ => false end.

(** The duration of a step as an integer. *)
Definition dur (a : TimelineStep) : Z :=
  match stepDuration a with Fin d => d | NaN => 0%Z end.

(** The seconds a step starts with: its duration for the first step, one
    less (but not below zero) for a step entered by [next]. *)
Definition entry (first : bool) (a : TimelineStep) : Z :=
  Z.max 0 (dur a - (if first then 0 else 1)).

(** The seconds until [finish], counted from the entry into the steps. *)
Fixpoint restTicks (first : bool) (l : list TimelineStep) : nat :=
  match l with
  | [] => 0
  | a :: l' => S (Z.to_nat (entry first a)) + restTicks false l'
  end.
Definition ticksToFinish (tl : list TimelineStep) : nat := restTicks true tl.

(** The sum of all step durations. *)
Definition totalDuration (tl : list TimelineStep) : Z :=
  fold_right Z.add 0%Z (map dur tl).

(** The cues the policy allows for step [j]: one if the step is not the last
    and starts with at least three seconds, none otherwise. *)
Definition expectedCues (tl : list TimelineStep) (j : nat) : nat :=
  match nth_error tl j with
  | Some a =>
      if (S j <? List.length tl) && (3 <=? entry (Nat.eqb j 0) a)%Z
      then 1 else 0
  | None => 0
  end.

(** Every cue in the log was played with exactly three seconds left. *)
Definition cuesAtThree (log : list (TimerState * list Event)) : Prop :=
  Forall (fun e => cueCount (snd e) <> 0 -> remaining (fst e) = Fin 3) log.

(** What one second does to a pending sample timeout: it fires when it is
    due, and comes one second closer otherwise. *)
Definition afterCountdown (c : option (nat * nat))
  : option (nat * nat) * list Event :=
  match c with
  | Some (b, d) => if d <=? 1 then (None, [PlaySample]) else (Some (b, d - 1), [])
  | None => (None, [])
  end.

Definition cuePending (c : option (nat * nat)) : nat :=
  match c with Some _ => 1 | None => 0 end.

(** The three ways a step can be entered with [r] seconds: the cue is
    scheduled, played at once, or left out. *)
Inductive CueMode := Scheduled | Immediate | NoCue.

Definition cueMode (tl : list TimelineStep) (i : nat) (r : Z) : CueMode :=
  if (Z.of_nat i <? Z.of_nat (List.length tl) - 1)%Z then
    if (3 <? r)%Z then Scheduled
    else if (r =? 3)%Z then Immediate
    else NoCue
  else NoCue.

Definition entrySched (m : CueMode) (r : Z) (n : nat) : option (nat * nat) :=
  match m with Scheduled => Some (S n, Z.to_nat (r - 3)) | _ => None end.
Definition entryNext (m : CueMode) (n : nat) : nat :=
  match m with Scheduled => S (S n) | _ => S n end.
Definition entryPlay (m : CueMode) : list Event :=
  match m with Immediate => [PlaySample] | _ => [] end.

(** The state right after [startActivity] entered step [i] with [r] seconds,
    [n] being the first free timer handle before. *)
Definition enteredAt (tl : list TimelineStep) (i : nat) (r e : Z) (n : nat)
  : TimerState :=
  let m := cueMode tl i r in
  runningAt tl i r e n (entrySched m r n) (entryNext m n).

(** The state [finish] leaves behind. *)
Definition finishedAt (tl : list TimelineStep) (i : nat) (r e : Z) (a n : nat)
  : TimerState :=
  {| timeline := tl; index := i; remaining := Fin r; elapsed := e;
     intervalId := Some a; sampleTimeoutId := None;
     isRunning := false; isPaused := false; timers := []; nextId := n |}.

(** The live sample timeouts. *)
Definition isSampleTimer (t : BrowserTimer) : bool :=
  match kind t with SampleTimer => true | TickTimer => false end.
Definition sampleTimers (st : TimerState) : list BrowserTimer :=
  filter isSampleTimer (timers st).

Definition totalCues (log : list (TimerState * list Event)) : nat :=
  list_sum (map (fun en => cueCount (snd en)) log).

(** One second of a running timer either counts [remaining] down or moves
    [index] on. *)
Definition progress (st st' : TimerState) : Prop :=
  (index st' = index st
   /\ exists r r', remaining st = Fin r /\ remaining st' = Fin r' /\ (r' < r)%Z)
  \/ index st' = S (index st).

Fixpoint chain (st : TimerState) (log : list (TimerState * list Event)) : Prop :=
  match log with
  | [] => True
  | en :: rest => progress st (fst en) /\ chain (fst en) rest
  end.

(** The timer runs through every second of the log but the last, in which
    [finish] is called. *)
Fixpoint runsThenFinishes (log : list (TimerState * list Event)) : Prop :=
  match log with
  | [] => False
  | en :: rest =>
      match rest with
      | [] => isFinished (fst en) /\ existsb isDone (snd en) = true
      | _ :: _ => isRunning (fst en) = true /\ existsb isDone (snd en) = false
                  /\ runsThenFinishes rest
      end
  end.

(** Within step [i]: still running, nothing finished. *)
Definition within (i : nat) (en : TimerState * list Event) : Prop :=
  index (fst en) = i /\ isRunning (fst en) = true
  /\ existsb isDone (snd en) = false.

(** [k] seconds pass and nobody touches the page. *)
Definition seconds (k : nat) (st : TimerState) := run (repeat Second k) st.

(** The state at the end of a log that started in [st]. *)
Fixpoint endOf (st : TimerState) (log : list (TimerState * list Event))
  : TimerState :=
  match log with
  | [] => st
  | en :: rest => endOf (fst en) rest
  end.

(** *** Digits *)

(** The value of a string of decimal digits. *)
Definition decimal (ds : jsstring) : Z :=
  fold_left (fun acc c => (acc * 10 + digitVal c)%Z) ds 0%Z.

Definition allDigits (ds : jsstring) : Prop :=
  Forall (fun c => isDigit c = true) ds.

(** The class [p] does not go on into [rest]. *)
Definition stops (p : N -> bool) (rest : jsstring) : Prop :=
  match rest with [] => True | c :: _ => p c = false end.

(** *** The states of the page *)

(** The state [pause] leaves behind. *)
Definition pausedAt (tl : list TimelineStep) (i : nat) (r e : Z) (a n : nat)
  : TimerState :=
  {| timeline := tl; index := i; remaining := Fin r; elapsed := e;
     intervalId := Some a; sampleTimeoutId := None;
     isRunning := false; isPaused := true; timers := []; nextId := n |}.

(** The sample timeout is pending exactly when the step is not the last and
    more than three seconds are left. *)
Definition cueLive (tl : list TimelineStep) (i : nat) (r : Z)
           (c : option (nat * nat)) : Prop :=
  cuePending c = cuePending (entrySched (cueMode tl i r) r 0).

(** The states the page goes through: the timer runs in a step of a timeline
    with integer durations, it is paused in one, or nothing runs. *)
Inductive Canon : TimerState -> Prop :=
| CanonRunning tl i cur r e a c n :
    goodTimeline tl -> nth_error tl i = Some cur -> (0 <= r <= dur cur)%Z ->
    cueOk r a c -> cueLive tl i r c ->
    Canon (runningAt tl i r e a c n)
| CanonPaused tl i cur r e a n :
    goodTimeline tl -> nth_error tl i = Some cur -> (0 <= r <= dur cur)%Z ->
    Canon (pausedAt tl i r e a n)
| CanonIdle st :
    isRunning st = false -> isPaused st = false -> timers st = [] ->
    Canon st.

(** The runs considered: start is pressed only on inputs whose timeline has
    integer durations, and not on an empty one while the timer runs. *)
Definition allowed (a : Action) (st : TimerState) : Prop :=
  match a with
  | ClickStart input =>
      isPaused st = true
      \/ (goodTimeline (flattenWorkout (parseWorkout input))
          /\ (isRunning st = true -> flattenWorkout (parseWorkout input) <> []))
  | _ => True
  end.

Fixpoint allowedRun (acts : list Action) (st : TimerState) : Prop :=
  match acts with
  | [] => True
  | a :: rest => allowed a st /\ allowedRun rest (state (step a st))
  end.

(** The live tick intervals. *)
Definition isTickTimer (t : BrowserTimer) : bool :=
  match kind t with TickTimer => true | SampleTimer => false end.
Definition tickTimers (st : TimerState) : list BrowserTimer :=
  filter isTickTimer (timers st).

(** The seconds [tick] counts into [elapsed] over the steps: all of the
    first step, one less for each later one. *)
Fixpoint counted (first : bool) (l : list TimelineStep) : Z :=
  match l with
  | [] => 0%Z
  | a :: l' => (entry first a + counted false l')%Z
  end.

(** A log of [k] seconds in which nothing happens. *)
Definition quiet (k : nat) (st : TimerState) : list (TimerState * list Event) :=
  repeat (st, []) k.

(** The timer running in a step whose duration is [NaN]: [remaining] is
    [NaN] and no sample timeout is pending. *)
Definition stuckAt (tl : list TimelineStep) (i : nat) (e : Z) (a n : nat)
  : TimerState :=
  {| timeline := tl; index := i; remaining := NaN; elapsed := e;
     intervalId := Some a; sampleTimeoutId := None;
     isRunning := true; isPaused := false;
     timers := [tickTimer a]; nextId := n |}.

(** The timer is running after the action and [finish] was not called. *)
Definition stillRunning (en : TimerState * list Event) : Prop :=
  isRunning (fst en) = true /\ existsb isDone (snd en) = false.

(** The duration of a parsed activity as an integer, and the time a node of
    the plan takes: a set takes its rounds times the time of one round. *)
Definition actDuration (a : Activity) : Z :=
  match duration a with Fin d => d | NaN => 0%Z end.
Definition roundDuration (steps : list Activity) : Z :=
  fold_right Z.add 0%Z (map actDuration steps).
Definition nodeDuration (node : PlanNode) : Z :=
  match node with
  | ActivityNode (Some a) => actDuration a
  | ActivityNode None => 0%Z
  | SetNode repeat steps => (Z.of_nat (iterations repeat) * roundDuration steps)%Z
  end.
Definition planDuration (plan : list PlanNode) : Z :=
  fold_right Z.add 0%Z (map nodeDuration plan).

(** The decimal digit [d] as a character. *)
Definition digitChar (d : Z) : ascii := ascii_of_nat (48 + Z.to_nat d).

(** A string of white space only. *)
Definition blank (s : jsstring) : Prop := Forall (fun c => isSpace c = true) s.

(** *** The parts of the pattern of [parseActivity] *)

(** "(?:m|min|s|sec)" *)
Definition reUnit : regex :=
  Alt (kw "m") (Alt (kw "min") (Alt (kw "s") (kw "sec"))).
(** "\s*\d*\s*(?:s|sec)", the inside of the optional seconds part *)
Definition reSeconds : regex :=
  Seq (Star isSpace)
      (Seq (Star isDigit) (Seq (Star isSpace) (Alt (kw "s") (kw "sec")))).
(** "(?:\s+ NAME )?", NAME being group 2 *)
Definition reName : regex := Opt (Seq (Plus isSpace) (Group 2 (Star dot))).

(** The four ways to write a unit. *)
Inductive DurUnit := UnitM | UnitMin | UnitS | UnitSec.
Definition unitLetters (u : DurUnit) : string :=
  match u with
  | UnitM => "m" | UnitMin => "min" | UnitS => "s" | UnitSec => "sec"
  end.
Definition unitSeconds (u : DurUnit) : Z :=
  match u with UnitM | UnitMin => 60%Z | UnitS | UnitSec => 1%Z end.

(** [us] is the word [w] in some mix of lower and upper case, which is what
    the pattern matches under the [i] flag. *)
Fixpoint spells (w : list ascii) (us : jsstring) : bool :=
  match w, us with
  | [], [] => true
  | x :: w', c :: us' => ci x c && spells w' us'
  | _, _ => false
  end.
Definition spelled (u : DurUnit) (us : jsstring) : bool :=
  spells (list_ascii_of_string (unitLetters u)) us.

(** What follows cannot begin a seconds part: the text ends, or goes on with
    something that is neither white space, nor a digit, nor an [s]. *)
Definition noSeconds (t : jsstring) : Prop :=
  match t with
  | [] => True
  | x :: _ => isSpace x = false /\ isDigit x = false /\ ci "s" x = false
  end.

(** A name the parser hands back unchanged: it is not empty, stays on one
    line and has no white space at either end. *)
Definition trimmedName (nm : jsstring) : Prop :=
  nm <> [] /\ stops isSpace nm /\ Forall (fun c => dot c = true) nm
  /\ isSpace (last nm 0%N) = false.

(** What may follow the duration on a line, and the name it gives: nothing,
    or white space and a name. *)
Inductive Tail : jsstring -> jsstring -> Prop :=
| TailNone : Tail [] []
| TailName w0 ws nm :
    isSpace w0 = true -> blank ws -> trimmedName nm -> Tail (w0 :: ws ++ nm) nm.

(** A name that begins like the seconds part of a duration: digits or none,
    white space or none, and then [s] or [sec] as a word of its own.  The
    word ends at white space; [bare] says whether it may also end the
    text. *)
Fixpoint dropDigits (s : jsstring) : jsstring :=
  match s with
  | c :: s' => if isDigit c then dropDigits s' else s
  | [] => []
  end.
Definition wordEnd (bare : bool) (r : jsstring) : bool :=
  match r with [] => bare | x :: _ => isSpace x end.
Definition secondsWord (bare : bool) (r : jsstring) : bool :=
  match r with
  | a :: r1 =>
      ci "s" a
      && (wordEnd bare r1
          || match r1 with
             | b :: c :: r2 => ci "e" b && ci "c" c && wordEnd bare r2
             | _ => false
             end)
  | [] => false
  end.
Definition beginsSeconds (bare : bool) (nm : jsstring) : bool :=
  secondsWord bare (trimStart (dropDigits nm)).

(** The captures a tail leaves: group 2 when there is a name. *)
Definition tailCaps (nm : jsstring) : captures :=
  match nm with [] => [] | _ :: _ => [(2, nm)] end.

Definition isMinutes (u : DurUnit) : Prop :=
  match u with UnitM | UnitMin => True | UnitS | UnitSec => False end.
Definition isSeconds (u : DurUnit) : Prop :=
  match u with UnitS | UnitSec => True | UnitM | UnitMin => False end.

(** The end of the pattern of [parseActivity]: the optional name, then the
    end of the text. *)
Definition finishMatch (whole : jsstring)
  : nat -> jsstring -> captures -> option captures :=
  fun pos s caps =>
    matchAt reName pos s caps
      (fun pos' s' caps' =>
         match s' with
         | [] => Some ((0, firstn (pos' - 0) whole) :: caps')
         | _ :: _ => None
         end).

(** *** The earlier variant *)

(** The beeps of a tick that leaves [r] seconds. *)
Definition beepsAt (r : Z) (notLastStep : bool) : list Earlier.Out :=
  (if (r <=? 3)%Z && (0 <? r)%Z then [Earlier.Beep 1000 150] else [])
  ++ (if (r =? 0)%Z && notLastStep then [Earlier.Beep 1500 250] else []).

Definition isLowBeep (o : Earlier.Out) : bool :=
  match o with
  | Earlier.Beep f d => (f =? 1000)%Z && (d =? 150)%Z
  | Earlier.Shown _ => false
  end.
Definition isHighBeep (o : Earlier.Out) : bool :=
  match o with
  | Earlier.Beep f d => (f =? 1500)%Z && (d =? 250)%Z
  | Earlier.Shown _ => false
  end.

(** How often the outputs [p] occur in the seconds spent in step [j]. *)
Definition countFor (p : Earlier.Out -> bool) (j : nat)
           (log : list (TimerState * list Earlier.Out)) : nat :=
  list_sum (map (fun en => if Nat.eqb (index (fst en)) j
                           then List.length (filter p (snd en)) else 0) log).

Definition eseconds (k : nat) (st : TimerState) := Earlier.run (repeat Second k) st.

(** The low beeps of a step that starts with [r] seconds, and its high
    beep. *)
Definition lowBeeps (r : Z) : nat := Z.to_nat (Z.min 3 (r - 1)).
Definition highBeeps (notLastStep : bool) (r : Z) : nat :=
  if notLastStep && (1 <=? r)%Z then 1 else 0.

(** The beeps the earlier variant gives step [j]: low beeps in its last
    three seconds, and a high beep at zero unless it is the last step. *)
Definition expectedLow (tl : list TimelineStep) (j : nat) : nat :=
  match nth_error tl j with
  | Some a => lowBeeps (entry (Nat.eqb j 0) a)
  | None => 0
  end.
Definition expectedHigh (tl : list TimelineStep) (j : nat) : nat :=
  match nth_error tl j with
  | Some a => highBeeps (S j <? List.length tl) (entry (Nat.eqb j 0) a)
  | None => 0
  end.

End Spec.
Import Spec.

(** * Properties *)

(** ** Flattening *)

Section FlattenFacts.

Variable repeat : num.
Variable steps : list Activity.

Lemma pushSteps_spec (r : Z) (tl : list TimelineStep) :
  pushSteps r repeat steps tl = tl ++ map (annotated r repeat) steps.
Proof.
  unfold pushSteps. revert tl.
  induction steps as [|s rest IH]; intros tl; simpl.
  - now rewrite app_nil_r.
  - rewrite IH. unfold push. now rewrite <- app_assoc.
Qed.

(** Once the counter has passed [repeat] the loop has ended, whatever fuel
    is left. *)
Lemma forLoop_done (fuel : nat) (r : Z) (tl : list TimelineStep) :
  nle (Fin r) repeat = false -> forLoop fuel r repeat steps tl = tl.
Proof. intros H. destruct fuel; cbn [forLoop]; [reflexivity | now rewrite H]. Qed.

Lemma forLoop_spec (R : Z) (n a : nat) (tl : list TimelineStep) :
  repeat = Fin R ->
  (Z.of_nat (a + n) <= R + 1)%Z ->
  forLoop n (Z.of_nat a) repeat steps tl
  = tl ++ flat_map (groupOf repeat steps) (seq a n).
Proof.
  intros HR. revert a tl.
  induction n as [|n IH]; intros a tl Hle; cbn [forLoop seq flat_map].
  - now rewrite app_nil_r.
  - assert (Hg : nle (Fin (Z.of_nat a)) repeat = true).
    { rewrite HR. simpl. apply Z.leb_le. lia. }
    rewrite Hg, pushSteps_spec.
    replace (Z.of_nat a + 1)%Z with (Z.of_nat (S a)) by lia.
    rewrite IH by lia. unfold groupOf at 2. now rewrite <- app_assoc.
Qed.

End FlattenFacts.

(** The fuel [iterations repeat] is enough: more fuel changes nothing. *)
Lemma forLoop_fuel (repeat : num) (steps : list Activity) (extra : nat)
      (tl : list TimelineStep) :
  forLoop (iterations repeat + extra) 1 repeat steps tl
  = forLoop (iterations repeat) 1 repeat steps tl.
Proof.
  destruct repeat as [R|]; simpl.
  2:{ destruct extra; reflexivity. }
  assert (G : forall n a t, (Z.of_nat (a + n) = Z.max R 0 + 1)%Z ->
            forLoop (n + extra) (Z.of_nat a) (Fin R) steps t
            = forLoop n (Z.of_nat a) (Fin R) steps t).
  { induction n as [|n IH]; intros a t Ha.
    - simpl. apply forLoop_done. simpl. apply Z.leb_gt. lia.
    - cbn [forLoop Nat.add nle].
      destruct (Z.of_nat a <=? R)%Z eqn:E; [|reflexivity].
      replace (Z.of_nat a + 1)%Z with (Z.of_nat (S a)) by lia.
      apply IH. lia. }
  apply (G (Z.to_nat R) 1%nat). lia.
Qed.


Lemma flattenBlock_spec (tl : list TimelineStep) (node : PlanNode) :
  flattenBlock tl node = tl ++ expandNode node.
Proof.
  destruct node as [fields | repeat steps]; simpl.
  - reflexivity.
  - destruct repeat as [R|]; simpl.
    + destruct (Z.to_nat R) as [|n] eqn:En.
      * simpl. now rewrite app_nil_r.
      * apply (forLoop_spec (R := R) steps (S n) 1 tl eq_refl). lia.
    + now rewrite app_nil_r.
Qed.

Lemma fold_flattenBlock (plan : list PlanNode) (tl : list TimelineStep) :
  fold_left flattenBlock plan tl = tl ++ flattenSpec plan.
Proof.
  revert tl. induction plan as [|node plan IH]; intros tl; simpl.
  - now rewrite app_nil_r.
  - rewrite IH, flattenBlock_spec. now rewrite <- app_assoc.
Qed.

Lemma length_groups (repeat : num) (steps : list Activity) (l : list nat) :
  List.length (flat_map (groupOf repeat steps) l)
  = List.length l * List.length steps.
Proof.
  induction l as [|r l IH]; simpl; [reflexivity|].
  rewrite length_app, IH. unfold groupOf. now rewrite length_map.
Qed.

Lemma length_expandNode (node : PlanNode) :
  List.length (expandNode node)
  = (if isActivityNode node then 1 else 0) + setSize node.
Proof.
  destruct node as [fields | repeat steps]; simpl; [reflexivity|].
  now rewrite length_groups, length_seq.
Qed.

(** C5. [flattenWorkout] turns every activity node into one step without
    interval annotation and every set node with repeat count [R] and steps
    [s1..sk] into the groups [r = 1..R] in this order, group [r] being
    [s1..sk] annotated with [interval = r] and [intervalTotal = R]; so the
    timeline has as many steps as there are plain activities plus the sum of
    [R * k] over the sets. *)
Theorem flattenWorkout_expansion (plan : list PlanNode) :
  flattenWorkout plan = flat_map expandNode plan
  /\ List.length (flattenWorkout plan) = activityCount plan + setTotal plan.
Proof.
  assert (E : flattenWorkout plan = flat_map expandNode plan).
  { unfold flattenWorkout. now rewrite fold_flattenBlock. }
  split; [exact E|]. rewrite E.
  unfold activityCount, setTotal.
  induction plan as [|node plan IH]; simpl; [reflexivity|].
  rewrite length_app, length_expandNode.
  assert (E' : flattenWorkout plan = flat_map expandNode plan).
  { unfold flattenWorkout. now rewrite fold_flattenBlock. }
  rewrite (IH E'). destruct (isActivityNode node); simpl; lia.
Qed.

(** Closed statements are settled by evaluation, one conjunct at a time. *)
Ltac conjuncts :=
  cbv zeta; repeat match goal with |- _ /\ _ => split end.

(** ** Parsing *)

Lemma filter_truthyNode (l : list PlanNode) : filter truthyNode l = l.
Proof. induction l as [|n l IH]; simpl; [reflexivity | now rewrite IH]. Qed.

(** Every non-blank line leaves exactly one node in the plan. *)
Lemma parseWorkout_length (text : jsstring) :
  List.length (parseWorkout text)
  = List.length (filter truthy (map trim (split (N_of_ascii "010") text))).
Proof. unfold parseWorkout. now rewrite filter_truthyNode, length_map. Qed.

(** A line that matches neither pattern becomes a node without fields. *)
Lemma parseLine_unparsed (line : jsstring) :
  match_ reSet line = None -> parseActivity line = None ->
  parseLine line = ActivityNode None.
Proof. intros Hs Ha. unfold parseLine. now rewrite Hs, Ha. Qed.

(** *** The patterns on strings of digits *)

Lemma digit_range c : isDigit c = true -> (48 <= c <= 57)%N.
Proof.
  unfold isDigit. intros H. apply andb_prop in H. destruct H as [H1 H2].
  apply N.leb_le in H1. apply N.leb_le in H2. lia.
Qed.

Lemma digit_not_space c : isDigit c = true -> isSpace c = false.
Proof.
  intros H. apply digit_range in H. unfold isSpace.
  repeat match goal with
  | |- context [(?a <=? ?b)%N] => destruct (N.leb_spec a b)
  | |- context [(?a =? ?b)%N] => destruct (N.eqb_spec a b)
  end; try lia; reflexivity.
Qed.

Lemma digit_not_letter c x :
  (96 < N_of_ascii x)%N -> isDigit c = true -> ci x c = false.
Proof.
  intros Hx H. apply digit_range in H. unfold ci.
  destruct (N.eqb_spec c (N_of_ascii x)); destruct (N.eqb_spec c (N_of_ascii x - 32)); try lia; reflexivity.
Qed.

Section Star.
Variable A : Type.
Variable p : N -> bool.

Lemma star_stop rest pos (k : nat -> jsstring -> option A) :
  stops p rest -> star p pos rest k = k pos rest.
Proof. destruct rest as [|c rest]; cbn; [reflexivity|]. now intros ->. Qed.

(** The longest run is tried first. *)
Lemma star_longest pre rest pos (k : nat -> jsstring -> option A) x :
  Forall (fun c => p c = true) pre -> stops p rest ->
  k (pos + List.length pre) rest = Some x ->
  star p pos (pre ++ rest) k = Some x.
Proof.
  intros Hpre Hrest. revert pos. induction Hpre as [|c pre Hc _ IH]; intros pos Hk.
  - cbn in *. rewrite Nat.add_0_r in Hk. now rewrite star_stop.
  - cbn [app star List.length]. rewrite Hc.
    rewrite (IH (S pos)); [reflexivity|].
    cbn [List.length] in Hk. now rewrite Nat.add_succ_comm.
Qed.

(** The star fails when the continuation fails after every run. *)
Lemma star_fails pre rest pos (k : nat -> jsstring -> option A) :
  Forall (fun c => p c = true) pre -> stops p rest ->
  (forall j, j <= List.length pre -> k (pos + j) (skipn j pre ++ rest) = None) ->
  star p pos (pre ++ rest) k = None.
Proof.
  intros Hpre Hrest. revert pos. induction Hpre as [|c pre Hc _ IH]; intros pos Hk.
  - cbn. rewrite star_stop by assumption. specialize (Hk 0 (Nat.le_refl _)).
    cbn in Hk. now rewrite Nat.add_0_r in Hk.
  - cbn [app star]. rewrite Hc. rewrite (IH (S pos)).
    + specialize (Hk 0 (Nat.le_0_l _)). cbn in Hk. now rewrite Nat.add_0_r in Hk.
    + intros j Hj. specialize (Hk (S j)). cbn [skipn List.length] in Hk.
      rewrite Nat.add_succ_comm. apply Hk. lia.
Qed.
End Star.

Lemma firstn_whole (l : jsstring) n : List.length l <= n -> firstn n l = l.
Proof. apply firstn_all2. Qed.

Lemma activity_match_seconds c ds :
  isDigit c = true -> allDigits ds ->
  match_ reActivity (c :: ds ++ str "s")
  = Some [(0, c :: ds ++ str "s"); (1, c :: ds ++ str "s")].
Proof.
  intros Hc Hds.
  unfold match_. cbn [search].
  unfold reActivity, Plus, kw. cbn [list_ascii_of_string word matchAt Nat.eqb].
  rewrite Hc.
  erewrite star_longest;
    [ | exact Hds | reflexivity | cbn -[firstn Nat.sub]; reflexivity ].
  rewrite !firstn_whole; try reflexivity;
    cbn [List.length]; rewrite length_app; cbn; lia.
Qed.

Lemma allDigits_skipn ds j : allDigits ds -> allDigits (skipn j ds).
Proof.
  revert ds. induction j as [|j IH]; intros ds H; cbn; [exact H|].
  destruct H as [|c ds Hc H]; [constructor | now apply IH].
Qed.

(** What follows a run of digits in [ds ++ "s"] is a digit or the [s]:
    neither white space nor an [m]. *)
Lemma digits_tail_head ds j :
  allDigits ds ->
  exists c0 rest0,
    skipn j ds ++ str "s" = c0 :: rest0
    /\ isSpace c0 = false /\ ci "m" c0 = false.
Proof.
  intros H. apply (allDigits_skipn j) in H.
  destruct H as [|c0 l Hc0 _].
  - exists 115%N, []. repeat split.
  - exists c0, (l ++ str "s"). repeat split.
    + now apply digit_not_space.
    + apply digit_not_letter; [vm_compute; reflexivity | assumption].
Qed.

Lemma min_fails_on_digits ds pos :
  allDigits ds -> search reMin pos (ds ++ str "s") = None.
Proof.
  intros Hds. revert pos. induction Hds as [|c ds Hc Hds IH]; intros pos.
  - vm_compute. reflexivity.
  - cbn [app search]. rewrite IH.
    unfold reMin, Plus, kw. cbn [list_ascii_of_string word matchAt].
    rewrite Hc.
    rewrite star_fails; [reflexivity | exact Hds | reflexivity | ].
    intros j Hj.
    destruct (digits_tail_head j Hds) as (c0 & rest0 & -> & Hsp & Hm).
    rewrite star_stop by exact Hsp. now rewrite Hm.
Qed.

Lemma firstn_prefix (l l' : jsstring) : firstn (List.length l) (l ++ l') = l.
Proof. induction l as [|x l IH]; cbn; [reflexivity | now rewrite IH]. Qed.

Lemma sec_match_seconds c ds :
  isDigit c = true -> allDigits ds ->
  match_ reSec (c :: ds ++ str "s")
  = Some [(0, c :: ds ++ str "s"); (2, str "s"); (1, c :: ds)].
Proof.
  intros Hc Hds.
  unfold match_. cbn [search].
  unfold reSec, Plus, kw. cbn [list_ascii_of_string word matchAt].
  rewrite Hc.
  erewrite star_longest;
    [ | exact Hds | reflexivity | cbn -[firstn Nat.sub]; reflexivity ].
  replace (S (S (List.length ds)) - S (List.length ds)) with 1 by lia.
  rewrite !Nat.sub_0_r.
  rewrite firstn_whole by (cbn [List.length]; rewrite length_app; cbn; lia).
  change (c :: ds ++ [115%N]) with ((c :: ds) ++ [115%N]).
  change (S (List.length ds)) with (List.length (c :: ds)).
  rewrite firstn_prefix. reflexivity.
Qed.

Lemma readDigits_decimal ds rest acc :
  allDigits ds ->
  match rest with [] => True | c :: _ => isDigit c = false end ->
  readDigits 10 decVal (Some acc) (ds ++ rest)
  = Some (fold_left (fun a c => (a * 10 + digitVal c)%Z) ds acc).
Proof.
  intros Hds Hrest. revert acc.
  induction Hds as [|c ds Hc _ IH]; intros acc.
  - cbn. destruct rest as [|c rest]; [reflexivity|].
    cbn. unfold decVal. now rewrite Hrest.
  - cbn [app readDigits fold_left]. unfold decVal at 1. rewrite Hc.
    apply IH.
Qed.

Lemma parseInt_digits c ds rest :
  isDigit c = true -> allDigits ds ->
  match rest with
  | [] => True
  | c' :: _ => isDigit c' = false /\ c' <> 120%N /\ c' <> 88%N
  end ->
  parseInt (c :: ds ++ rest) = Fin (decimal (c :: ds)).
Proof.
  intros Hc Hds Hrest.
  assert (Hr := @digit_range c Hc).
  unfold parseInt. cbn [trimStart]. rewrite (@digit_not_space c Hc).
  destruct (N.eqb_spec c 45); [lia|]. destruct (N.eqb_spec c 43); [lia|].
  assert (Hdec : readDigits 10 decVal None (c :: ds ++ rest)
                 = Some (decimal (c :: ds))).
  { cbn [readDigits]. unfold decVal at 1. rewrite Hc.
    rewrite readDigits_decimal; [|exact Hds|].
    - unfold decimal. cbn [fold_left]. reflexivity.
    - destruct rest; [exact I | apply Hrest]. }
  assert (Hnohex : forall c1 r, ds ++ rest = c1 :: r ->
            ((c1 =? 120) || (c1 =? 88))%N = false).
  { intros c1 r E. destruct Hds as [|d ds Hd _].
    - cbn in E. subst rest. destruct Hrest as (_ & H1 & H2).
      destruct (N.eqb_spec c1 120); destruct (N.eqb_spec c1 88);
        try congruence; reflexivity.
    - cbn in E. inversion E; subst. apply digit_range in Hd.
      destruct (N.eqb_spec c1 120); destruct (N.eqb_spec c1 88); try lia;
        reflexivity. }
  destruct (ds ++ rest) as [|c1 r] eqn:E.
  - rewrite Hdec. f_equal. lia.
  - rewrite (Hnohex c1 r eq_refl), andb_false_r. rewrite Hdec. f_equal. lia.
Qed.

Lemma trim_digits_s c ds :
  isDigit c = true -> trim (c :: ds ++ str "s") = c :: ds ++ str "s".
Proof.
  intros Hc. unfold trim, trimEnd. cbn [trimStart].
  rewrite (@digit_not_space c Hc).
  change (c :: ds ++ str "s") with ((c :: ds) ++ [115%N]).
  rewrite rev_unit. cbn [trimStart].
  change (isSpace 115) with false. cbv iota.
  change (rev (115%N :: rev (c :: ds)))
    with (rev (rev (c :: ds)) ++ [115%N]).
  now rewrite rev_involutive.
Qed.

Lemma parseDuration_seconds c ds :
  isDigit c = true -> allDigits ds ->
  parseDuration (c :: ds ++ str "s") = Fin (decimal (c :: ds)).
Proof.
  intros Hc Hds. unfold parseDuration.
  assert (Hmin : match_ reMin (c :: ds ++ str "s") = None).
  { unfold match_. apply (@min_fails_on_digits (c :: ds) 0).
    now constructor. }
  rewrite Hmin, (@sec_match_seconds c ds Hc Hds).
  cbn [joinGroups capture Nat.eqb].
  rewrite <- app_comm_cons, <- app_assoc.
  rewrite (@parseInt_digits c ds _ Hc Hds).
  - reflexivity.
  - cbn. repeat split; discriminate.
Qed.

(** A run of digits followed by [s] is an unnamed activity of that many
    seconds. *)
Lemma parseActivity_seconds c ds :
  isDigit c = true -> allDigits ds ->
  parseActivity (c :: ds ++ str "s")
  = Some {| name := []; duration := Fin (decimal (c :: ds)) |}.
Proof.
  intros Hc Hds. unfold parseActivity.
  rewrite (@trim_digits_s c ds Hc), (@activity_match_seconds c ds Hc Hds).
  cbn [capture Nat.eqb group].
  now rewrite (@parseDuration_seconds c ds Hc Hds).
Qed.

(** What follows a run of digits in [ds ++ "m s"] is a digit or the [m]:
    neither white space nor an [s]. *)
Lemma digits_tail_head_m ds j :
  allDigits ds ->
  exists c0 rest0,
    skipn j ds ++ str "m s" = c0 :: rest0
    /\ isSpace c0 = false /\ ci "s" c0 = false.
Proof.
  intros H. apply (allDigits_skipn j) in H.
  destruct H as [|c0 l Hc0 _].
  - exists 109%N, (str " s"). repeat split.
  - exists c0, (l ++ str "m s"). repeat split.
    + now apply digit_not_space.
    + apply digit_not_letter; [vm_compute; reflexivity | assumption].
Qed.

Lemma sec_fails_on_minutes ds pos :
  allDigits ds -> search reSec pos (ds ++ str "m s") = None.
Proof.
  intros Hds. revert pos. induction Hds as [|c ds Hc Hds IH]; intros pos.
  - reflexivity.
  - cbn [app search]. rewrite IH.
    unfold reSec, Plus, kw. cbn [list_ascii_of_string word matchAt].
    rewrite Hc.
    rewrite star_fails; [reflexivity | exact Hds | reflexivity | ].
    intros j Hj.
    destruct (digits_tail_head_m j Hds) as (c0 & rest0 & -> & Hsp & Hm).
    rewrite star_stop by exact Hsp. now rewrite Hm.
Qed.

Lemma firstn_past (c : N) (ds t : jsstring) (k : nat) :
  firstn (S (List.length ds + k)) (c :: ds ++ t) = c :: ds ++ firstn k t.
Proof.
  cbn [firstn]. f_equal. induction ds as [|d ds IH]; cbn; [reflexivity|].
  now rewrite IH.
Qed.

Lemma min_match_minutes c ds :
  isDigit c = true -> allDigits ds ->
  match_ reMin (c :: ds ++ str "m s")
  = Some [(0, c :: ds ++ str "m"); (2, str "m"); (1, c :: ds)].
Proof.
  intros Hc Hds.
  unfold match_. cbn [search].
  unfold reMin, Plus, kw. cbn [list_ascii_of_string word matchAt].
  rewrite Hc.
  erewrite star_longest;
    [ | exact Hds | reflexivity | cbn -[firstn Nat.sub]; reflexivity ].
  replace (S (S (List.length ds)) - S (List.length ds)) with 1 by lia.
  rewrite !Nat.sub_0_r.
  replace (S (S (List.length ds))) with (S (List.length ds + 1)) by lia.
  rewrite firstn_past.
  replace (S (List.length ds)) with (S (List.length ds + 0)) by lia.
  rewrite firstn_past. cbn [firstn]. now rewrite app_nil_r.
Qed.

Lemma activity_match_minutes_s c ds :
  isDigit c = true -> allDigits ds ->
  match_ reActivity (c :: ds ++ str "m s")
  = Some [(0, c :: ds ++ str "m s"); (1, c :: ds ++ str "m s")].
Proof.
  intros Hc Hds.
  unfold match_. cbn [search].
  unfold reActivity, Plus, kw. cbn [list_ascii_of_string word matchAt Nat.eqb].
  rewrite Hc.
  erewrite star_longest;
    [ | exact Hds | reflexivity | cbn -[firstn Nat.sub]; reflexivity ].
  rewrite !firstn_whole; try reflexivity;
    cbn [List.length]; rewrite length_app; cbn; lia.
Qed.

Lemma trim_digits_m_s c ds :
  isDigit c = true -> trim (c :: ds ++ str "m s") = c :: ds ++ str "m s".
Proof.
  intros Hc. unfold trim, trimEnd. cbn [trimStart].
  rewrite (@digit_not_space c Hc).
  replace (c :: ds ++ str "m s") with ((c :: ds ++ str "m ") ++ [115%N])
    by (cbn; now rewrite <- app_assoc).
  rewrite rev_unit. cbn [trimStart].
  change (isSpace 115) with false. cbv iota.
  change (rev (115%N :: rev (c :: ds ++ str "m ")))
    with (rev (rev (c :: ds ++ str "m ")) ++ [115%N]).
  now rewrite rev_involutive.
Qed.

(** The defect of C7 for every number of minutes: in "<digits>m s" the word
    after the duration is taken into the duration, where it counts for
    nothing, and the name is empty. *)
Lemma parseActivity_minutes_s c ds :
  isDigit c = true -> allDigits ds ->
  parseActivity (c :: ds ++ str "m s")
  = Some {| name := []; duration := Fin (decimal (c :: ds) * 60) |}.
Proof.
  intros Hc Hds. unfold parseActivity.
  rewrite (@trim_digits_m_s c ds Hc), (@activity_match_minutes_s c ds Hc Hds).
  cbn [capture Nat.eqb group]. unfold parseDuration.
  assert (Hsec : match_ reSec (c :: ds ++ str "m s") = None).
  { unfold match_. apply (@sec_fails_on_minutes (c :: ds) 0).
    now constructor. }
  rewrite Hsec, (@min_match_minutes c ds Hc Hds).
  cbn [joinGroups capture Nat.eqb].
  rewrite <- app_comm_cons, <- app_assoc.
  rewrite (@parseInt_digits c ds _ Hc Hds).
  - reflexivity.
  - cbn. repeat split; discriminate.
Qed.

(** The workout of the specification: one activity and one set, flattened to
    seven steps of 570 seconds in all, the set in repetition-major order. *)
Example parse_walk_and_set :
  let plan := parseWorkout (str "5min walk
3x(1min run, 30s rest)") in
  let run := {| name := str "run"; duration := Fin 60 |} in
  let rest := {| name := str "rest"; duration := Fin 30 |} in
  plan = [ActivityNode (Some {| name := str "walk"; duration := Fin 300 |});
          SetNode (Fin 3) [run; rest]]
  /\ flattenWorkout plan
     = [plainStep (Some {| name := str "walk"; duration := Fin 300 |});
        annotated 1 (Fin 3) run; annotated 1 (Fin 3) rest;
        annotated 2 (Fin 3) run; annotated 2 (Fin 3) rest;
        annotated 3 (Fin 3) run; annotated 3 (Fin 3) rest]
  /\ totalDuration (flattenWorkout plan) = 570%Z.
Proof. conjuncts; vm_compute; reflexivity. Qed.

(** An item of a set that does not parse is dropped, and so is a blank
    line. *)
Example parse_set_with_bad_item :
  parseWorkout (str "2x(jump, 20s plank)

") = [SetNode (Fin 2) [{| name := str "plank"; duration := Fin 20 |}]].
Proof. vm_compute. reflexivity. Qed.

(** C3. The line "hello" matches neither the set pattern nor the activity
    pattern, yet [parseWorkout] keeps a node for it (an activity without name
    and duration: the final [filter(Boolean)] sees an object), and the
    flattened timeline has one step. *)
Theorem unparseable_line_is_kept :
  match_ reSet (str "hello") = None
  /\ parseActivity (str "hello") = None
  /\ parseWorkout (str "hello") = [ActivityNode None]
  /\ flattenWorkout (parseWorkout (str "hello")) = [plainStep None].
Proof. conjuncts; vm_compute; reflexivity. Qed.

(** C7. "45s" parses to an unnamed activity of 45 seconds, and minutes and
    seconds add up whatever the letter case; but in "5m s" the text after
    the duration is taken for a seconds part without digits, so the name is
    empty and not "s". *)
Theorem parseActivity_45s_and_absorbed_name :
  parseActivity (str "45s") = Some {| name := []; duration := Fin 45 |}
  /\ parseActivity (str "2MIN 5Sec Jog")
     = Some {| name := str "Jog"; duration := Fin 125 |}
  /\ parseActivity (str "5m s") = Some {| name := []; duration := Fin 300 |}.
Proof.
  conjuncts.
  - apply (@parseActivity_seconds 52%N [53%N]); [reflexivity|].
    now repeat constructor.
  - vm_compute. reflexivity.
  - apply (@parseActivity_minutes_s 53%N []); [reflexivity | constructor].
Qed.

(** ** The timer: single operations *)

Ltac msimpl :=
  cbn -[nth_error Z.max Z.sub Z.add Z.ltb Z.leb Z.eqb Z.to_nat Z.of_nat skipn
        sumFrom filter Nat.leb Nat.eqb List.length].

Ltac unfold_m :=
  unfold bind, ret, get, modify, emit, throw, callback in *.

(** [start] on an input without steps stores the empty timeline and does
    nothing else. *)
Lemma start_empty (input : jsstring) (st : TimerState) :
  flattenWorkout (parseWorkout input) = [] ->
  start input st
  = {| value := Some tt; state := set_timeline [] st; events := [] |}.
Proof.
  intros H. unfold start. unfold_m. cbn. rewrite H. reflexivity.
Qed.

(** C4. While the workout "10s a" runs, [start] on the empty input (whose
    timeline is empty) emits nothing and leaves the timer running, but it has
    already replaced the stored timeline by the empty one. *)
Theorem start_empty_replaces_timeline :
  let st1 := state (start (str "10s a") initial) in
  let r := start (str "") st1 in
  flattenWorkout (parseWorkout (str "")) = []
  /\ timeline st1
     = [plainStep (Some {| name := str "a"; duration := Fin 10 |})]
  /\ isRunning st1 = true
  /\ events r = []
  /\ timeline (state r) = []
  /\ isRunning (state r) = true
  /\ index (state r) = index st1
  /\ remaining (state r) = remaining st1.
Proof. conjuncts; vm_compute; reflexivity. Qed.

(** C8. Pressing start on "10s a" and then, while it runs, on the empty
    input leaves the timer running over an empty timeline: [index] is not a
    valid index any more, and the next tick ends in a TypeError. *)
Theorem empty_restart_breaks_index :
  let st2 := fst (run [ClickStart (str "10s a"); ClickStart (str "")] initial) in
  isRunning st2 = true
  /\ timeline st2 = []
  /\ nth_error (timeline st2) (index st2) = None
  /\ ~ inRange st2
  /\ events (step Second st2) = [ClockText (Fin 9); Uncaught].
Proof.
  intros st2.
  assert (E : nth_error (timeline st2) (index st2) = None)
    by (vm_compute; reflexivity).
  conjuncts; try (vm_compute; reflexivity).
  intros (cur & d & r & H & _). rewrite E in H. discriminate.
Qed.

Lemma filter_none {A} (f : A -> bool) (l : list A) :
  (forall x, In x l -> f x = false) -> filter f l = [].
Proof.
  induction l as [|x l IH]; intros H; simpl; [reflexivity|].
  rewrite (H x (or_introl eq_refl)). apply IH. intros y Hy. apply H. now right.
Qed.

(** Stopping from a state whose live timers are the ones the program holds
    cancels every timer and leaves the timer neither running nor paused. *)
Lemma stop_owned (st : TimerState) :
  owned st ->
  value (stop st) = Some tt
  /\ timers (state (stop st)) = []
  /\ isRunning (state (stop st)) = false
  /\ isPaused (state (stop st)) = false.
Proof.
  destruct st as [tl i r e iid sid rn pa tms nid]. unfold owned.
  cbn [timers intervalId sampleTimeoutId tid].
  intros H. unfold stop, clearSampleTimeout, clearTimer, updateControls.
  unfold_m.
  destruct iid as [a|]; destruct sid as [b|]; cbn.
  all: repeat split; try reflexivity.
  - apply filter_none. intros t Ht. apply filter_In in Ht.
    destruct Ht as [Ht Hn].
    destruct (H t Ht) as [E|E]; inversion E; subst.
    + rewrite Nat.eqb_refl in Hn. discriminate.
    + now rewrite Nat.eqb_refl.
  - apply filter_none. intros t Ht.
    destruct (H t Ht) as [E|E]; inversion E; subst. now rewrite Nat.eqb_refl.
  - apply filter_none. intros t Ht.
    destruct (H t Ht) as [E|E]; inversion E; subst. now rewrite Nat.eqb_refl.
  - destruct tms as [|t ?]; [reflexivity|].
    destruct (H t (or_introl eq_refl)); discriminate.
Qed.

(** C9, as the program has it.  From any state whose live timers are the
    ones the program holds, [stop] cancels every timer, leaves the timer
    neither running nor paused, writes the reset texts ("00:00", "ready",
    "0:00", the last being what [format] prints for 0) and updates the
    buttons; [timeline], [index], [remaining] and [elapsed] keep their
    values. *)
Theorem stop_spec (st : TimerState) :
  owned st ->
  let r := stop st in
  value r = Some tt
  /\ timers (state r) = []
  /\ isRunning (state r) = false /\ isPaused (state r) = false
  /\ timeline (state r) = timeline st /\ index (state r) = index st
  /\ remaining (state r) = remaining st /\ elapsed (state r) = elapsed st
  /\ events r
     = [Screen "00:00" "ready" "" "0:00" "0:00"; Controls false false]
  /\ format (Fin 0) = "0:00"%string.
Proof.
  intros H. cbv zeta.
  destruct (@stop_owned st H) as (Hv & Ht & Hr & Hp).
  repeat (split; [assumption|]).
  clear. destruct st as [tl i r e iid sid rn pa tms nid].
  unfold stop, clearSampleTimeout, clearTimer, updateControls. unfold_m.
  destruct iid as [a|]; destruct sid as [b|]; cbn; repeat split; reflexivity.
Qed.

Lemma stop_spec_witness :
  let st := fst (run [ClickStart (str "10s a"); Second] initial) in
  let r := stop st in
  value r = Some tt
  /\ timers (state r) = []
  /\ isRunning (state r) = false /\ isPaused (state r) = false
  /\ timeline (state r) = timeline st /\ index (state r) = index st
  /\ remaining (state r) = remaining st /\ elapsed (state r) = elapsed st
  /\ events r
     = [Screen "00:00" "ready" "" "0:00" "0:00"; Controls false false]
  /\ format (Fin 0) = "0:00"%string.
Proof.
  apply (@stop_spec (fst (run [ClickStart (str "10s a"); Second] initial))).
  assert (E : timers (fst (run [ClickStart (str "10s a"); Second] initial))
              = [tickTimer 1]) by (vm_compute; reflexivity).
  assert (E1 : intervalId (fst (run [ClickStart (str "10s a"); Second] initial))
               = Some 1) by (vm_compute; reflexivity).
  unfold owned. rewrite E, E1.
  intros t [<-|[]]. left. reflexivity.
Defined.

(** C9 as stated fails: one second into "10s a", [stop] leaves
    [remaining = 9], [elapsed = 1] and the timeline in place, so the program
    variables are not reset. *)
Lemma stop_does_not_reset :
  let st := fst (run [ClickStart (str "10s a"); Second] initial) in
  remaining (state (stop st)) = Fin 9
  /\ elapsed (state (stop st)) = 1%Z
  /\ ~ isReset (state (stop st)).
Proof.
  intros st.
  assert (E : remaining (state (stop st)) = Fin 9) by (vm_compute; reflexivity).
  conjuncts; try (vm_compute; reflexivity).
  intros (_ & _ & H & _). rewrite E in H. discriminate.
Qed.

(** C6. When [next] moves on to a step of duration [d > 0], what it shows
    first is a snapshot with [d - 1] seconds on the clock (and [remaining]
    is [d - 1]); nothing else is shown in that call. *)
Theorem next_first_snapshot (st : TimerState) (cur : TimelineStep) (d : Z) :
  nth_error (timeline st) (S (index st)) = Some cur ->
  stepDuration cur = Fin d -> (0 < d)%Z ->
  exists nm iv tot rest,
    events (next st) = Snapshot (Fin (d - 1)) nm iv (elapsed st) tot :: rest
    /\ Forall (fun e => e = PlaySample) rest
    /\ index (state (next st)) = S (index st)
    /\ remaining (state (next st)) = Fin (d - 1)
    /\ Fin (d - 1) <> Fin d.
Proof.
  destruct st as [tl i r e iid sid rn pa tms nid].
  cbn [timeline index elapsed].
  intros Hc Hd Hpos.
  assert (Hlen : (List.length tl <=? S i) = false).
  { apply Nat.leb_gt. apply nth_error_Some. congruence. }
  unfold next. unfold_m. msimpl. rewrite Hlen.
  unfold startActivity, clearSampleTimeout, clearTimer, updateUI,
    setInterval, scheduleSample, setTimeout, playSample.
  unfold_m.
  destruct iid as [a|]; destruct sid as [b|]; msimpl; rewrite Hc; msimpl;
    rewrite ?Hc, Hd; msimpl.
  all: replace (Z.max 0 (d - 1)) with (d - 1)%Z by lia.
  all: unfold notLast, ngt, neq; msimpl.
  all: repeat match goal with
       | |- context [if ?c then _ else _] => destruct c eqn:?; msimpl
       end.
  all: do 4 eexists; repeat split; try reflexivity; repeat constructor.
  all: intros E; inversion E; lia.
Qed.

Lemma next_first_snapshot_witness :
  let st := fst (run (ClickStart (str "2s a
10s b") :: repeat Second 2) initial) in
  exists nm iv tot rest,
    events (next st) = Snapshot (Fin (10 - 1)) nm iv (elapsed st) tot :: rest
    /\ Forall (fun e => e = PlaySample) rest
    /\ index (state (next st)) = S (index st)
    /\ remaining (state (next st)) = Fin (10 - 1)
    /\ Fin (10 - 1) <> Fin 10.
Proof.
  apply (@next_first_snapshot
           (fst (run (ClickStart (str "2s a
10s b") :: repeat Second 2) initial))
           (plainStep (Some {| name := str "b"; duration := Fin 10 |})) 10).
  - vm_compute. reflexivity.
  - reflexivity.
  - lia.
Defined.

(** [pause] followed at once by [resume] keeps [remaining] and [elapsed]. *)
Lemma pause_resume_keeps_time (st : TimerState) :
  let r := (pause ;; resume) st in
  value r = Some tt
  /\ remaining (state r) = remaining st /\ elapsed (state r) = elapsed st
  /\ index (state r) = index st /\ timeline (state r) = timeline st.
Proof.
  destruct st as [tl i r e iid sid rn pa tms nid].
  unfold pause, resume, clearSampleTimeout, scheduleSample, clearTimer,
    updateControls, setInterval, setTimeout, playSample, notLast.
  unfold_m.
  destruct iid as [a|]; destruct sid as [b|]; msimpl.
  all: repeat match goal with
       | |- context [if ?c then _ else _] => destruct c eqn:?; msimpl
       end.
  all: repeat split; reflexivity.
Qed.


(** ** The timer: a run left alone *)

Ltac mcbv :=
  cbv beta iota zeta delta
    [bind ret get modify emit throw callback
     set_timeline set_index set_remaining set_elapsed set_intervalId
     set_sampleTimeoutId set_isRunning set_isPaused set_timers set_nextId
     timeline index remaining elapsed intervalId sampleTimeoutId isRunning
     isPaused timers nextId value state events tid kind due
     forEach fire live isDue second tick next finish startActivity
     scheduleSample clearSampleTimeout clearTimer setInterval setTimeout
     updateUI updateControls playSample pulseClock notLast cueDelay
     start pause resume stop clickStart clickPause clickStop step
     existsb filter map negb app option_map fst snd orb andb
     runningAt tickTimer cueTimers shown afterCountdown
     nle ngt neq nsub nmax nadd].

Ltac mcbv0 :=
  cbv beta iota zeta delta
    [bind ret get modify emit throw callback
     set_timeline set_index set_remaining set_elapsed set_intervalId
     set_sampleTimeoutId set_isRunning set_isPaused set_timers set_nextId
     timeline index remaining elapsed intervalId sampleTimeoutId isRunning
     isPaused timers nextId value state events tid kind due
     tick next finish startActivity
     scheduleSample clearSampleTimeout clearTimer setInterval setTimeout
     updateUI updateControls playSample pulseClock notLast cueDelay
     start pause resume stop clickStart clickPause clickStop
     negb option_map fst snd orb andb
     runningAt tickTimer cueTimers shown
     nle ngt neq nsub nmax nadd].

Lemma second_countdown tl i r e a c n cur :
  (0 < r)%Z -> nth_error tl i = Some cur ->
  (forall b d, c = Some (b, d) -> b <> a) ->
  second (runningAt tl i r e a c n)
  = {| value := Some tt;
       state := runningAt tl i (r - 1) (e + 1) a (fst (afterCountdown c)) n;
       events := shown (runningAt tl i (r - 1) (e + 1) a c n) cur :: Pulse
                 :: snd (afterCountdown c) |}.
Proof.
  intros Hr Hc Hab.
  assert (Hr0 : (r <=? 0)%Z = false) by (apply Z.leb_gt; lia).
  destruct c as [[b d]|].
  - assert (Hba : Nat.eqb b a = false) by (apply Nat.eqb_neq; eauto).
    assert (Hab' : Nat.eqb a b = false) by (rewrite Nat.eqb_sym; exact Hba).
    mcbv. change (1 <=? 1) with true.
    destruct (d <=? 1) eqn:Ed;
      repeat (mcbv; rewrite ?Nat.eqb_refl, ?Hr0, ?Hc, ?Hba, ?Hab').
    all: reflexivity.
  - mcbv. change (1 <=? 1) with true.
    repeat (mcbv; rewrite ?Nat.eqb_refl, ?Hr0, ?Hc). reflexivity.
Qed.


Lemma second_advance tl i r e a n cur :
  (r <= 0)%Z -> nth_error tl (S i) = Some cur ->
  stepDuration cur = Fin (dur cur) ->
  second (runningAt tl i r e a None n)
  = {| value := Some tt;
       state := enteredAt tl (S i) (entry false cur) e n;
       events := shown (enteredAt tl (S i) (entry false cur) e n) cur
                 :: entryPlay (cueMode tl (S i) (entry false cur)) |}.
Proof.
  intros Hr Hc Hd.
  assert (Hr0 : (r <=? 0)%Z = true) by (apply Z.leb_le; lia).
  assert (Hlen : (List.length tl <=? S i) = false).
  { apply Nat.leb_gt. apply nth_error_Some. congruence. }
  unfold enteredAt, cueMode, entry. set (r' := Z.max 0 (dur cur - 1)).
  destruct (Z.of_nat (S i) <? Z.of_nat (List.length tl) - 1)%Z eqn:El;
    [destruct (3 <? r')%Z eqn:E3; [|destruct (r' =? 3)%Z eqn:E3']|];
    mcbv; change (1 <=? 1) with true;
    repeat (mcbv; rewrite ?Nat.eqb_refl, ?Hr0, ?Hc, ?Hlen, ?Hd, ?El;
            fold r'; rewrite ?E3, ?E3').
  all: reflexivity.
Qed.

Lemma second_finish tl i r e a n :
  (r <= 0)%Z -> List.length tl = S i ->
  second (runningAt tl i r e a None n)
  = {| value := Some tt;
       state := finishedAt tl (S i) r e a n;
       events := [Done "🎉" "done"; Controls false false] |}.
Proof.
  intros Hr Hl.
  assert (Hr0 : (r <=? 0)%Z = true) by (apply Z.leb_le; lia).
  assert (Hlen : (List.length tl <=? S i) = true).
  { apply Nat.leb_le. lia. }
  mcbv; change (1 <=? 1) with true;
    repeat (mcbv; rewrite ?Nat.eqb_refl, ?Hr0, ?Hlen).
  reflexivity.
Qed.

(** Clearing the two handles of the program empties an owned timer table. *)
Lemma owned_cleared (iid sid : option nat) (tms : list BrowserTimer) :
  (forall t, In t tms -> iid = Some (tid t) \/ sid = Some (tid t)) ->
  match sid with
  | Some b => filter (fun t => negb (Nat.eqb (tid t) b))
  | None => fun l => l
  end (match iid with
       | Some a => filter (fun t => negb (Nat.eqb (tid t) a))
       | None => fun l => l
       end tms) = [].
Proof.
  intros H. destruct iid as [a|]; destruct sid as [b|].
  - apply filter_none. intros t Ht. apply filter_In in Ht. destruct Ht as [Ht Hn].
    destruct (H t Ht) as [E|E]; inversion E; subst.
    + rewrite Nat.eqb_refl in Hn. discriminate.
    + now rewrite Nat.eqb_refl.
  - apply filter_none. intros t Ht.
    destruct (H t Ht) as [E|E]; inversion E; subst. now rewrite Nat.eqb_refl.
  - apply filter_none. intros t Ht.
    destruct (H t Ht) as [E|E]; inversion E; subst. now rewrite Nat.eqb_refl.
  - destruct tms as [|t ?]; [reflexivity|].
    destruct (H t (or_introl eq_refl)); discriminate.
Qed.

Lemma startActivity_owned st sub cur :
  owned st -> nth_error (timeline st) (index st) = Some cur ->
  stepDuration cur = Fin (dur cur) ->
  isRunning st = true -> isPaused st = false ->
  let r := entry (negb sub) cur in
  startActivity sub st
  = {| value := Some tt;
       state := enteredAt (timeline st) (index st) r (elapsed st) (nextId st);
       events := shown (enteredAt (timeline st) (index st) r (elapsed st) (nextId st)) cur
                 :: entryPlay (cueMode (timeline st) (index st) r) |}.
Proof.
  destruct st as [tl i r0 e iid sid rn pa tms nid]. unfold owned.
  cbn [timers intervalId sampleTimeoutId timeline index isRunning isPaused elapsed nextId].
  intros Ho Hc Hd -> ->.
  assert (Hcl := @owned_cleared iid sid tms Ho).
  unfold enteredAt, cueMode, entry.
  destruct sub; cbn [negb];
  match goal with |- context [Z.max 0 ?x] => set (r := Z.max 0 x) end;
  (destruct (Z.of_nat i <? Z.of_nat (List.length tl) - 1)%Z eqn:El;
    [destruct (3 <? r)%Z eqn:E3; [|destruct (r =? 3)%Z eqn:E3']|]);
    destruct iid as [a|]; destruct sid as [b|]; cbn beta iota in Hcl;
    (cbv beta iota zeta delta [negb tid] in Hcl);
    unfold startActivity, clearSampleTimeout, clearTimer.
  all: repeat (mcbv0; rewrite ?Hc, ?Hcl, ?Hd; mcbv0; fold r;
               rewrite ?El, ?E3, ?E3'; cbn [app]).
  all: reflexivity.
Qed.

Lemma start_spec input st0 tl cur :
  flattenWorkout (parseWorkout input) = tl ->
  nth_error tl 0 = Some cur -> stepDuration cur = Fin (dur cur) ->
  owned st0 ->
  start input st0
  = {| value := Some tt;
       state := enteredAt tl 0 (entry true cur) 0 (nextId st0);
       events := shown (enteredAt tl 0 (entry true cur) 0 (nextId st0)) cur
                 :: entryPlay (cueMode tl 0 (entry true cur))
                 ++ [Controls true false] |}.
Proof.
  intros Htl Hc Hd Ho.
  destruct st0 as [tl0 i r0 e iid sid rn pa tms nid].
  assert (Hlen : (List.length tl =? 0) = false).
  { destruct tl; [discriminate|reflexivity]. }
  unfold start.
  cbv beta iota zeta delta
    [bind ret get modify set_timeline set_index set_elapsed set_isRunning
     set_isPaused timeline index remaining elapsed intervalId sampleTimeoutId
     isRunning isPaused timers nextId].
  rewrite Htl, Hlen.
  rewrite (@startActivity_owned _ false cur); try assumption; reflexivity.
Qed.

Lemma seconds_S k st :
  seconds (S k) st
  = (fst (seconds k (state (second st))),
     (state (second st), events (second st))
       :: snd (seconds k (state (second st)))).
Proof.
  unfold seconds. cbn [repeat run step].
  destruct (run (repeat Second k) (state (second st))); reflexivity.
Qed.

Lemma seconds_add k1 k2 st :
  seconds (k1 + k2) st
  = (fst (seconds k2 (fst (seconds k1 st))),
     snd (seconds k1 st) ++ snd (seconds k2 (fst (seconds k1 st)))).
Proof.
  revert st. induction k1 as [|k1 IH]; intros st.
  - unfold seconds. cbn. destruct (run (repeat Second k2) st); reflexivity.
  - cbn [Nat.add]. rewrite !seconds_S, IH. reflexivity.
Qed.

Lemma totalCues_cons en log :
  totalCues (en :: log) = cueCount (snd en) + totalCues log.
Proof. reflexivity. Qed.

Lemma countdown_run tl i cur a n :
  nth_error tl i = Some cur ->
  forall m r e c, r = Z.of_nat m -> cueOk r a c ->
  let res := seconds m (runningAt tl i r e a c n) in
  fst res = runningAt tl i 0 (e + r) a None n
  /\ Forall (within i) (snd res)
  /\ totalCues (snd res) = cuePending c
  /\ cuesAtThree (snd res)
  /\ chain (runningAt tl i r e a c n) (snd res).
Proof.
  intros Hc. induction m as [|m IH]; intros r e c Hr Hok.
  - subst r. cbn. destruct c as [[b d]|].
    + destruct Hok as (H3 & _). lia.
    + replace (e + 0)%Z with e by lia.
      repeat split; constructor.
  - cbv zeta. rewrite seconds_S.
    assert (Hab : forall b d, c = Some (b, d) -> b <> a).
    { intros b d ->. apply Hok. }
    rewrite (@second_countdown tl i r e a c n cur) by (lia || assumption).
    cbn [state events fst snd].
    assert (Hok' : cueOk (r - 1) a (fst (afterCountdown c))).
    { destruct c as [[b d]|]; cbn; [|exact I].
      destruct Hok as (H3 & Hd & Hn).
      destruct (Nat.leb_spec d 1); cbn; [exact I|].
      repeat split; try assumption; lia. }
    destruct (IH (r - 1)%Z (e + 1)%Z (fst (afterCountdown c)) ltac:(lia) Hok')
      as (Hst & Hw & Hcues & H3 & Hch).
    repeat split.
    + rewrite Hst. f_equal; lia.
    + constructor; [|exact Hw].
      repeat split. destruct c as [[b d]|]; cbn; [destruct (d <=? 1)|]; reflexivity.
    + rewrite totalCues_cons, Hcues. cbn [snd].
      destruct c as [[b d]|]; cbn; [|reflexivity].
      destruct (d <=? 1); reflexivity.
    + constructor; [|exact H3]. cbn [fst snd].
      destruct c as [[b d]|]; cbn; [|congruence].
      destruct Hok as (H3' & Hd & Hn).
      destruct (Nat.leb_spec d 1); cbn; [|congruence].
      intros _. f_equal. lia.
    + left. split; [reflexivity|]. exists r, (r - 1)%Z. cbn. repeat split. lia.
    + exact Hch.
Qed.

Lemma seconds_end k st : endOf st (snd (seconds k st)) = fst (seconds k st).
Proof.
  revert st. induction k as [|k IH]; intros st; [reflexivity|].
  rewrite seconds_S. cbn [fst snd endOf]. apply IH.
Qed.

Lemma chain_app st l1 l2 :
  chain st l1 -> chain (endOf st l1) l2 -> chain st (l1 ++ l2).
Proof.
  revert st. induction l1 as [|en l1 IH]; intros st H1 H2; [exact H2|].
  destruct H1 as [Hp H1]. split; [exact Hp|]. now apply IH.
Qed.

Lemma cuesFor_app j l1 l2 : cuesFor j (l1 ++ l2) = cuesFor j l1 + cuesFor j l2.
Proof.
  unfold cuesFor. rewrite map_app. apply list_sum_app.
Qed.

Lemma cuesFor_cons j en log :
  cuesFor j (en :: log)
  = (if Nat.eqb (index (fst en)) j then cueCount (snd en) else 0)
    + cuesFor j log.
Proof. reflexivity. Qed.

Lemma cuesFor_within i j log :
  Forall (within i) log ->
  cuesFor j log = if Nat.eqb i j then totalCues log else 0.
Proof.
  induction 1 as [|en log (Hi & _) _ IH].
  - now destruct (Nat.eqb i j).
  - rewrite cuesFor_cons, IH, Hi, totalCues_cons.
    destruct (Nat.eqb i j); reflexivity.
Qed.

Lemma runsThenFinishes_app i l1 l2 :
  Forall (within i) l1 -> runsThenFinishes l2 -> runsThenFinishes (l1 ++ l2).
Proof.
  induction 1 as [|en l1 (_ & Hr & Hd) _ IH]; intros H2; [exact H2|].
  cbn [app runsThenFinishes].
  destruct (l1 ++ l2) eqn:E.
  - destruct l1; [|discriminate]. cbn in E. subst. destruct H2.
  - repeat split; try assumption. now apply IH.
Qed.

Lemma expectedCues_entered tl i cur n :
  nth_error tl i = Some cur ->
  let r := entry (Nat.eqb i 0) cur in
  cueCount (entryPlay (cueMode tl i r))
  + cuePending (entrySched (cueMode tl i r) r n)
  = expectedCues tl i.
Proof.
  intros Hc. unfold expectedCues, cueMode. rewrite Hc.
  set (r := entry (Nat.eqb i 0) cur). cbv zeta.
  destruct (Z.ltb_spec (Z.of_nat i) (Z.of_nat (List.length tl) - 1));
    destruct (Nat.ltb_spec (S i) (List.length tl)); try lia; cbn [andb].
  - destruct (Z.ltb_spec 3 r); destruct (Z.leb_spec 3 r); try lia; cbn;
      try reflexivity.
    + destruct (Z.eqb_spec r 3); [reflexivity | lia].
    + destruct (Z.eqb_spec r 3); [lia | reflexivity].
  - reflexivity.
Qed.

Lemma cueOk_entered tl i r n :
  cueOk r n (entrySched (cueMode tl i r) r n).
Proof.
  unfold cueMode.
  destruct (Z.of_nat i <? Z.of_nat (List.length tl) - 1)%Z; [|exact I].
  destruct (Z.ltb_spec 3 r); [|destruct (r =? 3)%Z; exact I].
  cbn. repeat split; [assumption | lia].
Qed.

Lemma goodStep_dur a : goodStep a -> stepDuration a = Fin (dur a) /\ (0 <= dur a)%Z.
Proof. intros (d & Hd & H0). unfold dur. rewrite Hd. now split. Qed.

Lemma isFinished_finishedAt tl i r e a n :
  List.length tl = i -> isFinished (finishedAt tl i r e a n).
Proof. intros H. unfold isFinished, finishedAt. cbn [isRunning isPaused timers index timeline]. now repeat split. Qed.

Lemma run_to_finish tl :
  goodTimeline tl ->
  forall later earlier cur, tl = earlier ++ cur :: later ->
  forall r e a c n, (0 <= r)%Z -> cueOk r a c ->
  let i := List.length earlier in
  let st := runningAt tl i r e a c n in
  let res := seconds (S (Z.to_nat r) + restTicks false later) st in
  isFinished (fst res)
  /\ runsThenFinishes (snd res)
  /\ (forall j, cuesFor j (snd res)
                = if j <? i then 0
                  else if Nat.eqb j i then cuePending c
                  else expectedCues tl j)
  /\ cuesAtThree (snd res)
  /\ chain st (snd res).
Proof.
  intros Hgood. induction later as [|nxt later IH];
    intros earlier cur Htl r e a c n Hr Hok i st.
  - (* the last step *)
    assert (Hcur : nth_error tl i = Some cur).
    { subst tl i. now rewrite nth_error_app2, Nat.sub_diag by lia. }
    assert (Hlen : List.length tl = S i).
    { subst tl i. rewrite length_app. cbn. lia. }
    cbn [restTicks]. replace (S (Z.to_nat r) + 0) with (Z.to_nat r + 1) by lia.
    cbv zeta. rewrite seconds_add.
    destruct (@countdown_run tl i cur a n Hcur (Z.to_nat r) r e c ltac:(lia) Hok)
      as (Hst & Hw & Hcues & H3 & Hch).
    fold st in Hst, Hw, Hcues, H3, Hch. rewrite Hst.
    rewrite seconds_S, (@second_finish tl i 0 (e + r) a n) by (lia || assumption).
    cbn [state events fst snd seconds repeat run].
    split; [|split; [|split; [|split]]].
    + now apply isFinished_finishedAt.
    + apply (@runsThenFinishes_app i _ _ Hw). cbn [runsThenFinishes fst snd].
      split; [now apply isFinished_finishedAt | reflexivity].
    + intros j. rewrite cuesFor_app, (@cuesFor_within i j _ Hw), Hcues.
      rewrite cuesFor_cons. cbn [fst snd cueCount filter isCue List.length].
      replace (cuesFor j []) with 0 by reflexivity.
      match goal with |- context [if ?b then 0 else 0] =>
        replace (if b then 0 else 0) with 0 by (destruct b; reflexivity) end.
      unfold expectedCues.
      destruct (Nat.ltb_spec j i); destruct (Nat.eqb_spec i j);
        destruct (Nat.eqb_spec j i); destruct (Nat.eqb_spec (S i) j); try lia.
      all: try (rewrite (proj2 (nth_error_None tl j)) by lia).
      all: lia.
    + apply Forall_app. split; [exact H3|]. constructor; [|constructor].
      cbn. congruence.
    + apply chain_app; [exact Hch|]. rewrite seconds_end, Hst.
      cbn. split; [now right | exact I].
  - (* a step followed by others *)
    assert (Hcur : nth_error tl i = Some cur).
    { subst tl i. now rewrite nth_error_app2, Nat.sub_diag by lia. }
    assert (Hnxt : nth_error tl (S i) = Some nxt).
    { subst tl i. rewrite nth_error_app2 by lia.
      now replace (S (List.length earlier) - List.length earlier) with 1 by lia. }
    assert (Hg : goodStep nxt).
    { unfold goodTimeline in Hgood. rewrite Forall_forall in Hgood.
      apply Hgood. eapply nth_error_In. exact Hnxt. }
    destruct (@goodStep_dur nxt Hg) as (Hd & Hd0).
    cbn [restTicks].
    set (r' := entry false nxt).
    replace (S (Z.to_nat r) + (S (Z.to_nat r') + restTicks false later))
      with (Z.to_nat r + (1 + (S (Z.to_nat r') + restTicks false later))) by lia.
    cbv zeta. rewrite seconds_add.
    destruct (@countdown_run tl i cur a n Hcur (Z.to_nat r) r e c ltac:(lia) Hok)
      as (Hst & Hw & Hcues & H3 & Hch).
    fold st in Hst, Hw, Hcues, H3, Hch. rewrite Hst.
    cbn [Nat.add]. rewrite seconds_S.
    rewrite (@second_advance tl i 0 (e + r) a n nxt) by (lia || assumption).
    fold r'. cbn [state events fst snd]. unfold enteredAt.
    assert (Htl' : tl = (earlier ++ [cur]) ++ nxt :: later).
    { now rewrite <- app_assoc. }
    assert (Hi' : List.length (earlier ++ [cur]) = S i).
    { rewrite length_app. cbn. lia. }
    assert (Hr' : (0 <= r')%Z) by (unfold r', entry; lia).
    destruct (IH (earlier ++ [cur]) nxt Htl' r' (e + r)%Z n
                 (entrySched (cueMode tl (S i) r') r' n)
                 (entryNext (cueMode tl (S i) r') n) Hr'
                 (cueOk_entered tl (S i) r' n))
      as (Hfin & Hrun & Hcf & H3' & Hch').
    rewrite Hi' in *. cbn [Nat.add] in Hfin, Hrun, Hcf, H3', Hch'.
    split; [|split; [|split; [|split]]].
    + exact Hfin.
    + apply (@runsThenFinishes_app i _ _ Hw).
      cbn [runsThenFinishes fst snd].
      match type of Hrun with runsThenFinishes ?l => destruct l eqn:E end;
        [exact (False_ind _ Hrun)|].
      cbv beta iota.
      split; [reflexivity|split; [|exact Hrun]].
      destruct (cueMode tl (S i) r'); reflexivity.
    + intros j. rewrite cuesFor_app, (@cuesFor_within i j _ Hw), Hcues.
      rewrite cuesFor_cons, Hcf. cbn [fst snd index runningAt].
      assert (Hex := @expectedCues_entered tl (S i) nxt n Hnxt).
      cbn [Nat.eqb] in Hex. fold r' in Hex. cbv zeta in Hex.
      assert (Hcc : cueCount (shown (runningAt tl (S i) r' (e + r) n
                        (entrySched (cueMode tl (S i) r') r' n)
                        (entryNext (cueMode tl (S i) r') n)) nxt
                      :: entryPlay (cueMode tl (S i) r'))
                    = cueCount (entryPlay (cueMode tl (S i) r'))) by reflexivity.
      rewrite Hcc.
      destruct (Nat.ltb_spec j i); destruct (Nat.eqb_spec i j);
        destruct (Nat.eqb_spec j i); destruct (Nat.eqb_spec (S i) j);
        destruct (Nat.ltb_spec j (S i)); destruct (Nat.eqb_spec j (S i));
        try lia.
      subst j. lia.
    + apply Forall_app. split; [exact H3|]. constructor; [|exact H3'].
      cbn [fst snd runningAt remaining]. unfold cueMode.
      destruct (Z.of_nat (S i) <? Z.of_nat (List.length tl) - 1)%Z;
        [destruct (3 <? r')%Z; [|destruct (Z.eqb_spec r' 3)]|]; cbn; congruence.
    + apply chain_app; [exact Hch|]. rewrite seconds_end, Hst.
      split; [now right | exact Hch'].
Qed.

Lemma restTicks_bound (first : bool) (l : list TimelineStep) :
  goodTimeline l ->
  (Z.of_nat (restTicks first l) <= totalDuration l + Z.of_nat (List.length l))%Z.
Proof.
  intros H. revert first. induction H as [|a l Ha _ IH]; intros first.
  - cbn. lia.
  - destruct (@goodStep_dur a Ha) as (_ & H0).
    cbn [restTicks totalDuration map fold_right List.length].
    specialize (IH false). unfold totalDuration in IH.
    assert (entry first a <= dur a)%Z by (unfold entry; destruct first; lia).
    assert (0 <= entry first a)%Z by (unfold entry; lia).
    lia.
Qed.

(** C10. A run started on a non-empty timeline whose durations are
    non-negative integers, and then left alone, is finished after
    [ticksToFinish] seconds (one tick each), which is at most the sum of the
    durations plus the number of steps plus one; until then the timer is
    running, and every tick either counts [remaining] down or moves [index]
    on. *)
Theorem run_finishes (input : jsstring) (st0 : TimerState)
        (tl : list TimelineStep) :
  flattenWorkout (parseWorkout input) = tl ->
  tl <> [] -> goodTimeline tl -> owned st0 ->
  let st1 := state (start input st0) in
  let res := seconds (ticksToFinish tl) st1 in
  isRunning st1 = true
  /\ (Z.of_nat (ticksToFinish tl)
      <= totalDuration tl + Z.of_nat (List.length tl) + 1)%Z
  /\ isFinished (fst res)
  /\ runsThenFinishes (snd res)
  /\ chain st1 (snd res).
Proof.
  intros Htl Hne Hgood Ho.
  destruct tl as [|cur later]; [congruence|]. set (tl := cur :: later) in *.
  assert (Hcur : nth_error tl 0 = Some cur) by reflexivity.
  assert (Hg : goodStep cur) by (now inversion Hgood).
  destruct (@goodStep_dur cur Hg) as (Hd & Hd0).
  cbv zeta. rewrite (@start_spec input st0 tl cur Htl Hcur Hd Ho).
  cbn [state]. unfold enteredAt.
  assert (Hr : (0 <= entry true cur)%Z) by (unfold entry; lia).
  destruct (@run_to_finish tl Hgood later [] cur eq_refl (entry true cur) 0%Z
              (nextId st0)
              (entrySched (cueMode tl 0 (entry true cur)) (entry true cur)
                          (nextId st0))
              (entryNext (cueMode tl 0 (entry true cur)) (nextId st0))
              Hr (cueOk_entered tl 0 (entry true cur) (nextId st0)))
    as (Hfin & Hrun & _ & _ & Hch).
  cbn [List.length] in Hfin, Hrun, Hch.
  assert (B := @restTicks_bound true tl Hgood).
  unfold ticksToFinish.
  change (restTicks true tl)
    with (S (Z.to_nat (entry true cur)) + restTicks false later) in *.
  split; [reflexivity|]. split; [lia|].
  exact (conj Hfin (conj Hrun Hch)).
Qed.

Lemma run_finishes_witness :
  let input := str "2s a
1s b" in
  let tl := flattenWorkout (parseWorkout input) in
  let st1 := state (start input initial) in
  let res := seconds (ticksToFinish tl) st1 in
  isRunning st1 = true
  /\ (Z.of_nat (ticksToFinish tl)
      <= totalDuration tl + Z.of_nat (List.length tl) + 1)%Z
  /\ isFinished (fst res)
  /\ runsThenFinishes (snd res)
  /\ chain st1 (snd res).
Proof.
  apply (@run_finishes (str "2s a
1s b") initial (flattenWorkout (parseWorkout (str "2s a
1s b"))) eq_refl).
  - vm_compute. discriminate.
  - vm_compute.
    apply Forall_cons; [exists 2%Z; split; [reflexivity | discriminate]|].
    apply Forall_cons; [exists 1%Z; split; [reflexivity | discriminate]|].
    apply Forall_nil.
  - intros t [].
Defined.








(** ** The timer: pause and resume *)


Lemma owned_runningAt tl i r e a c n : owned (runningAt tl i r e a c n).
Proof.
  unfold owned, runningAt. cbn [timers intervalId sampleTimeoutId].
  intros t [<-|Ht]; [now left|].
  destruct c as [[b d]|]; [|destruct Ht].
  destruct Ht as [<-|[]]. now right.
Qed.



(** ** The timer: the states of the page *)

Lemma cueLive_entered tl i r n : cueLive tl i r (entrySched (cueMode tl i r) r n).
Proof. unfold cueLive. destruct (cueMode tl i r); reflexivity. Qed.

Lemma Canon_entered tl i cur r e n :
  goodTimeline tl -> nth_error tl i = Some cur -> (0 <= r <= dur cur)%Z ->
  Canon (enteredAt tl i r e n).
Proof.
  intros. unfold enteredAt. eapply CanonRunning; eauto.
  - apply cueOk_entered.
  - apply cueLive_entered.
Qed.

Lemma good_nth tl i cur :
  goodTimeline tl -> nth_error tl i = Some cur ->
  stepDuration cur = Fin (dur cur) /\ (0 <= dur cur)%Z.
Proof.
  intros Hg Hc. apply goodStep_dur.
  unfold goodTimeline in Hg. rewrite Forall_forall in Hg.
  apply Hg. eapply nth_error_In. exact Hc.
Qed.

Lemma second_quiet st :
  timers st = [] ->
  second st = {| value := Some tt; state := st; events := [] |}.
Proof.
  destruct st as [tl i r e iid sid rn pa tms nid]. cbn [timers]. intros ->.
  reflexivity.
Qed.

Lemma Canon_second st : Canon st -> Canon (state (second st)).
Proof.
  intros [tl i cur r e a c n Hg Hc Hr Hok Hlive
         | tl i cur r e a n Hg Hc Hr | st' Hrn Hpa Ht].
  - destruct (Z.ltb_spec 0 r) as [Hpos|Hzero].
    + (* counting down *)
      assert (Hab : forall b d, c = Some (b, d) -> b <> a).
      { intros b d ->. apply Hok. }
      rewrite (@second_countdown tl i r e a c n cur Hpos Hc Hab). cbn [state].
      eapply CanonRunning; eauto; try lia.
      * destruct c as [[b d]|]; cbn; [|exact I].
        destruct Hok as (H3 & Hd & Hn).
        destruct (Nat.leb_spec d 1); cbn; [exact I|].
        repeat split; try assumption; lia.
      * unfold cueLive, cueMode in *.
        destruct (Z.of_nat i <? Z.of_nat (List.length tl) - 1)%Z;
          destruct c as [[b d]|]; cbn in *;
          try destruct Hok as (H3 & Hd & Hn);
          try (destruct (Nat.leb_spec d 1)); cbn in *;
          destruct (Z.ltb_spec 3 r); destruct (Z.ltb_spec 3 (r - 1));
          cbn in *; try lia; try reflexivity; try discriminate;
          try (destruct (r =? 3)%Z; discriminate);
          try (destruct (r - 1 =? 3)%Z; reflexivity).
    + (* the step is over *)
      assert (c = None) as ->.
      { destruct c as [[b d]|]; [|reflexivity]. destruct Hok. lia. }
      destruct (nth_error tl (S i)) as [nxt|] eqn:Hn.
      * destruct (@good_nth tl (S i) nxt Hg Hn) as (Hd & Hd0).
        rewrite (@second_advance tl i r e a n nxt Hzero Hn Hd). cbn [state].
        eapply Canon_entered; eauto. unfold entry. lia.
      * assert (Hlen : List.length tl = S i).
        { apply nth_error_None in Hn.
          assert (i < List.length tl) by (apply nth_error_Some; congruence).
          lia. }
        rewrite (@second_finish tl i r e a n Hzero Hlen). cbn [state].
        now apply CanonIdle.
  - rewrite second_quiet by reflexivity. cbn [state]. eapply CanonPaused; eauto.
  - rewrite second_quiet by assumption. cbn [state]. now apply CanonIdle.
Qed.

Lemma callback_ok (m : M unit) st :
  value (m st) = Some tt -> callback m st = m st.
Proof.
  unfold callback. destruct (m st) as [[[]|] st1 ev1]; cbn; congruence.
Qed.

Lemma pause_runningAt tl i r e a c n :
  (forall b d, c = Some (b, d) -> b <> a) ->
  pause (runningAt tl i r e a c n)
  = {| value := Some tt; state := pausedAt tl i r e a n;
       events := [Controls false true] |}.
Proof.
  intros Hab. destruct c as [[b d]|].
  - assert (Hba : Nat.eqb b a = false) by (apply Nat.eqb_neq; eauto).
    repeat (mcbv; rewrite ?Nat.eqb_refl, ?Hba). reflexivity.
  - repeat (mcbv; rewrite ?Nat.eqb_refl). reflexivity.
Qed.

Lemma resume_pausedAt tl i r e a n :
  resume (pausedAt tl i r e a n)
  = {| value := Some tt; state := enteredAt tl i r e n;
       events := entryPlay (cueMode tl i r) ++ [Controls true false] |}.
Proof.
  unfold enteredAt, cueMode, pausedAt.
  destruct (Z.of_nat i <? Z.of_nat (List.length tl) - 1)%Z eqn:El;
    [destruct (3 <? r)%Z eqn:E3; [|destruct (r =? 3)%Z eqn:E3']|].
  all: repeat (mcbv; rewrite ?El, ?E3, ?E3').
  all: reflexivity.
Qed.

Lemma owned_quiet st : timers st = [] -> owned st.
Proof. unfold owned. intros -> t []. Qed.

Lemma Canon_owned st : Canon st -> owned st.
Proof.
  intros [tl i cur r e a c n Hg Hc Hr Hok Hlive
         | tl i cur r e a n Hg Hc Hr | st' Hrn Hpa Ht].
  - apply owned_runningAt.
  - now apply owned_quiet.
  - now apply owned_quiet.
Qed.

Lemma clickStart_unpaused st input :
  isPaused st = false ->
  state (callback (clickStart input) st) = state (callback (start input) st).
Proof.
  intros Hp. unfold clickStart, callback, bind, get. rewrite Hp.
  destruct (start input st) as [[[]|] ? ?]; reflexivity.
Qed.

Lemma clickStart_paused st input :
  isPaused st = true ->
  state (callback (clickStart input) st) = state (resume st).
Proof.
  intros Hp. unfold clickStart, callback, bind, get. rewrite Hp.
  destruct (resume st) as [[[]|] ? ?]; reflexivity.
Qed.

Lemma clickPause_running st :
  isRunning st = true ->
  state (callback clickPause st) = state (pause st).
Proof.
  intros Hp. unfold clickPause, callback, bind, get. rewrite Hp.
  destruct (pause st) as [[[]|] ? ?]; reflexivity.
Qed.

Lemma clickPause_idle st :
  isRunning st = false -> state (callback clickPause st) = st.
Proof.
  intros Hp. unfold clickPause, callback, bind, get, ret. rewrite Hp.
  reflexivity.
Qed.

Lemma Canon_clickPause st : Canon st -> Canon (state (step ClickPause st)).
Proof.
  intros H. cbn [step].
  destruct H as [tl i cur r e a c n Hg Hc Hr Hok Hlive
                | tl i cur r e a n Hg Hc Hr | st' Hrn Hpa Ht].
  - assert (Hab : forall b d, c = Some (b, d) -> b <> a).
    { intros b d ->. apply Hok. }
    rewrite clickPause_running by reflexivity.
    rewrite (@pause_runningAt tl i r e a c n Hab). cbn [state].
    eapply CanonPaused; eauto.
  - rewrite clickPause_idle by reflexivity. eapply CanonPaused; eauto.
  - rewrite clickPause_idle by assumption. now apply CanonIdle.
Qed.

Lemma Canon_clickStop st : Canon st -> Canon (state (step ClickStop st)).
Proof.
  intros H. cbn [step]. unfold clickStop.
  destruct (@stop_owned st (Canon_owned H)) as (Hv & Ht & Hr & Hp).
  rewrite callback_ok by exact Hv. now apply CanonIdle.
Qed.

Lemma Canon_clickStart st input :
  Canon st -> allowed (ClickStart input) st ->
  Canon (state (step (ClickStart input) st)).
Proof.
  intros H Hall. cbn [step].
  assert (Ho := Canon_owned H).
  assert (Hstart : isPaused st = false ->
            goodTimeline (flattenWorkout (parseWorkout input)) ->
            (flattenWorkout (parseWorkout input) <> []
             \/ (isRunning st = false /\ timers st = [])) ->
            Canon (state (callback (clickStart input) st))).
  { intros Hp Hg Hne. rewrite (@clickStart_unpaused st input Hp).
    destruct (flattenWorkout (parseWorkout input)) as [|cur later] eqn:Etl.
    - destruct Hne as [Hne|(Hrn & Ht)]; [congruence|].
      rewrite callback_ok; rewrite (@start_empty input st Etl); [|reflexivity].
      cbn [state]. destruct st; cbn in *. now apply CanonIdle.
    - assert (Hcur : nth_error (cur :: later) 0 = Some cur) by reflexivity.
      destruct (@good_nth _ 0 cur Hg Hcur) as (Hd & Hd0).
      rewrite callback_ok;
        rewrite (@start_spec input st (cur :: later) cur Etl Hcur Hd Ho);
        [|reflexivity].
      cbn [state]. eapply Canon_entered; eauto. unfold entry. lia. }
  destruct H as [tl i cur r e a c n Hg Hc Hr Hok Hlive
                | tl i cur r e a n Hg Hc Hr | st' Hrn Hpa Ht].
  - destruct Hall as [Hp|(Hg' & Hne)]; [discriminate Hp|].
    apply (Hstart eq_refl Hg'). left. now apply Hne.
  - rewrite clickStart_paused by reflexivity.
    rewrite resume_pausedAt. cbn [state]. eapply Canon_entered; eauto.
  - destruct Hall as [Hp|(Hg' & Hne)]; [congruence|].
    apply (Hstart Hpa Hg').
    destruct (flattenWorkout (parseWorkout input));
      [right; now split | left; discriminate].
Qed.

Lemma Canon_step a st : Canon st -> allowed a st -> Canon (state (step a st)).
Proof.
  intros H Ha. destruct a as [input | | |].
  - now apply Canon_clickStart.
  - now apply Canon_clickPause.
  - now apply Canon_clickStop.
  - now apply Canon_second.
Qed.

Lemma Canon_initial : Canon initial.
Proof. now apply CanonIdle. Qed.

Lemma Canon_run acts st :
  Canon st -> allowedRun acts st -> Canon (fst (run acts st)).
Proof.
  revert st. induction acts as [|a acts IH]; intros st H Hall; [exact H|].
  destruct Hall as [Ha Hrest]. cbn [run].
  specialize (IH _ (@Canon_step a st H Ha) Hrest).
  destruct (run acts (state (step a st))). exact IH.
Qed.

Lemma Canon_inRange st :
  Canon st -> isRunning st = true \/ isPaused st = true -> inRange st.
Proof.
  intros [tl i cur r e a c n Hg Hc Hr Hok Hlive
         | tl i cur r e a n Hg Hc Hr | st' Hrn Hpa Ht] Hmode.
  - destruct (@good_nth tl i cur Hg Hc) as (Hd & _).
    exists cur, (dur cur), r. now repeat split.
  - destruct (@good_nth tl i cur Hg Hc) as (Hd & _).
    exists cur, (dur cur), r. now repeat split.
  - destruct Hmode; congruence.
Qed.

(** As long as start is not pressed on an empty workout while the timer
    runs, [index] is valid and [remaining] lies between 0 and the duration of
    the current step whenever the timer is running or paused. *)
Theorem index_valid_without_empty_restart (acts : list Action) :
  allowedRun acts initial ->
  let st := fst (run acts initial) in
  isRunning st = true \/ isPaused st = true -> inRange st.
Proof.
  intros Hall st Hmode.
  exact (@Canon_inRange st (@Canon_run acts initial Canon_initial Hall) Hmode).
Qed.

Lemma index_valid_without_empty_restart_witness :
  inRange (fst (run [ClickStart (str "10s a
5s b"); Second; ClickPause; ClickStart (str ""); Second] initial)).
Proof.
  apply (@index_valid_without_empty_restart
           [ClickStart (str "10s a
5s b"); Second; ClickPause; ClickStart (str ""); Second]).
  - assert (E : flattenWorkout (parseWorkout (str "10s a
5s b"))
      = [plainStep (Some {| name := str "a"; duration := Fin 10 |});
         plainStep (Some {| name := str "b"; duration := Fin 5 |})])
    by (vm_compute; reflexivity).
    cbn [allowedRun allowed]. rewrite E.
    repeat split.
    + right. split; [|intros _; discriminate].
      apply Forall_cons; [exists 10%Z; split; [reflexivity | discriminate]|].
      apply Forall_cons; [exists 5%Z; split; [reflexivity | discriminate]|].
      apply Forall_nil.
    + left. vm_compute. reflexivity.
  - left. vm_compute. reflexivity.
Defined.

(** ** Flattening: labels, durations, empty sets *)

Lemma flattenWorkout_flat (plan : list PlanNode) :
  flattenWorkout plan = flat_map expandNode plan.
Proof. unfold flattenWorkout. now rewrite fold_flattenBlock. Qed.

(** Where a step comes from, and the label "r / R" it carries.  A step of
    the timeline is either a line of its own, which carries no label, or an
    item of a set of the plan, labelled with a round [r] and the repeat
    count [R] of that set, where [1 <= r <= R]. *)
Theorem flattenWorkout_intervals (plan : list PlanNode) (s : TimelineStep) :
  In s (flattenWorkout plan) ->
  (exists fields,
      In (ActivityNode fields) plan /\ s = plainStep fields
      /\ interval s = None /\ intervalTotal s = None)
  \/ (exists r R steps a,
        In (SetNode (Fin R) steps) plan /\ In a steps
        /\ s = annotated r (Fin R) a
        /\ interval s = Some r /\ intervalTotal s = Some (Fin R)
        /\ (1 <= r <= R)%Z).
Proof.
  rewrite flattenWorkout_flat. intros H.
  apply in_flat_map in H. destruct H as (node & Hnode & H).
  destruct node as [fields | repeat steps]; cbn [expandNode] in H.
  - left. destruct H as [<-|[]]. exists fields. now repeat split.
  - right. apply in_flat_map in H. destruct H as (r & Hr & H).
    apply in_seq in Hr. unfold groupOf in H. apply in_map_iff in H.
    destruct H as (a & <- & Ha).
    destruct repeat as [R|]; cbn [iterations] in Hr; [|lia].
    exists (Z.of_nat r), R, steps, a. repeat split; try assumption; lia.
Qed.

Lemma flattenWorkout_intervals_witness :
  let plan := parseWorkout (str "5s warm
3x(1min run, 30s rest)") in
  let run := {| name := str "run"; duration := Fin 60 |} in
  let s := annotated 2 (Fin 3) run in
  (exists fields,
      In (ActivityNode fields) plan /\ s = plainStep fields
      /\ interval s = None /\ intervalTotal s = None)
  \/ (exists r R steps a,
        In (SetNode (Fin R) steps) plan /\ In a steps
        /\ s = annotated r (Fin R) a
        /\ interval s = Some r /\ intervalTotal s = Some (Fin R)
        /\ (1 <= r <= R)%Z).
Proof.
  apply (@flattenWorkout_intervals
           (parseWorkout (str "5s warm
3x(1min run, 30s rest)"))
           (annotated 2 (Fin 3) {| name := str "run"; duration := Fin 60 |})).
  assert (E : flattenWorkout (parseWorkout (str "5s warm
3x(1min run, 30s rest)"))
              = plainStep (Some {| name := str "warm"; duration := Fin 5 |})
                :: flat_map (groupOf (Fin 3)
                            [{| name := str "run"; duration := Fin 60 |};
                             {| name := str "rest"; duration := Fin 30 |}])
                         [1; 2; 3]) by (vm_compute; reflexivity).
  rewrite E. cbn. right; right; right; left. reflexivity.
Defined.

Lemma totalDuration_app l1 l2 :
  totalDuration (l1 ++ l2) = (totalDuration l1 + totalDuration l2)%Z.
Proof.
  unfold totalDuration. induction l1 as [|a l1 IH]; cbn; [reflexivity|].
  rewrite IH. lia.
Qed.

Lemma totalDuration_group repeat steps r :
  totalDuration (groupOf repeat steps r) = roundDuration steps.
Proof.
  unfold totalDuration, roundDuration, groupOf. rewrite map_map.
  induction steps as [|a steps IH]; cbn; [reflexivity|]. now rewrite IH.
Qed.

Lemma totalDuration_groups repeat steps l :
  totalDuration (flat_map (groupOf repeat steps) l)
  = (Z.of_nat (List.length l) * roundDuration steps)%Z.
Proof.
  induction l as [|r l IH]; [reflexivity|].
  cbn [flat_map List.length]. rewrite totalDuration_app, totalDuration_group, IH.
  lia.
Qed.

(** The time a workout takes is the sum over its lines: the duration of an
    activity, and for a set its repeat count times the duration of one
    round.  A line that did not parse counts nothing. *)
Theorem flattenWorkout_duration (plan : list PlanNode) :
  totalDuration (flattenWorkout plan) = planDuration plan.
Proof.
  rewrite flattenWorkout_flat. unfold planDuration.
  induction plan as [|node plan IH]; [reflexivity|].
  cbn [flat_map map fold_right]. rewrite totalDuration_app, IH. f_equal.
  destruct node as [[a|] | repeat steps]; cbn [expandNode nodeDuration].
  - unfold totalDuration, actDuration. cbn. unfold dur. cbn. 
    destruct (duration a); lia.
  - reflexivity.
  - rewrite totalDuration_groups, length_seq. reflexivity.
Qed.

(** A set that repeats less than once, or that holds no item that parsed,
    leaves no trace in the timeline. *)
Theorem flattenWorkout_empty_set (before after : list PlanNode)
        (repeat : num) (steps : list Activity) :
  nle (Fin 1) repeat = false \/ steps = [] ->
  flattenWorkout (before ++ SetNode repeat steps :: after)
  = flattenWorkout (before ++ after).
Proof.
  intros H. rewrite !flattenWorkout_flat, !flat_map_app.
  cbn [flat_map]. f_equal.
  replace (expandNode (SetNode repeat steps)) with (@nil TimelineStep);
    [reflexivity|].
  cbn [expandNode]. destruct H as [H | ->].
  - destruct repeat as [R|]; cbn [iterations]; [|reflexivity].
    cbn in H. apply Z.leb_gt in H.
    replace (Z.to_nat R) with 0 by lia. reflexivity.
  - induction (seq 1 (iterations repeat)) as [|r l IH]; [reflexivity|].
    cbn. exact IH.
Qed.

Lemma flattenWorkout_empty_set_witness :
  flattenWorkout
    (parseWorkout (str "5s a")
     ++ SetNode (Fin 0) [{| name := str "b"; duration := Fin 7 |}]
          :: parseWorkout (str "6s c"))
  = flattenWorkout (parseWorkout (str "5s a") ++ parseWorkout (str "6s c")).
Proof.
  apply (@flattenWorkout_empty_set (parseWorkout (str "5s a"))
           (parseWorkout (str "6s c")) (Fin 0)
           [{| name := str "b"; duration := Fin 7 |}]).
  left. reflexivity.
Defined.

(** ** Parsing: lines, activities and sets in general *)

Lemma reActivity_parts :
  reActivity
  = Seq Bos
      (Seq (Group 1 (Seq (Plus isDigit)
                    (Seq (Star isSpace) (Seq reUnit (Opt reSeconds)))))
           (Seq reName Eos)).
Proof. reflexivity. Qed.

Section StarMore.
Variable A : Type.
Variable p : N -> bool.

(** The star hands over the longest run after which the rest matches. *)
Lemma star_backtrack pre rest (k : nat -> jsstring -> option A) x :
  Forall (fun c => p c = true) pre -> stops p rest ->
  forall j0 pos, j0 <= List.length pre ->
  (forall j, j0 < j <= List.length pre ->
             k (pos + j) (skipn j pre ++ rest) = None) ->
  k (pos + j0) (skipn j0 pre ++ rest) = Some x ->
  star p pos (pre ++ rest) k = Some x.
Proof.
  intros Hpre Hrest. induction Hpre as [|c pre Hc Hpre IH]; intros j0 pos Hj0 Hno Hk.
  - cbn in Hj0. assert (j0 = 0) by lia. subst j0. cbn in *.
    rewrite Nat.add_0_r in Hk. now rewrite star_stop.
  - cbn [app star]. rewrite Hc. destruct j0 as [|j0].
    + rewrite (@star_fails A p pre rest (S pos) k Hpre Hrest).
      * cbn in Hk. now rewrite Nat.add_0_r in Hk.
      * intros j Hj. specialize (Hno (S j)). cbn [skipn List.length] in Hno.
        rewrite Nat.add_succ_comm. apply Hno. lia.
    + rewrite (IH j0 (S pos)); [reflexivity | cbn in Hj0; lia | |].
      * intros j Hj. specialize (Hno (S j)). cbn [skipn List.length] in Hno.
        rewrite Nat.add_succ_comm. apply Hno. lia.
      * cbn [skipn] in Hk. now rewrite Nat.add_succ_comm.
Qed.
End StarMore.

Lemma space_not_digit x : isSpace x = true -> isDigit x = false.
Proof.
  intros H. destruct (isDigit x) eqn:E; [|reflexivity].
  apply digit_not_space in E. congruence.
Qed.

Lemma space_not_s x : isSpace x = true -> ci "s" x = false.
Proof.
  unfold isSpace, ci. change (N_of_ascii "s") with 115%N.
  change (115 - 32)%N with 83%N.
  intros H.
  destruct (N.eqb_spec x 115) as [->|]; [discriminate|].
  destruct (N.eqb_spec x 83) as [->|]; [discriminate|]. reflexivity.
Qed.

Lemma blank_skipn ws j : blank ws -> blank (skipn j ws).
Proof.
  revert ws. induction j as [|j IH]; intros ws H; cbn; [exact H|].
  destruct H as [|c ws Hc H]; [constructor | now apply IH].
Qed.

(** *** Letters under the [i] flag *)

Lemma ci_cases x a :
  ci x a = true -> a = N_of_ascii x \/ a = (N_of_ascii x - 32)%N.
Proof.
  unfold ci. intros H. apply orb_prop in H.
  destruct H as [H|H]; apply N.eqb_eq in H; auto.
Qed.

(** Replaces every letter matched under the [i] flag by its two forms. *)
Ltac letters :=
  repeat match goal with
         | H : ci _ ?a = true |- _ =>
             apply ci_cases in H; destruct H as [H|H]; cbn in H; subst a
         end.

(** A unit is one letter or three, spelled in either case. *)
Lemma spelled_inv u us :
  spelled u us = true ->
  match u with
  | UnitM => exists a, us = [a] /\ ci "m" a = true
  | UnitMin =>
      exists a b c, us = [a; b; c]
                    /\ ci "m" a = true /\ ci "i" b = true /\ ci "n" c = true
  | UnitS => exists a, us = [a] /\ ci "s" a = true
  | UnitSec =>
      exists a b c, us = [a; b; c]
                    /\ ci "s" a = true /\ ci "e" b = true /\ ci "c" c = true
  end.
Proof.
  unfold spelled.
  destruct u; cbn [unitLetters list_ascii_of_string spells];
    destruct us as [|a [|b [|c [|d us]]]]; cbn [spells];
    rewrite ?andb_false_r, ?andb_true_r; try discriminate; intros H;
    repeat match goal with
           | H : _ && _ = true |- _ =>
               apply andb_prop in H; let H1 := fresh in destruct H as [H1 H]
           end; eauto 10.
Qed.

(** Takes a spelled unit apart into its letters. *)
Ltac spell H :=
  apply spelled_inv in H;
  match type of H with
  | match ?u with _ => _ end =>
      destruct u;
      [ destruct H as (?a & -> & ?Ha)
      | destruct H as (?a & ?b & ?c & -> & ?Ha & ?Hb & ?Hc)
      | destruct H as (?a & -> & ?Ha)
      | destruct H as (?a & ?b & ?c & -> & ?Ha & ?Hb & ?Hc) ]
  end.

Lemma s_not_m a : ci "s" a = true -> ci "m" a = false.
Proof. intros H. letters; reflexivity. Qed.

(** The first letter of a unit is neither white space nor a digit, and the
    letters after it begin with none of these nor with an [s]. *)
Lemma unit_head u us t :
  spelled u us = true ->
  exists h r, us ++ t = h :: r /\ isSpace h = false /\ isDigit h = false.
Proof.
  intros H. spell H; letters; cbn; eexists _, _; repeat split.
Qed.

Lemma unit_rest u us a r :
  spelled u us = true -> us = a :: r -> r <> [] ->
  exists b r', r = b :: r' /\ noSeconds (b :: r').
Proof.
  intros H E Hr. spell H; inversion E; subst; try congruence;
    letters; eexists _, _; repeat split.
Qed.

Lemma unit_last u us :
  spelled u us = true ->
  exists pre x, us = pre ++ [x] /\ isSpace x = false.
Proof.
  intros H. spell H.
  - exists [], a. split; [reflexivity|]. letters; reflexivity.
  - exists [a; b], c. split; [reflexivity|]. letters; reflexivity.
  - exists [], a. split; [reflexivity|]. letters; reflexivity.
  - exists [a; b], c. split; [reflexivity|]. letters; reflexivity.
Qed.

Lemma unit_no_digit u us :
  spelled u us = true -> us <> [] /\ Forall (fun c => isDigit c = false) us.
Proof.
  intros H. spell H; (split; [discriminate|]); letters; repeat constructor.
Qed.

(** After white space that is followed by no digit and no [s], the seconds
    part does not match, whatever comes after it in the pattern. *)
Lemma seconds_fail (A : Type) ws t pos caps
      (k : nat -> jsstring -> captures -> option A) :
  blank ws -> noSeconds t ->
  matchAt reSeconds pos (ws ++ t) caps k = None.
Proof.
  intros Hws Ht.
  assert (Hkw : forall j pos',
            matchAt (Alt (kw "s") (kw "sec")) pos' (skipn j ws ++ t) caps k = None).
  { intros j pos'. apply (blank_skipn j) in Hws.
    destruct Hws as [|x l Hx _].
    - destruct t as [|x t]; [reflexivity|]. destruct Ht as (_ & _ & Hs).
      cbn. now rewrite Hs.
    - cbn. now rewrite (space_not_s _ Hx). }
  assert (Hstop : forall j, stops isDigit (skipn j ws ++ t)).
  { intros j. apply (blank_skipn j) in Hws. destruct Hws as [|x l Hx _].
    - destruct t as [|x t]; [exact I|]. apply Ht.
    - cbn. now apply space_not_digit. }
  assert (Hstop' : stops isSpace t).
  { destruct t as [|x t]; [exact I|]. apply Ht. }
  unfold reSeconds. cbn [matchAt].
  apply star_fails; [exact Hws | exact Hstop' |].
  intros j Hj. rewrite star_stop by apply Hstop.
  apply star_fails; [now apply blank_skipn | exact Hstop' |].
  intros j2 Hj2. rewrite skipn_skipn. apply Hkw.
Qed.

(** *** A name after the duration *)

Lemma dropDigits_split s :
  exists dg, s = dg ++ dropDigits s /\ allDigits dg
             /\ stops isDigit (dropDigits s).
Proof.
  induction s as [|c s (dg & E & Hdg & Hst)].
  - exists []. repeat split. constructor.
  - cbn [dropDigits]. destruct (isDigit c) eqn:Hc.
    + exists (c :: dg). cbn [app]. rewrite <- E.
      repeat split; [now constructor | exact Hst].
    + exists []. repeat split; [constructor | exact Hc].
Qed.

Lemma trimStart_split s :
  exists sp, s = sp ++ trimStart s /\ blank sp /\ stops isSpace (trimStart s).
Proof.
  induction s as [|c s (sp & E & Hsp & Hst)].
  - exists []. repeat split. constructor.
  - cbn [trimStart]. destruct (isSpace c) eqn:Hc.
    + exists (c :: sp). cbn [app]. rewrite <- E.
      repeat split; [now constructor | exact Hst].
    + exists []. repeat split; [constructor | exact Hc].
Qed.

Section SecondsWord.
Variable A : Type.
Variable bare : bool.
Variable caps : captures.
Variable k : nat -> jsstring -> captures -> option A.
(** What follows the seconds part in the pattern needs the end of a word. *)
Hypothesis k_word : forall p r, wordEnd bare r = false -> k p r caps = None.

Lemma word_fails r p :
  secondsWord bare r = false ->
  matchAt (Alt (kw "s") (kw "sec")) p r caps k = None.
Proof.
  intros H. destruct r as [|a r1]; [reflexivity|].
  unfold kw. cbn [list_ascii_of_string word matchAt].
  cbn [secondsWord] in H.
  destruct (ci "s" a); [|reflexivity]. cbn [andb] in H.
  apply orb_false_elim in H. destruct H as [H1 H2].
  rewrite (k_word _ _ H1).
  destruct r1 as [|b [|c r2]]; [reflexivity | now destruct (ci "e" b) |].
  destruct (ci "e" b); [|reflexivity].
  destruct (ci "c" c); [|reflexivity].
  apply k_word. exact H2.
Qed.

Lemma word_fails_head h r p :
  isDigit h = true \/ isSpace h = true ->
  matchAt (Alt (kw "s") (kw "sec")) p (h :: r) caps k = None.
Proof.
  intros H. unfold kw. cbn [list_ascii_of_string word matchAt].
  assert (E : ci "s" h = false).
  { destruct H as [H|H]; [now apply digit_not_letter | now apply space_not_s]. }
  now rewrite E.
Qed.

Lemma word_fails_name nm p :
  stops isSpace nm -> beginsSeconds bare nm = false ->
  matchAt (Alt (kw "s") (kw "sec")) p nm caps k = None.
Proof.
  intros Hst Hb. destruct nm as [|h nm]; [reflexivity|].
  destruct (isDigit h) eqn:Hd.
  - apply word_fails_head. now left.
  - apply word_fails. unfold beginsSeconds in Hb.
    cbn [dropDigits] in Hb. rewrite Hd in Hb.
    cbn [trimStart] in Hb. cbn in Hst. now rewrite Hst in Hb.
Qed.

(** The seconds part does not take the beginning of a name that does not
    begin like one. *)
Lemma seconds_fail_name ws nm pos :
  blank ws -> stops isSpace nm -> beginsSeconds bare nm = false ->
  matchAt reSeconds pos (ws ++ nm) caps k = None.
Proof.
  intros Hws Hst Hb.
  destruct (dropDigits_split nm) as (dg & Enm & Hdg & Hrest).
  destruct (trimStart_split (dropDigits nm)) as (sp & Erest & Hsp & Hr2).
  unfold reSeconds. cbn [matchAt].
  apply star_fails; [exact Hws | exact Hst |]. intros j Hj.
  assert (Hj' := blank_skipn j Hws).
  destruct (skipn j ws) as [|x l].
  - cbn [app]. rewrite Enm.
    apply star_fails; [exact Hdg | exact Hrest |]. intros j2 Hj2.
    assert (Hj2' := allDigits_skipn j2 Hdg).
    destruct (skipn j2 dg) as [|d l2].
    + cbn [app]. rewrite Erest.
      apply star_fails; [exact Hsp | exact Hr2 |]. intros j3 Hj3.
      assert (Hj3' := blank_skipn j3 Hsp).
      destruct (skipn j3 sp) as [|y l3].
      * cbn [app]. apply word_fails. exact Hb.
      * inversion Hj3'; subst. cbn [app]. apply word_fails_head. now right.
    + inversion Hj2'; subst. cbn [app].
      rewrite star_stop by (cbn; now apply digit_not_space).
      apply word_fails_head. now left.
  - inversion Hj'; subst. cbn [app].
    rewrite star_stop by (cbn; now apply space_not_digit).
    change (x :: l ++ nm) with ((x :: l) ++ nm).
    apply star_fails; [exact Hj' | exact Hst |]. intros j3 Hj3.
    assert (Hj3' := blank_skipn j3 Hj').
    destruct (skipn j3 (x :: l)) as [|y l3].
    + cbn [app]. now apply word_fails_name.
    + inversion Hj3'; subst. cbn [app]. apply word_fails_head. now right.
Qed.
End SecondsWord.

(** White space and then a name that runs to the end of the text. *)
Lemma name_match (A : Type) w0 ws nm pos caps
      (k : nat -> jsstring -> captures -> option A) x :
  isSpace w0 = true -> blank ws -> stops isSpace nm ->
  Forall (fun c => dot c = true) nm ->
  k (S pos + List.length ws + List.length nm) [] ((2, nm) :: caps) = Some x ->
  matchAt reName pos (w0 :: ws ++ nm) caps k = Some x.
Proof.
  intros Hw0 Hws Hstop Hnm Hk.
  unfold reName, Plus. cbn [matchAt]. rewrite Hw0.
  erewrite star_longest; [reflexivity | exact Hws | exact Hstop |].
  rewrite <- (app_nil_r nm) at 1.
  erewrite star_longest; [reflexivity | exact Hnm | exact I |].
  rewrite firstn_all2 by lia. exact Hk.
Qed.

Lemma name_skipped (A : Type) pos caps
      (k : nat -> jsstring -> captures -> option A) :
  matchAt reName pos [] caps k = k pos [] caps.
Proof. reflexivity. Qed.

(** The unit is matched by the first alternative that lets the rest of the
    pattern match: [m] before [min], [s] before [sec]. *)
Lemma unit_match (A : Type) u us t pos caps
      (k : nat -> jsstring -> captures -> option A) x :
  spelled u us = true ->
  (forall a r, us = a :: r -> r <> [] -> k (S pos) (r ++ t) caps = None) ->
  k (pos + List.length us) t caps = Some x ->
  matchAt reUnit pos (us ++ t) caps k = Some x.
Proof.
  intros Hsp Hr Hk. unfold reUnit, kw.
  spell Hsp;
    try (assert (Hbc := Hr a [b; c] eq_refl ltac:(discriminate)));
    cbn [list_ascii_of_string word matchAt app List.length] in *.
  - rewrite Ha. rewrite Nat.add_1_r in Hk. now rewrite Hk.
  - rewrite Ha, Hb, Hc, Hbc.
    replace (pos + 3) with (S (S (S pos))) in Hk by lia. now rewrite Hk.
  - rewrite (s_not_m _ Ha), Ha. rewrite Nat.add_1_r in Hk. now rewrite Hk.
  - rewrite (s_not_m _ Ha), Ha, Hb, Hc, Hbc.
    replace (pos + 3) with (S (S (S pos))) in Hk by lia. now rewrite Hk.
Qed.

Lemma firstn_digits_unit c ds (us t : jsstring) :
  firstn (S (List.length ds) + List.length us - 0) (c :: ds ++ us ++ t)
  = c :: ds ++ us.
Proof.
  rewrite Nat.sub_0_r. cbn [Nat.add]. rewrite firstn_past.
  now rewrite firstn_prefix.
Qed.

(** The two patterns of [parseDuration] have one shape: digits, white
    space, and a letter that decides. *)
Lemma duration_search_skip (x : ascii) (w : string) ds gap rest pos :
  (96 < N_of_ascii x)%N ->
  allDigits ds ->
  match gap with
  | [] => False
  | h :: _ => isSpace h = false /\ ci x h = false
  end ->
  Forall (fun c => isDigit c = false) gap ->
  let re := Seq (Group 1 (Plus isDigit))
                (Seq (Star isSpace)
                     (Group 2 (Alt (Chr (ci x)) (Seq (Chr (ci x)) (kw w))))) in
  search re pos (ds ++ gap ++ rest)
  = search re (pos + List.length ds + List.length gap) rest.
Proof.
  intros Hx Hds Hgap Hnod re.
  assert (Hgap_skip : forall pos,
            search re pos (gap ++ rest) = search re (pos + List.length gap) rest).
  { clear Hgap. induction Hnod as [|g gap Hg _ IH]; intros pos'.
    - cbn. now rewrite Nat.add_0_r.
    - cbn [app search]. subst re. unfold Plus. cbn [matchAt]. rewrite Hg.
      fold (Plus isDigit). rewrite IH. cbn [List.length]. f_equal. lia. }
  revert pos. induction Hds as [|c ds Hc Hds IH]; intros pos.
  - cbn [app List.length]. rewrite Nat.add_0_r. apply Hgap_skip.
  - cbn [app search]. rewrite IH. cbn [List.length].
    replace (S pos + List.length ds + List.length gap)
      with (pos + S (List.length ds) + List.length gap) by lia.
    subst re. unfold Plus. cbn [matchAt]. rewrite Hc.
    rewrite star_fails; [reflexivity | exact Hds | | ].
    + destruct gap as [|h gap]; [destruct Hgap|]. cbn. now inversion Hnod.
    + intros j Hj.
      assert (Hhead : exists c0 rest0,
                skipn j ds ++ gap ++ rest = c0 :: rest0
                /\ isSpace c0 = false /\ ci x c0 = false).
      { apply (allDigits_skipn j) in Hds. destruct Hds as [|c0 l Hc0 _].
        - destruct gap as [|h gap]; [destruct Hgap|].
          exists h, (gap ++ rest). cbn. repeat split; apply Hgap.
        - exists c0, (l ++ gap ++ rest). repeat split.
          + now apply digit_not_space.
          + now apply digit_not_letter. }
      destruct Hhead as (c0 & rest0 & -> & Hsp & Hm).
      rewrite star_stop by exact Hsp. cbn [matchAt]. now rewrite Hm.
Qed.

Lemma reMin_shape :
  reMin = Seq (Group 1 (Plus isDigit))
              (Seq (Star isSpace)
                   (Group 2 (Alt (Chr (ci "m")) (Seq (Chr (ci "m")) (kw "in"))))).
Proof. reflexivity. Qed.

Lemma reSec_shape :
  reSec = Seq (Group 1 (Plus isDigit))
              (Seq (Star isSpace)
                   (Group 2 (Alt (Chr (ci "s")) (Seq (Chr (ci "s")) (kw "ec"))))).
Proof. reflexivity. Qed.

(** Digits and then the letter, in either case: the pattern matches there,
    and takes the digits and the letter alone. *)
Lemma duration_search_match (x : ascii) (w : string) c ds a rest pos :
  isDigit c = true -> allDigits ds ->
  let re := Seq (Group 1 (Plus isDigit))
                (Seq (Star isSpace)
                     (Group 2 (Alt (Chr (ci x)) (Seq (Chr (ci x)) (kw w))))) in
  ci x a = true -> isSpace a = false -> isDigit a = false ->
  search re pos (c :: ds ++ a :: rest)
  = Some [(0, c :: ds ++ [a]); (2, [a]); (1, c :: ds)].
Proof.
  intros Hc Hds re Hxx Hxs Hxd.
  cbn [search]. subst re. unfold Plus. cbn [matchAt]. rewrite Hc.
  erewrite star_longest; [reflexivity | exact Hds | exact Hxd |].
  cbn [star]. rewrite Hxs, Hxx.
  replace (S (S pos + List.length ds) - (S pos + List.length ds)) with 1 by lia.
  replace (S pos + List.length ds - pos) with (S (List.length ds + 0)) by lia.
  replace (S (S pos + List.length ds) - pos) with (S (List.length ds + 1)) by lia.
  rewrite !firstn_past. cbn [firstn]. now rewrite app_nil_r.
Qed.

Lemma parseInt_group c ds (x : N) :
  isDigit c = true -> allDigits ds ->
  isDigit x = false -> x <> 120%N -> x <> 88%N ->
  parseInt (joinGroups [(0, c :: ds ++ [x]); (2, [x]); (1, c :: ds)] 0 2)
  = Fin (decimal (c :: ds)).
Proof.
  intros Hc Hds Hx H1 H2.
  cbn [joinGroups capture Nat.eqb].
  rewrite <- app_comm_cons, <- app_assoc.
  apply parseInt_digits; try assumption. cbn. now repeat split.
Qed.

(** The pattern for seconds finds nothing in a number of minutes, and the
    other way round. *)
Lemma reSec_fails_on_minutes c ds u us :
  isDigit c = true -> allDigits ds -> spelled u us = true -> isMinutes u ->
  search reSec 0 (c :: ds ++ us) = None.
Proof.
  intros Hc Hds Hsp Hu. rewrite reSec_shape.
  change (c :: ds ++ us) with ((c :: ds) ++ us).
  rewrite <- (app_nil_r us).
  rewrite (@duration_search_skip "s" "ec" (c :: ds) us [] 0);
    [reflexivity | reflexivity | now constructor | |].
  - spell Hsp; try destruct Hu; letters; now split.
  - apply (@unit_no_digit u us Hsp).
Qed.

Lemma reMin_fails_on_seconds c ds u us :
  isDigit c = true -> allDigits ds -> spelled u us = true -> isSeconds u ->
  search reMin 0 (c :: ds ++ us) = None.
Proof.
  intros Hc Hds Hsp Hu. rewrite reMin_shape.
  change (c :: ds ++ us) with ((c :: ds) ++ us).
  rewrite <- (app_nil_r us).
  rewrite (@duration_search_skip "m" "in" (c :: ds) us [] 0);
    [reflexivity | reflexivity | now constructor | |].
  - spell Hsp; try destruct Hu; letters; now split.
  - apply (@unit_no_digit u us Hsp).
Qed.

(** The first letter of a unit, as [parseDuration] meets it. *)
Lemma unit_first u us :
  spelled u us = true ->
  exists a r, us = a :: r
    /\ ci (if (unitSeconds u =? 60)%Z then "m"%char else "s"%char) a = true
    /\ isSpace a = false /\ isDigit a = false
    /\ a <> 120%N /\ a <> 88%N.
Proof.
  intros H. spell H; eexists _, _; (split; [reflexivity|]);
    (split; [eassumption|]); letters; repeat split; discriminate.
Qed.

(** [parseDuration] on a number and a unit: the number, times sixty for
    minutes. *)
Lemma parseDuration_unit c ds u us :
  isDigit c = true -> allDigits ds -> spelled u us = true ->
  parseDuration (c :: ds ++ us)
  = Fin (decimal (c :: ds) * unitSeconds u).
Proof.
  intros Hc Hds Hsp.
  destruct (@unit_first u us Hsp) as (a & r & E & Hci & Hs & Hd & H1 & H2).
  unfold parseDuration, match_.
  destruct u; cbn [unitSeconds Z.eqb Pos.eqb] in *.
  - rewrite (@reSec_fails_on_minutes c ds _ us Hc Hds Hsp I).
    rewrite reMin_shape, E.
    rewrite (@duration_search_match "m" "in" c ds a r 0 Hc Hds Hci Hs Hd).
    rewrite parseInt_group; try assumption. reflexivity.
  - rewrite (@reSec_fails_on_minutes c ds _ us Hc Hds Hsp I).
    rewrite reMin_shape, E.
    rewrite (@duration_search_match "m" "in" c ds a r 0 Hc Hds Hci Hs Hd).
    rewrite parseInt_group; try assumption. reflexivity.
  - rewrite (@reMin_fails_on_seconds c ds _ us Hc Hds Hsp I).
    rewrite reSec_shape, E.
    rewrite (@duration_search_match "s" "ec" c ds a r 0 Hc Hds Hci Hs Hd).
    rewrite parseInt_group; try assumption. cbn [nadd]. f_equal. lia.
  - rewrite (@reMin_fails_on_seconds c ds _ us Hc Hds Hsp I).
    rewrite reSec_shape, E.
    rewrite (@duration_search_match "s" "ec" c ds a r 0 Hc Hds Hci Hs Hd).
    rewrite parseInt_group; try assumption. cbn [nadd]. f_equal. lia.
Qed.

Lemma last_app_r (l l' : jsstring) d : l' <> [] -> last (l ++ l') d = last l' d.
Proof.
  intros H. induction l as [|x l IH]; [reflexivity|].
  cbn [app]. destruct (l ++ l') eqn:E.
  - destruct l; [cbn in E; congruence | discriminate].
  - cbn [last]. exact IH.
Qed.

(** [trim] leaves a text without white space at its ends as it is. *)
Lemma trim_id (s : jsstring) :
  stops isSpace s -> isSpace (last s 0%N) = false -> trim s = s.
Proof.
  intros Hh Hl. destruct s as [|h t]; [reflexivity|].
  unfold trim. cbn [trimStart]. cbn in Hh. rewrite Hh.
  unfold trimEnd.
  rewrite (@app_removelast_last _ (h :: t) 0%N) at 1 by discriminate.
  rewrite rev_unit. cbn [trimStart]. rewrite Hl.
  rewrite <- rev_unit, rev_involutive.
  symmetry. apply app_removelast_last. discriminate.
Qed.

Lemma trimmedName_trim nm : trimmedName nm -> trim nm = nm.
Proof. intros (_ & Hst & _ & Hl). now apply trim_id. Qed.

Lemma finishMatch_tail whole t nm pos caps :
  Tail t nm ->
  finishMatch whole pos t caps
  = Some ((0, firstn (pos + List.length t - 0) whole) :: tailCaps nm ++ caps).
Proof.
  intros [| w0 ws nm' Hw0 Hws Hnm]; unfold finishMatch.
  - rewrite name_skipped. cbn [List.length]. now rewrite Nat.add_0_r.
  - destruct Hnm as (Hne & Hst & Hdot & Hl).
    erewrite name_match; [reflexivity | exact Hw0 | exact Hws | exact Hst
                         | exact Hdot |].
    destruct nm' as [|n0 nm']; [congruence|].
    assert (E : S pos + List.length ws + List.length (n0 :: nm') - 0
                = pos + List.length (w0 :: ws ++ n0 :: nm') - 0).
    { cbn [List.length]. rewrite length_app. cbn [List.length]. lia. }
    rewrite E. reflexivity.
Qed.

Lemma finishMatch_letter whole (x : N) t pos caps :
  isSpace x = false -> finishMatch whole pos (x :: t) caps = None.
Proof.
  intros Hx. unfold finishMatch, reName, Plus. cbn [matchAt]. now rewrite Hx.
Qed.

(** The end of the pattern needs the end of a word before it. *)
Lemma finishMatch_word whole r pos caps :
  wordEnd true r = false -> finishMatch whole pos r caps = None.
Proof.
  destruct r as [|x r]; [discriminate|]. apply finishMatch_letter.
Qed.

Lemma Tail_last t nm (x : N) :
  Tail t nm -> isSpace x = false ->
  forall pre, isSpace (last (pre ++ x :: t) 0%N) = false.
Proof.
  intros [| w0 ws nm' Hw0 Hws (Hne & _ & _ & Hl)] Hx pre.
  - now rewrite last_last.
  - rewrite last_app_r by discriminate.
    change (x :: w0 :: ws ++ nm') with ((x :: w0 :: ws) ++ nm').
    now rewrite last_app_r.
Qed.

Lemma Tail_name t nm :
  Tail t nm ->
  match capture 2 (tailCaps nm) with
  | Some g => if truthy g then trim g else []
  | None => []
  end = nm.
Proof.
  intros [| w0 ws nm' Hw0 Hws Hnm]; [reflexivity|].
  destruct nm' as [|n0 nm']; [now destruct Hnm|].
  cbn [tailCaps capture Nat.eqb truthy]. now apply trimmedName_trim.
Qed.

(** The seconds part takes nothing of a tail whose name does not begin like
    one. *)
Lemma seconds_fail_tail (A : Type) t nm pos caps
      (k : nat -> jsstring -> captures -> option A) :
  Tail t nm -> beginsSeconds true nm = false ->
  (forall p r, wordEnd true r = false -> k p r caps = None) ->
  matchAt reSeconds pos t caps k = None.
Proof.
  intros [| w0 ws nm' Hw0 Hws Hnm] Hb Hk.
  - apply (@seconds_fail A [] []); [constructor | exact I].
  - change (w0 :: ws ++ nm') with ((w0 :: ws) ++ nm').
    apply seconds_fail_name with (bare := true);
      [exact Hk | now constructor | apply Hnm | exact Hb].
Qed.

Lemma activity_match_unit c ds u us t nm :
  isDigit c = true -> allDigits ds -> spelled u us = true ->
  Tail t nm -> beginsSeconds true nm = false ->
  match_ reActivity (c :: ds ++ us ++ t)
  = Some ((0, c :: ds ++ us ++ t) :: tailCaps nm ++ [(1, c :: ds ++ us)]).
Proof.
  intros Hc Hds Hsp Ht Hb.
  unfold match_. cbn [search]. rewrite reActivity_parts.
  unfold Plus. cbn [matchAt Nat.eqb]. rewrite Hc.
  set (whole := c :: ds ++ us ++ t).
  erewrite star_longest; [reflexivity | exact Hds | |].
  { destruct (@unit_head u us t Hsp) as (h & r & -> & _ & Hd). exact Hd. }
  rewrite star_stop.
  2:{ destruct (@unit_head u us t Hsp) as (h & r & -> & Hs & _). exact Hs. }
  apply unit_match with (u := u); [exact Hsp | |].
  - intros a r E Hr.
    destruct (@unit_rest u us a r Hsp E Hr) as (b & r' & -> & Hno).
    rewrite (@seconds_fail _ [] ((b :: r') ++ t));
      [ | constructor | exact Hno].
    apply (@finishMatch_letter whole). apply Hno.
  - rewrite (@seconds_fail_tail _ t nm);
      [ | exact Ht | exact Hb | intros p r Hr; now apply (@finishMatch_word whole)].
    etransitivity; [exact (finishMatch_tail whole _ _ Ht)|]. subst whole.
    rewrite firstn_digits_unit.
    rewrite firstn_all2; [reflexivity|].
    cbn [List.length]. rewrite !length_app. lia.
Qed.

(** A number and a unit in any letter case, then nothing or white space and
    a name: the activity lasts the number of seconds, or sixty times the
    number for minutes, and has that name (the empty one when there is
    none), as long as the name does not itself begin like a seconds part. *)
Theorem parseActivity_number_unit
        (c : N) (ds us t nm : jsstring) (u : DurUnit) :
  isDigit c = true -> allDigits ds -> spelled u us = true ->
  Tail t nm -> beginsSeconds true nm = false ->
  parseActivity (c :: ds ++ us ++ t)
  = Some {| name := nm;
            duration := Fin (decimal (c :: ds) * unitSeconds u) |}.
Proof.
  intros Hc Hds Hsp Ht Hb.
  unfold parseActivity.
  rewrite trim_id.
  - rewrite (@activity_match_unit c ds u us t nm Hc Hds Hsp Ht Hb).
    assert (H2 : capture 2 ((0, c :: ds ++ us ++ t)
                   :: tailCaps nm ++ [(1, c :: ds ++ us)])
                 = capture 2 (tailCaps nm)).
    { destruct nm; reflexivity. }
    assert (H1 : group 1 ((0, c :: ds ++ us ++ t)
                   :: tailCaps nm ++ [(1, c :: ds ++ us)])
                 = c :: ds ++ us).
    { destruct nm; reflexivity. }
    rewrite H2, H1, (Tail_name Ht), (@parseDuration_unit c ds u us Hc Hds Hsp).
    reflexivity.
  - cbn. now apply digit_not_space.
  - destruct (@unit_last u us Hsp) as (pre & x & -> & Hx).
    replace (c :: ds ++ (pre ++ [x]) ++ t)
      with ((c :: ds ++ pre) ++ x :: t)
      by (cbn [app]; now rewrite <- !app_assoc).
    now apply (@Tail_last t nm x Ht).
Qed.

Lemma parseActivity_number_unit_witness :
  parseActivity (str "5MIN stretch and walk")
  = Some {| name := str "stretch and walk"; duration := Fin 300 |}.
Proof.
  apply (@parseActivity_number_unit 53%N [] (str "MIN")
           (str " stretch and walk") (str "stretch and walk") UnitMin).
  - reflexivity.
  - constructor.
  - reflexivity.
  - apply (@TailName 32%N [] (str "stretch and walk")).
    + reflexivity.
    + constructor.
    + unfold trimmedName. repeat split; try discriminate.
      repeat constructor.
  - reflexivity.
Defined.

(** The optional seconds part on white space, a number and [s] or [sec]. *)
Lemma seconds_match (A : Type) ws c2 ds2 u us t pos caps
      (k : nat -> jsstring -> captures -> option A) x :
  blank ws -> isDigit c2 = true -> allDigits ds2 ->
  spelled u us = true -> isSeconds u ->
  (forall a r, us = a :: r -> r <> [] ->
               k (S (pos + List.length ws + S (List.length ds2))) (r ++ t) caps
               = None) ->
  k (pos + List.length ws + S (List.length ds2) + List.length us) t caps
  = Some x ->
  matchAt reSeconds pos (ws ++ c2 :: ds2 ++ us ++ t) caps k = Some x.
Proof.
  intros Hws Hc Hds Hsp Hus Hr Hk.
  unfold reSeconds. cbn [matchAt].
  erewrite star_longest; [reflexivity | exact Hws | |].
  { cbn. now apply digit_not_space. }
  change (c2 :: ds2 ++ us ++ t) with ((c2 :: ds2) ++ us ++ t).
  erewrite star_longest; [reflexivity | now constructor | |].
  { destruct (@unit_head u us t Hsp) as (h & r & -> & _ & Hd). exact Hd. }
  rewrite star_stop.
  2:{ destruct (@unit_head u us t Hsp) as (h & r & -> & Hs & _). exact Hs. }
  cbn [List.length]. unfold kw.
  spell Hsp; try destruct Hus;
    try (assert (Hbc := Hr a [b; c] eq_refl ltac:(discriminate)));
    cbn [list_ascii_of_string word matchAt app List.length] in *.
  - rewrite Ha. rewrite Nat.add_1_r in Hk. now rewrite Hk.
  - rewrite Ha, Hb, Hc0, Hbc. rewrite <- Hk. f_equal. lia.
Qed.

Lemma firstn_app_whole (l l' : jsstring) n :
  n = List.length l -> firstn (n - 0) (l ++ l') = l.
Proof. intros ->. rewrite Nat.sub_0_r. apply firstn_prefix. Qed.

Lemma activity_match_min_sec c1 ds1 u1 um ws c2 ds2 u2 us t nm :
  isDigit c1 = true -> allDigits ds1 -> spelled u1 um = true -> blank ws ->
  isDigit c2 = true -> allDigits ds2 -> spelled u2 us = true ->
  isSeconds u2 -> Tail t nm ->
  let g := c1 :: ds1 ++ um ++ ws ++ c2 :: ds2 ++ us in
  match_ reActivity (g ++ t)
  = Some ((0, g ++ t) :: tailCaps nm ++ [(1, g)]).
Proof.
  intros Hc1 Hds1 Hum Hws Hc2 Hds2 Hus Hsec Ht g.
  set (T := ws ++ c2 :: ds2 ++ us ++ t).
  assert (Hwhole : g ++ t = c1 :: ds1 ++ um ++ T).
  { subst g T. cbn [app]. f_equal. rewrite <- !app_assoc. cbn [app].
    now rewrite <- !app_assoc. }
  assert (Hlen : List.length g
                 = 1 + List.length ds1 + List.length um
                   + List.length ws + S (List.length ds2)
                   + List.length us).
  { subst g. cbn [List.length]. rewrite !length_app. cbn [List.length].
    rewrite length_app. lia. }
  unfold match_. rewrite Hwhole. cbn [search]. rewrite reActivity_parts.
  unfold Plus. cbn [matchAt Nat.eqb]. rewrite Hc1.
  rewrite <- Hwhole.
  erewrite star_longest; [reflexivity | exact Hds1 | |].
  { destruct (@unit_head u1 um T Hum) as (h & r & -> & _ & Hd). exact Hd. }
  rewrite star_stop.
  2:{ destruct (@unit_head u1 um T Hum) as (h & r & -> & Hs & _). exact Hs. }
  apply unit_match with (u := u1); [exact Hum | |].
  - intros a r E Hr.
    destruct (@unit_rest u1 um a r Hum E Hr) as (b & r' & -> & Hno).
    rewrite (@seconds_fail _ [] ((b :: r') ++ T));
      [ | constructor | exact Hno].
    apply (@finishMatch_letter (g ++ t)). apply Hno.
  - subst T. erewrite seconds_match; try eassumption; [reflexivity | |].
    + intros a r E Hr.
      destruct (@unit_rest u2 us a r Hus E Hr) as (b & r' & -> & Hno).
      apply (@finishMatch_letter (g ++ t)). apply Hno.
    + etransitivity; [exact (finishMatch_tail (g ++ t) _ _ Ht)|].
      rewrite <- Hlen.
      rewrite (@firstn_app_whole g t (List.length g) eq_refl).
      rewrite firstn_all2; [reflexivity|]. rewrite length_app. lia.
Qed.

Lemma reassoc_min_sec c1 ds1 (um ws : jsstring) c2 ds2 (us : jsstring) :
  c1 :: ds1 ++ um ++ ws ++ c2 :: ds2 ++ us
  = (c1 :: ds1) ++ (um ++ ws) ++ (c2 :: ds2 ++ us).
Proof. cbn [app]. now rewrite <- !app_assoc. Qed.

Lemma m_not_s a : ci "m" a = true -> ci "s" a = false.
Proof. intros H. letters; reflexivity. Qed.

Lemma parseDuration_min_sec c1 ds1 u1 um ws c2 ds2 u2 us :
  isDigit c1 = true -> allDigits ds1 -> spelled u1 um = true ->
  isMinutes u1 -> blank ws ->
  isDigit c2 = true -> allDigits ds2 -> spelled u2 us = true ->
  isSeconds u2 ->
  parseDuration (c1 :: ds1 ++ um ++ ws ++ c2 :: ds2 ++ us)
  = Fin (decimal (c1 :: ds1) * 60 + decimal (c2 :: ds2)).
Proof.
  intros Hc1 Hds1 Hum Hmin Hws Hc2 Hds2 Hus Hsec.
  destruct (@unit_first u1 um Hum) as (a1 & r1 & E1 & Hci1 & Hs1 & Hd1 & Hx1 & HX1).
  destruct (@unit_first u2 us Hus) as (a2 & r2 & E2 & Hci2 & Hs2 & Hd2 & Hx2 & HX2).
  assert (Hm : ci "m" a1 = true) by (destruct u1; try destruct Hmin; exact Hci1).
  assert (Hs : ci "s" a2 = true) by (destruct u2; try destruct Hsec; exact Hci2).
  unfold parseDuration, match_.
  assert (Hminm : search reMin 0 (c1 :: ds1 ++ um ++ ws ++ c2 :: ds2 ++ us)
                  = Some [(0, c1 :: ds1 ++ [a1]); (2, [a1]); (1, c1 :: ds1)]).
  { rewrite reMin_shape, E1. cbn [app]. now apply duration_search_match. }
  assert (Hsecm : search reSec 0 (c1 :: ds1 ++ um ++ ws ++ c2 :: ds2 ++ us)
                  = Some [(0, c2 :: ds2 ++ [a2]); (2, [a2]); (1, c2 :: ds2)]).
  { rewrite reassoc_min_sec, reSec_shape.
    rewrite duration_search_skip;
      [ | reflexivity | now constructor | | ].
    - rewrite E2. now apply duration_search_match.
    - rewrite E1. cbn [app]. split; [exact Hs1 | now apply m_not_s].
    - apply Forall_app. split.
      + apply (@unit_no_digit u1 um Hum).
      + revert Hws. apply Forall_impl. intros x. apply space_not_digit. }
  rewrite Hminm, Hsecm.
  rewrite !parseInt_group; try assumption. reflexivity.
Qed.

(** Minutes and seconds on one line, as in "1m30s" or "2MIN 5sec sprint",
    the units in any letter case: the activity lasts sixty times the first
    number plus the second, and has the name that follows, if any. *)
Theorem parseActivity_minutes_seconds
        (c1 c2 : N) (ds1 ds2 um us ws t nm : jsstring) (u1 u2 : DurUnit) :
  isDigit c1 = true -> allDigits ds1 -> spelled u1 um = true ->
  isMinutes u1 -> blank ws ->
  isDigit c2 = true -> allDigits ds2 -> spelled u2 us = true ->
  isSeconds u2 -> Tail t nm ->
  parseActivity ((c1 :: ds1 ++ um ++ ws ++ c2 :: ds2 ++ us) ++ t)
  = Some {| name := nm;
            duration := Fin (decimal (c1 :: ds1) * 60 + decimal (c2 :: ds2)) |}.
Proof.
  intros Hc1 Hds1 Hum Hmin Hws Hc2 Hds2 Hus Hsec Ht.
  unfold parseActivity.
  rewrite trim_id.
  - rewrite (@activity_match_min_sec c1 ds1 u1 um ws c2 ds2 u2 us t nm
               Hc1 Hds1 Hum Hws Hc2 Hds2 Hus Hsec Ht).
    set (g := c1 :: ds1 ++ um ++ ws ++ c2 :: ds2 ++ us).
    assert (H2 : capture 2 ((0, g ++ t) :: tailCaps nm ++ [(1, g)])
                 = capture 2 (tailCaps nm)).
    { destruct nm; reflexivity. }
    assert (H1 : group 1 ((0, g ++ t) :: tailCaps nm ++ [(1, g)]) = g).
    { destruct nm; reflexivity. }
    rewrite H2, H1, (Tail_name Ht). subst g.
    now rewrite (@parseDuration_min_sec c1 ds1 u1 um ws c2 ds2 u2 us).
  - cbn. now apply digit_not_space.
  - destruct (@unit_last u2 us Hus) as (pre & x & E & Hx).
    rewrite E.
    replace ((c1 :: ds1 ++ um ++ ws ++ c2 :: ds2 ++ pre ++ [x]) ++ t)
      with ((c1 :: ds1 ++ um ++ ws ++ c2 :: ds2 ++ pre) ++ x :: t).
    + now apply (@Tail_last t nm x Ht).
    + cbn [app]. f_equal. rewrite <- !app_assoc. cbn [app].
      rewrite <- !app_assoc. reflexivity.
Qed.

Lemma parseActivity_minutes_seconds_witness :
  parseActivity (str "2Min 5SEC sprint")
  = Some {| name := str "sprint"; duration := Fin 125 |}.
Proof.
  apply (@parseActivity_minutes_seconds 50%N 53%N [] [] (str "Min")
           (str "SEC") (str " ") (str " sprint") (str "sprint")
           UnitMin UnitSec).
  - reflexivity.
  - constructor.
  - reflexivity.
  - exact I.
  - repeat constructor.
  - reflexivity.
  - constructor.
  - reflexivity.
  - exact I.
  - apply (@TailName 32%N [] (str "sprint")).
    + reflexivity.
    + constructor.
    + unfold trimmedName. repeat split; try discriminate.
      repeat constructor.
Defined.

Lemma firstn_app_exact (l l' : jsstring) n :
  n = List.length l -> firstn n (l ++ l') = l.
Proof. intros ->. apply firstn_prefix. Qed.

Lemma skipn_app_exact (l l' : jsstring) n :
  n = List.length l -> skipn n (l ++ l') = l'.
Proof.
  intros ->. induction l as [|x l IH]; [reflexivity | exact IH].
Qed.

Lemma skipn_app_all (l l' : jsstring) n :
  List.length l + List.length l' <= n -> skipn n (l ++ l') = [].
Proof. intros H. apply skipn_all2. rewrite length_app. lia. Qed.

Lemma set_match c ds xc ws b0 bs :
  isDigit c = true -> allDigits ds -> ci "x" xc = true -> blank ws ->
  Forall (fun c => dot c = true) (b0 :: bs) ->
  let line := c :: ds ++ xc :: ws ++ N_of_ascii "(" :: b0 :: bs ++ str ")" in
  match_ reSet line = Some [(0, line); (2, b0 :: bs); (1, c :: ds)].
Proof.
  intros Hc Hds Hxc Hws Hbody line.
  assert (Hb0 : dot b0 = true) by (now inversion Hbody).
  assert (Hbs : Forall (fun c => dot c = true) bs) by (now inversion Hbody).
  assert (Hxd : isDigit xc = false).
  { unfold ci in Hxc. apply orb_prop in Hxc.
    destruct Hxc as [H|H]; apply N.eqb_eq in H; subst xc; reflexivity. }
  unfold match_. subst line. cbn [search].
  unfold reSet, Plus, kw. cbn [list_ascii_of_string word matchAt Nat.eqb].
  rewrite Hc.
  set (line := c :: ds ++ xc :: ws ++ N_of_ascii "(" :: b0 :: bs ++ str ")").
  erewrite star_longest; [reflexivity | exact Hds | exact Hxd |].
  rewrite Hxc.
  erewrite star_longest; [reflexivity | exact Hws | reflexivity |].
  change (lit "(" (N_of_ascii "(")) with true. cbv iota. rewrite Hb0.
  assert (Hpre : Forall (fun c => dot c = true) (bs ++ str ")")).
  { apply Forall_app. split; [exact Hbs | repeat constructor]. }
  rewrite <- (app_nil_r (bs ++ str ")")).
  erewrite (@star_backtrack _ dot (bs ++ str ")") [] _ _ Hpre I (List.length bs));
    [reflexivity | | | ].
  - rewrite length_app. cbn. lia.
  - intros j Hj. rewrite length_app in Hj. cbn [List.length str list_ascii_of_string map] in Hj.
    rewrite skipn_app_all by (cbn; lia). reflexivity.
  - rewrite (@skipn_app_exact bs (str ")") _ eq_refl). cbn [app str list_ascii_of_string map].
    change (lit ")" (N_of_ascii ")")) with true. cbv iota.
    assert (E1 : firstn (1 + List.length ds - 0) line = c :: ds).
    { subst line. replace (1 + List.length ds - 0) with (S (List.length ds + 0)) by lia.
      rewrite firstn_past. cbn [firstn]. now rewrite app_nil_r. }
    assert (E2 : firstn (S (S (S (1 + List.length ds) + List.length ws))
                           + List.length bs
                         - S (S (1 + List.length ds) + List.length ws))
                        (b0 :: (bs ++ [N_of_ascii ")"]) ++ [])
                 = b0 :: bs).
    { replace (S (S (S (1 + List.length ds) + List.length ws)) + List.length bs
               - S (S (1 + List.length ds) + List.length ws))
        with (S (List.length bs)) by lia.
      cbn [firstn]. f_equal. rewrite <- app_assoc. apply firstn_prefix. }
    rewrite E1, E2. rewrite firstn_all2; [reflexivity|].
    subst line. cbn [List.length]. rewrite length_app. cbn [List.length].
    rewrite length_app. cbn [List.length]. rewrite length_app. cbn. lia.
Qed.

Lemma parseInt_all_digits c ds :
  isDigit c = true -> allDigits ds -> parseInt (c :: ds) = Fin (decimal (c :: ds)).
Proof.
  intros Hc Hds. rewrite <- (app_nil_r ds) at 1.
  now apply parseInt_digits.
Qed.

(** A set line: a number, the letter x, an opening bracket, the items, and
    a closing bracket at the end.  The set repeats that number of times and
    holds the items that parse, in order; an item that does not parse is
    left out. *)
Theorem parseLine_set (c xc b0 : N) (ds ws bs : jsstring) :
  isDigit c = true -> allDigits ds -> ci "x" xc = true -> blank ws ->
  Forall (fun c => dot c = true) (b0 :: bs) ->
  parseLine (c :: ds ++ xc :: ws ++ N_of_ascii "(" :: b0 :: bs ++ str ")")
  = SetNode (Fin (decimal (c :: ds)))
            (filterBoolean
               (map parseActivity (split (N_of_ascii ",") (b0 :: bs)))).
Proof.
  intros Hc Hds Hxc Hws Hbody. unfold parseLine.
  rewrite (@set_match c ds xc ws b0 bs Hc Hds Hxc Hws Hbody).
  cbn [group capture Nat.eqb].
  now rewrite (@parseInt_all_digits c ds Hc Hds).
Qed.

Lemma parseLine_set_witness :
  parseLine (str "3x (1min run, oops, 30s rest)")
  = SetNode (Fin 3) [{| name := str "run"; duration := Fin 60 |};
                     {| name := str "rest"; duration := Fin 30 |}].
Proof.
  assert (E : SetNode (Fin 3) [{| name := str "run"; duration := Fin 60 |};
                               {| name := str "rest"; duration := Fin 30 |}]
              = SetNode (Fin (decimal (str "3")))
                  (filterBoolean
                     (map parseActivity
                        (split (N_of_ascii ",")
                               (str "1min run, oops, 30s rest")))))
    by (vm_compute; reflexivity).
  rewrite E.
  apply (@parseLine_set 51%N 120%N 49%N [] (str " ")
           (str "min run, oops, 30s rest")).
  - reflexivity.
  - constructor.
  - reflexivity.
  - repeat constructor.
  - repeat constructor.
Defined.

Lemma split_nonempty sep s : split sep s <> [].
Proof.
  destruct s as [|c s]; cbn; [discriminate|].
  destruct (c =? sep)%N; [discriminate|].
  destruct (split sep s); discriminate.
Qed.

Lemma split_app sep a b :
  split sep (a ++ sep :: b) = split sep a ++ split sep b.
Proof.
  induction a as [|c a IH].
  - cbn. now rewrite N.eqb_refl.
  - cbn [app split]. destruct (c =? sep)%N.
    + now rewrite IH.
    + rewrite IH. destruct (split sep a) as [|w ws] eqn:E.
      * now apply split_nonempty in E.
      * reflexivity.
Qed.

(** The lines of a text are parsed one by one: the plan of two texts joined
    by a line feed is the plan of the first followed by the plan of the
    second. *)
Theorem parseWorkout_lines (a b : jsstring) :
  parseWorkout (a ++ N_of_ascii "010" :: b) = parseWorkout a ++ parseWorkout b.
Proof.
  unfold parseWorkout.
  now rewrite split_app, map_app, filter_app, map_app, filter_app.
Qed.







(** ** The timer: restarts, pauses, the displays *)

Lemma seconds_quiet k st : timers st = [] -> seconds k st = (st, quiet k st).
Proof.
  intros Ht. induction k as [|k IH]; [reflexivity|].
  rewrite seconds_S, (second_quiet st Ht). cbn [state events].
  rewrite IH. reflexivity.
Qed.

(** At most one tick interval.  In every run from the first page load in
    which start is pressed only on workouts with whole durations, and not on
    an empty one while the timer runs, exactly one tick interval is live
    while the timer runs and none otherwise, and never more than one sample
    timeout: pressing start again and again cannot make the clock run
    fast. *)
Theorem one_tick_timer (acts : list Action) :
  allowedRun acts initial ->
  let st := fst (run acts initial) in
  List.length (tickTimers st) = (if isRunning st then 1 else 0)
  /\ List.length (sampleTimers st) <= 1.
Proof.
  intros Hall st.
  assert (HC : Canon st) by (apply Canon_run; [apply Canon_initial | exact Hall]).
  destruct HC as [tl i cur r e a c n Hg Hc Hr Hok Hlive
                 | tl i cur r e a n Hg Hc Hr | st' Hrn Hpa Ht].
  - unfold tickTimers, sampleTimers, runningAt. cbn [timers isRunning].
    destruct c as [[b d]|]; cbn; split; lia.
  - unfold tickTimers, sampleTimers, pausedAt. cbn [timers isRunning].
    cbn. split; lia.
  - unfold tickTimers, sampleTimers. rewrite Hrn, Ht. cbn. split; lia.
Qed.

Lemma one_tick_timer_witness :
  let st := fst (run [ClickStart (str "10s a
5s b"); Second; ClickStart (str "10s a
5s b"); Second] initial) in
  List.length (tickTimers st) = (if isRunning st then 1 else 0)
  /\ List.length (sampleTimers st) <= 1.
Proof.
  apply (@one_tick_timer [ClickStart (str "10s a
5s b"); Second; ClickStart (str "10s a
5s b"); Second]).
  assert (E : flattenWorkout (parseWorkout (str "10s a
5s b"))
      = [plainStep (Some {| name := str "a"; duration := Fin 10 |});
         plainStep (Some {| name := str "b"; duration := Fin 5 |})])
    by (vm_compute; reflexivity).
  cbn [allowedRun allowed]. rewrite E.
  assert (G : goodTimeline
                [plainStep (Some {| name := str "a"; duration := Fin 10 |});
                 plainStep (Some {| name := str "b"; duration := Fin 5 |})]).
  { apply Forall_cons; [exists 10%Z; split; [reflexivity | discriminate]|].
    apply Forall_cons; [exists 5%Z; split; [reflexivity | discriminate]|].
    apply Forall_nil. }
  repeat split; try (right; split; [exact G | intros _; discriminate]).
Defined.

(** While the timer is paused, stopped or finished, time changes nothing:
    after any such run that ends with the timer not running, the seconds
    that pass leave every variable as it is and nothing is shown or
    played. *)
Theorem idle_time_changes_nothing (acts : list Action) (k : nat) :
  allowedRun acts initial ->
  isRunning (fst (run acts initial)) = false ->
  seconds k (fst (run acts initial))
  = (fst (run acts initial), quiet k (fst (run acts initial))).
Proof.
  intros Hall Hrun. apply seconds_quiet.
  assert (HC : Canon (fst (run acts initial)))
    by (apply Canon_run; [apply Canon_initial | exact Hall]).
  destruct HC as [tl i cur r e a c n Hg Hc Hr Hok Hlive
                 | tl i cur r e a n Hg Hc Hr | st' Hrn Hpa Ht].
  - discriminate.
  - reflexivity.
  - exact Ht.
Qed.

Lemma idle_time_changes_nothing_witness :
  seconds 30 (fst (run [ClickStart (str "10s a"); Second; ClickPause] initial))
  = (fst (run [ClickStart (str "10s a"); Second; ClickPause] initial),
     quiet 30 (fst (run [ClickStart (str "10s a"); Second; ClickPause] initial))).
Proof.
  apply (@idle_time_changes_nothing
           [ClickStart (str "10s a"); Second; ClickPause] 30).
  - assert (E : flattenWorkout (parseWorkout (str "10s a"))
        = [plainStep (Some {| name := str "a"; duration := Fin 10 |})])
      by (vm_compute; reflexivity).
    cbn [allowedRun allowed]. rewrite E.
    repeat split. right. split; [|intros _; discriminate].
    apply Forall_cons; [exists 10%Z; split; [reflexivity | discriminate]|].
    apply Forall_nil.
  - vm_compute. reflexivity.
Defined.

Lemma run_app l1 l2 st :
  run (l1 ++ l2) st
  = (fst (run l2 (fst (run l1 st))),
     snd (run l1 st) ++ snd (run l2 (fst (run l1 st)))).
Proof.
  revert st. induction l1 as [|a l1 IH]; intros st.
  - cbn. now destruct (run l2 st).
  - cbn [app run]. rewrite IH.
    destruct (run l1 (state (step a st))). reflexivity.
Qed.

Lemma step_pause_running tl i r e a c n :
  (forall b d, c = Some (b, d) -> b <> a) ->
  step ClickPause (runningAt tl i r e a c n)
  = {| value := Some tt; state := pausedAt tl i r e a n;
       events := [Controls false true] |}.
Proof.
  intros H.
  cbv beta iota delta [step callback clickPause bind get isRunning runningAt].
  fold (runningAt tl i r e a c n).
  rewrite (@pause_runningAt tl i r e a c n H). reflexivity.
Qed.

Lemma step_start_paused tl i r e a n input :
  step (ClickStart input) (pausedAt tl i r e a n)
  = {| value := Some tt; state := enteredAt tl i r e n;
       events := entryPlay (cueMode tl i r) ++ [Controls true false] |}.
Proof.
  cbv beta iota delta [step callback clickStart bind get isPaused pausedAt].
  fold (pausedAt tl i r e a n).
  rewrite (@resume_pausedAt tl i r e a n). reflexivity.
Qed.

(** Pause, wait, resume.  From a running timer, pressing pause, letting any
    number of seconds pass and pressing start resumes where the timer
    stopped: same step, same remaining and elapsed seconds, the cue derived
    anew from the remaining seconds.  The paused seconds show nothing, and
    the text in the input box is not read. *)
Theorem pause_wait_resume tl i r e a c n (k : nat) (input : jsstring) :
  cueOk r a c ->
  let st := runningAt tl i r e a c n in
  let res := run (ClickPause :: repeat Second k ++ [ClickStart input]) st in
  fst res = enteredAt tl i r e n
  /\ map snd (snd res)
     = [Controls false true] :: repeat [] k
       ++ [entryPlay (cueMode tl i r) ++ [Controls true false]].
Proof.
  intros Hok st res. subst res st.
  assert (Hab : forall b d, c = Some (b, d) -> b <> a).
  { intros b d ->. apply Hok. }
  cbn [run]. rewrite (step_pause_running tl i r e n Hab). cbn [state events].
  rewrite run_app. fold (seconds k (pausedAt tl i r e a n)).
  rewrite (@seconds_quiet k (pausedAt tl i r e a n) eq_refl).
  cbn [fst snd run]. rewrite step_start_paused. cbn [state events fst snd].
  split; [reflexivity|].
  cbn [map snd]. f_equal. rewrite map_app. cbn [map snd]. f_equal.
  unfold quiet. induction k as [|k IH]; [reflexivity|]. cbn. now rewrite IH.
Qed.

Lemma pause_wait_resume_witness :
  let a := plainStep (Some {| name := str "a"; duration := Fin 10 |}) in
  let b := plainStep (Some {| name := str "b"; duration := Fin 5 |}) in
  let st := runningAt [a; b] 0 6 4 1 (Some (2, 3)) 3 in
  let res := run (ClickPause :: repeat Second 60 ++ [ClickStart (str "1s z")])
                 st in
  fst res = enteredAt [a; b] 0 6 4 3
  /\ map snd (snd res)
     = [Controls false true] :: repeat [] 60
       ++ [entryPlay (cueMode [a; b] 0 6) ++ [Controls true false]].
Proof.
  apply (@pause_wait_resume
           [plainStep (Some {| name := str "a"; duration := Fin 10 |});
            plainStep (Some {| name := str "b"; duration := Fin 5 |})]
           0 6 4 1 (Some (2, 3)) 3 60 (str "1s z")).
  unfold cueOk. split; [reflexivity | split; [reflexivity | discriminate]].
Defined.

Lemma run_final tl :
  goodTimeline tl ->
  forall later earlier cur, tl = earlier ++ cur :: later ->
  forall r e a c n, (0 <= r)%Z -> cueOk r a c ->
  exists a' n',
    fst (seconds (S (Z.to_nat r) + restTicks false later)
                 (runningAt tl (List.length earlier) r e a c n))
    = finishedAt tl (List.length tl) 0 (e + r + counted false later) a' n'.
Proof.
  intros Hgood. induction later as [|nxt later IH];
    intros earlier cur Htl r e a c n Hr Hok.
  - set (i := List.length earlier).
    assert (Hcur : nth_error tl i = Some cur).
    { subst tl i. now rewrite nth_error_app2, Nat.sub_diag by lia. }
    assert (Hlen : List.length tl = S i).
    { subst tl i. rewrite length_app. cbn. lia. }
    cbn [restTicks counted]. replace (S (Z.to_nat r) + 0) with (Z.to_nat r + 1) by lia.
    rewrite seconds_add. cbn [fst].
    destruct (@countdown_run tl i cur a n Hcur (Z.to_nat r) r e c ltac:(lia) Hok)
      as (Hst & _). rewrite Hst.
    rewrite seconds_S, (@second_finish tl i 0 (e + r) a n) by (lia || assumption).
    cbn [state events fst snd seconds repeat run].
    exists a, n. rewrite Hlen. f_equal. lia.
  - set (i := List.length earlier).
    assert (Hcur : nth_error tl i = Some cur).
    { subst tl i. now rewrite nth_error_app2, Nat.sub_diag by lia. }
    assert (Hnxt : nth_error tl (S i) = Some nxt).
    { subst tl i. rewrite nth_error_app2 by lia.
      now replace (S (List.length earlier) - List.length earlier) with 1 by lia. }
    destruct (@good_nth tl (S i) nxt Hgood Hnxt) as (Hd & Hd0).
    cbn [restTicks counted].
    set (r' := entry false nxt).
    replace (S (Z.to_nat r) + (S (Z.to_nat r') + restTicks false later))
      with (Z.to_nat r + (1 + (S (Z.to_nat r') + restTicks false later))) by lia.
    rewrite seconds_add. cbn [fst].
    destruct (@countdown_run tl i cur a n Hcur (Z.to_nat r) r e c ltac:(lia) Hok)
      as (Hst & _). rewrite Hst.
    cbn [Nat.add]. rewrite seconds_S.
    rewrite (@second_advance tl i 0 (e + r) a n nxt) by (lia || assumption).
    fold r'. cbn [state events fst snd]. unfold enteredAt.
    assert (Htl' : tl = (earlier ++ [cur]) ++ nxt :: later).
    { now rewrite <- app_assoc. }
    assert (Hi' : List.length (earlier ++ [cur]) = S i).
    { rewrite length_app. cbn. lia. }
    assert (Hr' : (0 <= r')%Z) by (unfold r', entry; lia).
    destruct (IH (earlier ++ [cur]) nxt Htl' r' (e + r)%Z n
                 (entrySched (cueMode tl (S i) r') r' n)
                 (entryNext (cueMode tl (S i) r') n) Hr'
                 (cueOk_entered tl (S i) r' n))
      as (a' & n' & Hfin).
    rewrite Hi' in Hfin. cbn [Nat.add] in Hfin.
    exists a', n'. rewrite Hfin. f_equal. lia.
Qed.

Lemma counted_ticks first l :
  Z.of_nat (restTicks first l)
  = (counted first l + Z.of_nat (List.length l))%Z.
Proof.
  revert first. induction l as [|a l IH]; intros first; [reflexivity|].
  cbn [restTicks counted List.length]. specialize (IH false).
  assert (0 <= entry first a)%Z by (unfold entry; lia). lia.
Qed.

Lemma counted_later l :
  Forall (fun a => (1 <= dur a)%Z) l ->
  counted false l = (totalDuration l - Z.of_nat (List.length l))%Z.
Proof.
  induction 1 as [|a l Ha _ IH]; [reflexivity|].
  cbn [counted totalDuration map fold_right List.length].
  unfold totalDuration in IH. rewrite IH. unfold entry. lia.
Qed.

(** The elapsed time shown when a run ends.  [tick] does not count the second
    in which it calls [next], so every step after the first adds one second
    less than its duration. *)
Theorem elapsed_at_finish (input : jsstring) (st0 : TimerState)
        (cur : TimelineStep) (later : list TimelineStep) :
  flattenWorkout (parseWorkout input) = cur :: later ->
  goodTimeline (cur :: later) -> owned st0 ->
  let tl := cur :: later in
  let fin := fst (seconds (ticksToFinish tl) (state (start input st0))) in
  isFinished fin
  /\ elapsed fin = counted true tl
  /\ Z.of_nat (ticksToFinish tl) = (elapsed fin + Z.of_nat (List.length tl))%Z
  /\ (Forall (fun a => (1 <= dur a)%Z) later ->
      elapsed fin = (totalDuration tl - Z.of_nat (List.length later))%Z).
Proof.
  intros Htl Hgood Ho tl fin. subst fin.
  assert (Hcur : nth_error tl 0 = Some cur) by reflexivity.
  assert (Hg : goodStep cur) by (now inversion Hgood).
  destruct (@goodStep_dur cur Hg) as (Hd & Hd0).
  rewrite (@start_spec input st0 tl cur Htl Hcur Hd Ho).
  cbn [state]. unfold enteredAt.
  assert (Hr : (0 <= entry true cur)%Z) by (unfold entry; lia).
  destruct (@run_final tl Hgood later [] cur eq_refl (entry true cur) 0%Z
              (nextId st0)
              (entrySched (cueMode tl 0 (entry true cur)) (entry true cur)
                          (nextId st0))
              (entryNext (cueMode tl 0 (entry true cur)) (nextId st0))
              Hr (cueOk_entered tl 0 (entry true cur) (nextId st0)))
    as (a' & n' & Hfin).
  cbn [List.length] in Hfin.
  unfold ticksToFinish.
  change (restTicks true tl)
    with (S (Z.to_nat (entry true cur)) + restTicks false later).
  rewrite Hfin.
  assert (He : elapsed (finishedAt tl (List.length tl) 0
                 (0 + entry true cur + counted false later) a' n')
               = counted true tl).
  { cbn [elapsed finishedAt]. subst tl. cbn [counted]. lia. }
  split; [now apply isFinished_finishedAt|].
  split; [exact He|]. rewrite He. split.
  - change (S (Z.to_nat (entry true cur)) + restTicks false later)
      with (restTicks true tl).
    apply counted_ticks.
  - intros H1. subst tl. cbn [counted totalDuration map fold_right].
    rewrite (counted_later H1). unfold totalDuration, entry. lia.
Qed.

Lemma elapsed_at_finish_witness :
  let input := str "10s a
5s b" in
  let a := plainStep (Some {| name := str "a"; duration := Fin 10 |}) in
  let b := plainStep (Some {| name := str "b"; duration := Fin 5 |}) in
  let tl := [a; b] in
  let fin := fst (seconds (ticksToFinish tl) (state (start input initial))) in
  isFinished fin
  /\ elapsed fin = counted true tl
  /\ Z.of_nat (ticksToFinish tl) = (elapsed fin + Z.of_nat (List.length tl))%Z
  /\ (Forall (fun a => (1 <= dur a)%Z) [b] ->
      elapsed fin = (totalDuration tl - Z.of_nat (List.length [b]))%Z).
Proof.
  apply (@elapsed_at_finish (str "10s a
5s b") initial
          (plainStep (Some {| name := str "a"; duration := Fin 10 |}))
          [plainStep (Some {| name := str "b"; duration := Fin 5 |})]).
  - vm_compute. reflexivity.
  - apply Forall_cons; [exists 10%Z; split; [reflexivity | discriminate]|].
    apply Forall_cons; [exists 5%Z; split; [reflexivity | discriminate]|].
    apply Forall_nil.
  - intros t [].
Defined.

Lemma owned_initial : owned initial.
Proof. intros t []. Qed.

(** [start] begins at the top whatever the timer was doing: the timers the
    program held are cancelled, [index] and [elapsed] go back to 0,
    [remaining] is the duration of the first step, one tick interval runs,
    and the page shows what it shows on a first start. *)
Theorem start_from_any_state (input : jsstring) (st0 : TimerState)
        (cur : TimelineStep) (later : list TimelineStep) :
  flattenWorkout (parseWorkout input) = cur :: later ->
  goodStep cur -> owned st0 ->
  let r := start input st0 in
  value r = Some tt
  /\ events r = events (start input initial)
  /\ state r = enteredAt (cur :: later) 0 (dur cur) 0 (nextId st0)
  /\ timeline (state r) = cur :: later
  /\ index (state r) = 0 /\ elapsed (state r) = 0%Z
  /\ remaining (state r) = stepDuration cur
  /\ isRunning (state r) = true /\ isPaused (state r) = false
  /\ tickTimers (state r) = [tickTimer (nextId st0)]
  /\ List.length (sampleTimers (state r)) <= 1.
Proof.
  intros Htl Hg Ho.
  destruct (@goodStep_dur cur Hg) as (Hd & Hd0).
  assert (Hcur : nth_error (cur :: later) 0 = Some cur) by reflexivity.
  cbv zeta.
  rewrite (@start_spec input initial _ cur Htl Hcur Hd owned_initial).
  rewrite (@start_spec input st0 _ cur Htl Hcur Hd Ho).
  assert (He : entry true cur = dur cur) by (unfold entry; lia).
  rewrite He, Hd. cbn [value state events].
  unfold enteredAt, runningAt, shown, tickTimers, sampleTimers.
  cbn [timeline index elapsed remaining isRunning isPaused timers].
  repeat split.
  - destruct (cueMode (cur :: later) 0 (dur cur)); reflexivity.
  - destruct (cueMode (cur :: later) 0 (dur cur)); cbn; lia.
Qed.

Lemma start_from_any_state_witness :
  let input := str "10s a
5s b" in
  let a := plainStep (Some {| name := str "a"; duration := Fin 10 |}) in
  let b := plainStep (Some {| name := str "b"; duration := Fin 5 |}) in
  let st0 := runningAt [b; a; b] 2 1 18 7 None 8 in
  let r := start input st0 in
  value r = Some tt
  /\ events r = events (start input initial)
  /\ state r = enteredAt [a; b] 0 (dur a) 0 (nextId st0)
  /\ timeline (state r) = [a; b]
  /\ index (state r) = 0 /\ elapsed (state r) = 0%Z
  /\ remaining (state r) = stepDuration a
  /\ isRunning (state r) = true /\ isPaused (state r) = false
  /\ tickTimers (state r) = [tickTimer (nextId st0)]
  /\ List.length (sampleTimers (state r)) <= 1.
Proof.
  apply (@start_from_any_state (str "10s a
5s b")
          (runningAt [plainStep (Some {| name := str "b"; duration := Fin 5 |});
                      plainStep (Some {| name := str "a"; duration := Fin 10 |});
                      plainStep (Some {| name := str "b"; duration := Fin 5 |})]
                     2 1 18 7 None 8)
          (plainStep (Some {| name := str "a"; duration := Fin 10 |}))
          [plainStep (Some {| name := str "b"; duration := Fin 5 |})]).
  - vm_compute. reflexivity.
  - exists 10%Z. split; [reflexivity | discriminate].
  - intros t [<-|[]]. left. reflexivity.
Defined.

Lemma fold_durations (l : list TimelineStep) (acc : Z) :
  goodTimeline l ->
  fold_left (fun s a => nadd s (stepDuration a)) l (Fin acc)
  = Fin (acc + totalDuration l).
Proof.
  intros H. revert acc. induction H as [|a l Ha _ IH]; intros acc.
  - cbn. f_equal. lia.
  - destruct (@goodStep_dur a Ha) as (Hd & _).
    cbn [fold_left]. rewrite Hd. cbn [nadd]. rewrite IH.
    cbn [totalDuration map fold_right]. unfold totalDuration. f_equal. lia.
Qed.

Lemma skipn_nth {A} (l : list A) i x :
  nth_error l i = Some x -> skipn i l = x :: skipn (S i) l.
Proof.
  revert i. induction l as [|y l IH]; intros [|i] H; try discriminate.
  - now inversion H.
  - cbn [skipn]. cbn in H. rewrite (IH i H). reflexivity.
Qed.

Lemma good_skipn tl i : goodTimeline tl -> goodTimeline (skipn i tl).
Proof.
  intros H. revert i. induction H as [|a l Ha Hl IH]; intros [|i]; cbn;
    try constructor; auto.
Qed.

(** What [updateUI] writes as the total remaining time: the seconds left in
    the current step plus the durations of all later steps. *)
Theorem updateUI_total_remaining (st : TimerState) (cur : TimelineStep) (r : Z) :
  goodTimeline (timeline st) ->
  nth_error (timeline st) (index st) = Some cur ->
  remaining st = Fin r ->
  exists nm iv,
    updateUI st
    = {| value := Some tt; state := st;
         events := [Snapshot (Fin r) nm iv (elapsed st)
                      (Fin (r + totalDuration (skipn (S (index st)) (timeline st))))] |}.
Proof.
  intros Hg Hc Hr.
  destruct (@good_nth _ _ _ Hg Hc) as (Hd & _).
  exists (option_map name (activity cur)),
    (match interval cur with
     | Some r0 => if (r0 =? 0)%Z then None else Some (r0, intervalTotal cur)
     | None => None
     end).
  unfold updateUI. unfold bind, get, emit. rewrite Hc.
  cbn [value state events app]. rewrite Hr, Hd.
  unfold sumFrom.
  rewrite (@fold_durations _ 0 (good_skipn (index st) Hg)).
  rewrite (skipn_nth _ _ Hc). cbn [totalDuration map fold_right nsub].
  unfold totalDuration.
  replace (0 + (dur cur
                + fold_right Z.add 0
                    (map dur (skipn (S (index st)) (timeline st))))
           - (dur cur - r))%Z
    with (r + fold_right Z.add 0
                (map dur (skipn (S (index st)) (timeline st))))%Z by lia.
  reflexivity.
Qed.

Lemma updateUI_total_remaining_witness :
  let a := plainStep (Some {| name := str "a"; duration := Fin 10 |}) in
  let b := plainStep (Some {| name := str "b"; duration := Fin 5 |}) in
  let st := runningAt [a; b; b] 0 4 6 1 (Some (2, 1)) 3 in
  exists nm iv,
    updateUI st
    = {| value := Some tt; state := st;
         events := [Snapshot (Fin 4) nm iv (elapsed st)
                      (Fin (4 + totalDuration (skipn (S (index st)) (timeline st))))] |}.
Proof.
  apply (@updateUI_total_remaining
           (runningAt [plainStep (Some {| name := str "a"; duration := Fin 10 |});
                       plainStep (Some {| name := str "b"; duration := Fin 5 |});
                       plainStep (Some {| name := str "b"; duration := Fin 5 |})]
                      0 4 6 1 (Some (2, 1)) 3)
           (plainStep (Some {| name := str "a"; duration := Fin 10 |})) 4).
  - apply Forall_cons; [exists 10%Z; split; [reflexivity | discriminate]|].
    apply Forall_cons; [exists 5%Z; split; [reflexivity | discriminate]|].
    apply Forall_cons; [exists 5%Z; split; [reflexivity | discriminate]|].
    apply Forall_nil.
  - reflexivity.
  - reflexivity.
Defined.

Lemma second_stuck tl i e a n cur :
  nth_error tl i = Some cur ->
  second (stuckAt tl i e a n)
  = {| value := Some tt; state := stuckAt tl i (e + 1) a n;
       events := [shown (stuckAt tl i (e + 1) a n) cur; Pulse] |}.
Proof.
  intros Hc. unfold stuckAt.
  mcbv. change (1 <=? 1) with true.
  repeat (mcbv; rewrite ?Nat.eqb_refl, ?Hc). reflexivity.
Qed.

Lemma second_advance_nan tl i r e a n cur :
  (r <= 0)%Z -> nth_error tl (S i) = Some cur -> stepDuration cur = NaN ->
  second (runningAt tl i r e a None n)
  = {| value := Some tt; state := stuckAt tl (S i) e n (S n);
       events := [shown (stuckAt tl (S i) e n (S n)) cur] |}.
Proof.
  intros Hr Hc Hd.
  assert (Hr0 : (r <=? 0)%Z = true) by (apply Z.leb_le; lia).
  assert (Hlen : (List.length tl <=? S i) = false).
  { apply Nat.leb_gt. apply nth_error_Some. congruence. }
  unfold stuckAt.
  destruct (Z.of_nat (S i) <? Z.of_nat (List.length tl) - 1)%Z eqn:El;
    mcbv; change (1 <=? 1) with true;
    repeat (mcbv; rewrite ?Nat.eqb_refl, ?Hr0, ?Hc, ?Hlen, ?Hd, ?El).
  all: reflexivity.
Qed.

Lemma startActivity_nan st sub cur :
  owned st -> nth_error (timeline st) (index st) = Some cur ->
  stepDuration cur = NaN ->
  isRunning st = true -> isPaused st = false ->
  startActivity sub st
  = {| value := Some tt;
       state := stuckAt (timeline st) (index st) (elapsed st) (nextId st)
                        (S (nextId st));
       events := [shown (stuckAt (timeline st) (index st) (elapsed st)
                                 (nextId st) (S (nextId st))) cur] |}.
Proof.
  destruct st as [tl i r0 e iid sid rn pa tms nid]. unfold owned.
  cbn [timers intervalId sampleTimeoutId timeline index isRunning isPaused elapsed nextId].
  intros Ho Hc Hd -> ->.
  assert (Hcl := @owned_cleared iid sid tms Ho).
  unfold stuckAt.
  destruct sub;
  (destruct (Z.of_nat i <? Z.of_nat (List.length tl) - 1)%Z eqn:El);
    destruct iid as [a|]; destruct sid as [b|]; cbn beta iota in Hcl;
    (cbv beta iota zeta delta [negb tid] in Hcl);
    unfold startActivity, clearSampleTimeout, clearTimer.
  all: repeat (mcbv0; rewrite ?Hc, ?Hcl, ?Hd; mcbv0;
               rewrite ?El; cbn [app]).
  all: reflexivity.
Qed.

Lemma start_nan input st0 tl cur :
  flattenWorkout (parseWorkout input) = tl ->
  nth_error tl 0 = Some cur -> stepDuration cur = NaN ->
  owned st0 ->
  start input st0
  = {| value := Some tt;
       state := stuckAt tl 0 0 (nextId st0) (S (nextId st0));
       events := [shown (stuckAt tl 0 0 (nextId st0) (S (nextId st0))) cur;
                  Controls true false] |}.
Proof.
  intros Htl Hc Hd Ho.
  destruct st0 as [tl0 i r0 e iid sid rn pa tms nid].
  assert (Hlen : (List.length tl =? 0) = false).
  { destruct tl; [discriminate|reflexivity]. }
  unfold start.
  cbv beta iota zeta delta
    [bind ret get modify set_timeline set_index set_elapsed set_isRunning
     set_isPaused timeline index remaining elapsed intervalId sampleTimeoutId
     isRunning isPaused timers nextId].
  rewrite Htl, Hlen.
  rewrite (@startActivity_nan _ false cur); try assumption; reflexivity.
Qed.

Lemma stuck_forever tl i cur a n :
  nth_error tl i = Some cur ->
  forall k e,
    fst (seconds k (stuckAt tl i e a n)) = stuckAt tl i (e + Z.of_nat k) a n
    /\ Forall stillRunning (snd (seconds k (stuckAt tl i e a n))).
Proof.
  intros Hc. induction k as [|k IH]; intros e.
  - cbn. split; [f_equal; lia | constructor].
  - rewrite seconds_S, (@second_stuck tl i e a n cur Hc). cbn [state events fst snd].
    destruct (IH (e + 1)%Z) as (H1 & H2). split.
    + rewrite H1. f_equal. lia.
    + constructor; [|exact H2]. split; reflexivity.
Qed.

Lemma within_stillRunning i log : Forall (within i) log -> Forall stillRunning log.
Proof.
  induction 1 as [|en log (_ & Hr & Hd) _ IH]; constructor; auto. now split.
Qed.

(** From a step of the good part of the timeline the run reaches the step
    without a duration and stays running on the way. *)
Lemma run_to_nan tl bad :
  stepDuration bad = NaN ->
  forall mid earlier cur later,
    tl = earlier ++ cur :: mid ++ bad :: later -> goodTimeline mid ->
  forall r e a c n, (0 <= r)%Z -> cueOk r a c ->
  let k := S (Z.to_nat r) + restTicks false mid in
  let res := seconds k (runningAt tl (List.length earlier) r e a c n) in
  (exists e' a' n',
     fst res = stuckAt tl (S (List.length earlier + List.length mid)) e' a' n')
  /\ Forall stillRunning (snd res).
Proof.
  intros Hbad. induction mid as [|nxt mid IH];
    intros earlier cur later Htl Hgood r e a c n Hr Hok.
  - set (i := List.length earlier).
    assert (Hcur : nth_error tl i = Some cur).
    { subst tl i. now rewrite nth_error_app2, Nat.sub_diag by lia. }
    assert (Hnxt : nth_error tl (S i) = Some bad).
    { subst tl i. rewrite nth_error_app2 by lia.
      now replace (S (List.length earlier) - List.length earlier) with 1 by lia. }
    cbn [restTicks List.length]. replace (S (Z.to_nat r) + 0) with (Z.to_nat r + 1) by lia.
    cbv zeta. rewrite seconds_add. cbn [fst snd].
    destruct (@countdown_run tl i cur a n Hcur (Z.to_nat r) r e c ltac:(lia) Hok)
      as (Hst & Hw & _). rewrite Hst.
    rewrite seconds_S, (@second_advance_nan tl i 0 (e + r) a n bad)
      by (lia || assumption).
    cbn [state events fst snd seconds repeat run]. split.
    + exists (e + r)%Z, n, (S n). now rewrite Nat.add_0_r.
    + apply Forall_app. split; [now apply (@within_stillRunning i)|].
      constructor; [|constructor]. split; reflexivity.
  - set (i := List.length earlier).
    assert (Hcur : nth_error tl i = Some cur).
    { subst tl i. now rewrite nth_error_app2, Nat.sub_diag by lia. }
    assert (Hnxt : nth_error tl (S i) = Some nxt).
    { subst tl i. rewrite nth_error_app2 by lia.
      now replace (S (List.length earlier) - List.length earlier) with 1 by lia. }
    assert (Hg : goodStep nxt) by (now inversion Hgood).
    assert (Hgm : goodTimeline mid) by (now inversion Hgood).
    destruct (@goodStep_dur nxt Hg) as (Hd & Hd0).
    cbn [restTicks].
    set (r' := entry false nxt).
    replace (S (Z.to_nat r) + (S (Z.to_nat r') + restTicks false mid))
      with (Z.to_nat r + (1 + (S (Z.to_nat r') + restTicks false mid))) by lia.
    cbv zeta. rewrite seconds_add. cbn [fst snd].
    destruct (@countdown_run tl i cur a n Hcur (Z.to_nat r) r e c ltac:(lia) Hok)
      as (Hst & Hw & _). rewrite Hst.
    cbn [Nat.add]. rewrite seconds_S.
    rewrite (@second_advance tl i 0 (e + r) a n nxt) by (lia || assumption).
    fold r'. cbn [state events fst snd]. unfold enteredAt.
    assert (Htl' : tl = (earlier ++ [cur]) ++ nxt :: mid ++ bad :: later).
    { now rewrite <- app_assoc. }
    assert (Hi' : List.length (earlier ++ [cur]) = S i).
    { rewrite length_app. cbn. lia. }
    assert (Hr' : (0 <= r')%Z) by (unfold r', entry; lia).
    destruct (IH (earlier ++ [cur]) nxt later Htl' Hgm r' (e + r)%Z n
                 (entrySched (cueMode tl (S i) r') r' n)
                 (entryNext (cueMode tl (S i) r') n) Hr'
                 (cueOk_entered tl (S i) r' n))
      as ((e' & a' & n' & Hfin) & Hrun).
    rewrite Hi' in *. cbn [Nat.add] in Hfin, Hrun. split.
    + exists e', a', n'. rewrite Hfin. cbn [List.length]. f_equal. lia.
    + apply Forall_app. split; [now apply (@within_stillRunning i)|].
      constructor; [|exact Hrun].
      split; [reflexivity|]. cbn [snd].
      destruct (cueMode tl (S i) r'); reflexivity.
Qed.

Lemma endOf_running st log :
  isRunning st = true -> Forall stillRunning log ->
  isRunning (endOf st log) = true.
Proof.
  intros H0 H. revert st H0. induction H as [|en log (Hr & _) _ IH]; intros st H0.
  - exact H0.
  - cbn [endOf]. now apply IH.
Qed.

(** A line that does not parse leaves a step without a duration in the
    timeline.  A run reaches it after the steps before it, and never leaves
    it: every second after that the timer is still running in that step with
    [remaining] equal to [NaN], and [finish] is never called. *)
Theorem unparsed_step_never_ends (input : jsstring) (st0 : TimerState)
        (earlier later : list TimelineStep) (bad : TimelineStep) (k : nat) :
  flattenWorkout (parseWorkout input) = earlier ++ bad :: later ->
  goodTimeline earlier -> stepDuration bad = NaN -> owned st0 ->
  let res := seconds k (state (start input st0)) in
  isRunning (fst res) = true
  /\ Forall stillRunning (snd res)
  /\ (restTicks true earlier <= k ->
      index (fst res) = List.length earlier /\ remaining (fst res) = NaN).
Proof.
  intros Htl Hgood Hbad Ho.
  set (tl := earlier ++ bad :: later) in *.
  destruct earlier as [|cur mid].
  - (* the first line does not parse *)
    assert (Hc : nth_error tl 0 = Some bad) by reflexivity.
    cbv zeta. rewrite (@start_nan input st0 tl bad Htl Hc Hbad Ho).
    cbn [state].
    destruct (@stuck_forever tl 0 bad (nextId st0) (S (nextId st0)) Hc k 0%Z)
      as (Hst & Hlog).
    rewrite Hst. repeat split; assumption.
  - assert (Hc : nth_error tl 0 = Some cur) by reflexivity.
    assert (Hg : goodStep cur) by (now inversion Hgood).
    assert (Hgm : goodTimeline mid) by (now inversion Hgood).
    destruct (@goodStep_dur cur Hg) as (Hd & Hd0).
    cbv zeta. rewrite (@start_spec input st0 tl cur Htl Hc Hd Ho).
    cbn [state]. unfold enteredAt.
    set (r := entry true cur).
    set (c := entrySched (cueMode tl 0 r) r (nextId st0)).
    set (n := entryNext (cueMode tl 0 r) (nextId st0)).
    set (st := runningAt tl 0 r 0 (nextId st0) c n).
    assert (Hr : (0 <= r)%Z) by (unfold r, entry; lia).
    destruct (@run_to_nan tl bad Hbad mid [] cur later eq_refl Hgm r 0%Z
                (nextId st0) c n Hr (cueOk_entered tl 0 r (nextId st0)))
      as ((e' & a' & n' & Hfin) & Hrun).
    cbn [List.length] in Hfin, Hrun. fold st in Hfin, Hrun.
    change (S (0 + List.length mid)) with (S (List.length mid)) in Hfin.
    change (restTicks true (cur :: mid))
      with (S (Z.to_nat r) + restTicks false mid).
    set (T := S (Z.to_nat r) + restTicks false mid) in *.
    assert (Hnb : nth_error tl (S (List.length mid)) = Some bad).
    { subst tl. cbn [app nth_error].
      now rewrite nth_error_app2, Nat.sub_diag by lia. }
    destruct (Nat.le_gt_cases T k) as [Hle|Hgt].
    + replace k with (T + (k - T)) by lia.
      rewrite seconds_add. cbn [fst snd]. rewrite Hfin.
      destruct (@stuck_forever tl _ bad a' n' Hnb (k - T) e') as (Hst & Hlog).
      rewrite Hst. split; [reflexivity|]. split.
      * apply Forall_app. now split.
      * intros _. now split.
    + assert (Hk : Forall stillRunning (snd (seconds k st))).
      { replace T with (k + (T - k)) in Hrun by lia.
        rewrite seconds_add in Hrun. cbn [snd] in Hrun.
        apply Forall_app in Hrun. apply Hrun. }
      split; [|split; [exact Hk | lia]].
      rewrite <- seconds_end. now apply endOf_running.
Qed.

Lemma unparsed_step_never_ends_witness :
  let input := str "2s a
hello
5s b" in
  let a := plainStep (Some {| name := str "a"; duration := Fin 2 |}) in
  let res := seconds 1000 (state (start input initial)) in
  isRunning (fst res) = true
  /\ Forall stillRunning (snd res)
  /\ (restTicks true [a] <= 1000 ->
      index (fst res) = List.length [a] /\ remaining (fst res) = NaN).
Proof.
  apply (@unparsed_step_never_ends (str "2s a
hello
5s b") initial
          [plainStep (Some {| name := str "a"; duration := Fin 2 |})]
          [plainStep (Some {| name := str "b"; duration := Fin 5 |})]
          (plainStep None) 1000).
  - vm_compute. reflexivity.
  - apply Forall_cons; [exists 2%Z; split; [reflexivity | discriminate]|].
    apply Forall_nil.
  - reflexivity.
  - intros t [].
Defined.

Lemma filter_all {A} (f : A -> bool) (l : list A) :
  (forall x, In x l -> f x = true) -> filter f l = l.
Proof.
  induction l as [|x l IH]; intros H; cbn; [reflexivity|].
  rewrite (H x (or_introl eq_refl)), IH; [reflexivity|].
  intros y Hy. apply H. now right.
Qed.

Lemma filter_again {A} (f g : A -> bool) (l : list A) :
  filter f (filter g (filter f l)) = filter g (filter f l).
Proof.
  apply filter_all. intros x Hx.
  apply filter_In in Hx. destruct Hx as [Hx _].
  apply filter_In in Hx. apply Hx.
Qed.

Lemma filter_twice {A} (f : A -> bool) (l : list A) :
  filter f (filter f l) = filter f l.
Proof. apply filter_all. intros x Hx. apply filter_In in Hx. apply Hx. Qed.

(** Stopping twice is stopping once: the second [stop] finds nothing to
    cancel, changes no variable and writes the same texts again. *)
Theorem stop_twice (st : TimerState) :
  stop (state (stop st))
  = {| value := Some tt; state := state (stop st); events := events (stop st) |}.
Proof.
  destruct st as [tl i r e iid sid rn pa tms nid].
  unfold stop, clearSampleTimeout, clearTimer, updateControls. unfold_m.
  destruct iid as [a|]; destruct sid as [b|]; cbn;
    rewrite ?filter_again, ?filter_twice; reflexivity.
Qed.


Lemma padStart2_two (n : nat) :
  n < 60 ->
  padStart2 (showInt (Z.of_nat n))
  = String (digitChar (Z.of_nat n / 10))
      (String (digitChar (Z.of_nat n mod 10)) EmptyString).
Proof.
  intros H.
  do 60 (destruct n as [|n]; [vm_compute; reflexivity|]).
  lia.
Qed.

(** For a time that is not negative [format] writes the whole minutes, a
    colon, and the seconds below sixty with exactly two digits. *)
Theorem format_minutes_seconds (z : Z) :
  (0 <= z)%Z ->
  format (Fin z)
  = (showInt (z / 60) ++ ":"
     ++ String (digitChar (z mod 60 / 10))
          (String (digitChar (z mod 60 mod 10)) EmptyString))%string.
Proof.
  intros H. unfold format.
  rewrite Z.rem_mod_nonneg by lia.
  assert (Hs : (0 <= z mod 60 < 60)%Z) by (apply Z.mod_pos_bound; lia).
  rewrite <- (Z2Nat.id (z mod 60)) by lia.
  rewrite padStart2_two by lia. reflexivity.
Qed.

Lemma format_minutes_seconds_witness :
  format (Fin 3725)
  = (showInt (3725 / 60) ++ ":"
     ++ String (digitChar (3725 mod 60 / 10))
          (String (digitChar (3725 mod 60 mod 10)) EmptyString))%string.
Proof. apply (@format_minutes_seconds 3725). discriminate. Defined.

(** ** Sound *)

Module AudioFacts.
Import Audio.

Lemma ensure_usable b st :
  usable (audioCtx st) = true -> ensureAudioContext b st = (true, st, []).
Proof.
  intros H. unfold ensureAudioContext, bind, get, ret. now rewrite H.
Qed.

(** What [ensureAudioContext] leaves: a context that can be used exactly
    when it answers with one, and the buffer untouched. *)
Lemma ensure_after b st :
  usable (audioCtx (after (ensureAudioContext b st)))
  = result (ensureAudioContext b st)
  /\ sampleBuffer (after (ensureAudioContext b st)) = sampleBuffer st
  /\ fetched (requests (ensureAudioContext b st)) = []
  /\ played (requests (ensureAudioContext b st)) = []
  /\ (result (ensureAudioContext b st) = true
      <-> usable (audioCtx st) = true \/ constructs b = true).
Proof.
  unfold ensureAudioContext, bind, get, ret, emit, setCtx.
  destruct st as [[[]|] buf]; cbn;
    destruct (constructs b), (startsRunning b), (resumes b); cbn;
    repeat split; auto; try tauto; intros [H|H]; discriminate.
Qed.

Lemma tryCandidates_spec b urls st :
  let r := tryCandidates b urls st in
  result r = find (decodes b) urls
  /\ audioCtx (after r) = audioCtx st
  /\ sampleBuffer (after r)
     = match find (decodes b) urls with
       | Some url => Some url
       | None => sampleBuffer st
       end
  /\ fetched (requests r) = asked b urls
  /\ played (requests r) = []
  /\ existsb isContextCall (requests r) = false.
Proof.
  induction urls as [|url rest IH]; cbn zeta.
  - destruct st. cbn. repeat split.
  - cbn [tryCandidates find asked]. unfold decodes at 1 3 5.
    unfold bind at 1. unfold emit at 1.
    cbn zeta in IH. destruct IH as (I1 & I2 & I3 & I4 & I5 & I6).
    destruct (respond b url) eqn:E;
      unfold bind, emit, setBuffer, ret; cbn;
      try (destruct (tryCandidates b rest st) as [[v st'] evs] eqn:Er;
           cbn in *; repeat split; try assumption; now f_equal).
Qed.

Lemma ensure_result b st :
  result (ensureAudioContext b st) = orb (usable (audioCtx st)) (constructs b).
Proof.
  destruct (ensure_after b st) as (_ & _ & _ & _ & [H1 H2]).
  destruct (result (ensureAudioContext b st)).
  - destruct (H1 eq_refl) as [-> | ->]; [reflexivity | now rewrite orb_true_r].
  - destruct (usable (audioCtx st));
      [discriminate (H2 (or_introl eq_refl))|].
    destruct (constructs b); [discriminate (H2 (or_intror eq_refl))|].
    reflexivity.
Qed.

Lemma loadSample_eq b st :
  loadSample b st
  = let '(ctx, st1, ev1) := ensureAudioContext b st in
    if ctx then
      match sampleBuffer st1 with
      | Some buf => (Some buf, st1, ev1)
      | None =>
          let '(v, st2, ev2) := tryCandidates b candidates st1 in
          (v, st2, ev1 ++ ev2)
      end
    else (None, st1, ev1).
Proof.
  unfold loadSample, bind at 1.
  destruct (ensureAudioContext b st) as [[ctx st1] ev1].
  destruct ctx; cbn [negb]; unfold ret, bind, get.
  - destruct (sampleBuffer st1); [now rewrite app_nil_r|].
    destruct (tryCandidates b candidates st1) as [[v st2] ev2]. reflexivity.
  - now rewrite app_nil_r.
Qed.

Lemma fetched_app e1 e2 : fetched (e1 ++ e2) = fetched e1 ++ fetched e2.
Proof. apply flat_map_app. Qed.

Lemma played_app e1 e2 : played (e1 ++ e2) = played e1 ++ played e2.
Proof. apply flat_map_app. Qed.

Lemma loadSample_spec b st :
  let r := loadSample b st in
  let ok := orb (usable (audioCtx st)) (constructs b) in
  result r
  = (if ok then
       match sampleBuffer st with
       | Some buf => Some buf
       | None => find (decodes b) candidates
       end
     else None)
  /\ usable (audioCtx (after r)) = ok
  /\ sampleBuffer (after r)
     = (if ok then
          match sampleBuffer st with
          | Some buf => Some buf
          | None => find (decodes b) candidates
          end
        else sampleBuffer st)
  /\ fetched (requests r)
     = (if ok then
          match sampleBuffer st with
          | Some _ => []
          | None => asked b candidates
          end
        else [])
  /\ played (requests r) = []
  /\ (usable (audioCtx st) = true ->
      audioCtx (after r) = audioCtx st
      /\ existsb isContextCall (requests r) = false).
Proof.
  cbv zeta. rewrite loadSample_eq.
  destruct (ensure_after b st) as (E1 & E2 & E3 & E4 & _).
  assert (E0 := ensure_result b st).
  assert (EU : usable (audioCtx st) = true ->
               ensureAudioContext b st = (true, st, [])).
  { apply ensure_usable. }
  destruct (ensureAudioContext b st) as [[ctx st1] ev1].
  unfold result, after, requests in *. cbn [fst snd] in *.
  rewrite <- E0. destruct ctx.
  - rewrite E2.
    destruct (sampleBuffer st) as [buf|] eqn:Eb.
    + cbn [fst snd]. repeat split; auto.
      all: match goal with
           | H : usable (audioCtx _) = true |- _ =>
               specialize (EU H); inversion EU; subst; reflexivity
           end.
    + destruct (tryCandidates_spec b candidates st1)
        as (I1 & I2 & I3 & I4 & I5 & I6).
      cbv zeta in I1, I2, I3, I4, I5, I6.
      destruct (tryCandidates b candidates st1) as [[v st2] ev2].
      unfold result, after, requests in *. cbn [fst snd] in *.
      rewrite fetched_app, played_app, E3, E4, I2, I3, I4, I5, E2.
      repeat split; auto.
      * destruct (find (decodes b) candidates); reflexivity.
      * match goal with
        | H : usable (audioCtx _) = true |- _ =>
            specialize (EU H); now inversion EU; subst
        end.
      * match goal with
        | H : usable (audioCtx _) = true |- _ =>
            specialize (EU H); inversion EU; subst; exact I6
        end.
  - cbn [fst snd]. repeat split; auto.
    all: match goal with
         | H : usable (audioCtx _) = true |- _ =>
             specialize (EU H); discriminate
         end.
Qed.

(** [loadSample] with no buffer yet.  When a context exists or can be made,
    the candidates are asked for in order up to the first that decodes, that
    buffer is the result and is kept in [sampleBuffer]; when none decodes
    the result is [null].  Without a context nothing is asked for. *)
Theorem loadSample_first_candidate (b : Browser) (st : AudioState) :
  sampleBuffer st = None ->
  let r := loadSample b st in
  if usable (audioCtx st) || constructs b then
    result r = find (decodes b) candidates
    /\ sampleBuffer (after r) = result r
    /\ fetched (requests r) = asked b candidates
  else
    result r = None /\ sampleBuffer (after r) = None
    /\ fetched (requests r) = [].
Proof.
  intros Hb r.
  destruct (loadSample_spec b st) as (H1 & _ & H3 & H4 & _).
  cbv zeta in H1, H3, H4. fold r in H1, H3, H4.
  rewrite Hb in H1, H3, H4.
  destruct (usable (audioCtx st) || constructs b).
  - repeat split; try assumption. now rewrite H1, H3.
  - now repeat split.
Qed.

Lemma loadSample_first_candidate_witness :
  let b := {| constructs := true; startsRunning := false; resumes := true;
              respond := fun url =>
                if String.eqb url "sound.wav" then NotOk else Decodes;
              nodesWork := true |} in
  let r := loadSample b initialAudio in
  if usable (audioCtx initialAudio) || constructs b then
    result r = find (decodes b) candidates
    /\ sampleBuffer (after r) = result r
    /\ fetched (requests r) = asked b candidates
  else
    result r = None /\ sampleBuffer (after r) = None
    /\ fetched (requests r) = [].
Proof.
  apply (@loadSample_first_candidate
           {| constructs := true; startsRunning := false; resumes := true;
              respond := fun url =>
                if String.eqb url "sound.wav" then NotOk else Decodes;
              nodesWork := true |} initialAudio).
  reflexivity.
Defined.

(** What a call does once a context exists and the sample is loaded. *)
Lemma call_cached b c st buf :
  usable (audioCtx st) = true -> sampleBuffer st = Some buf ->
  after (call b c st) = st
  /\ fetched (requests (call b c st)) = []
  /\ existsb isContextCall (requests (call b c st)) = false
  /\ Forall (fun x => x = buf) (played (requests (call b c st))).
Proof.
  intros Hu Hb.
  assert (He := ensure_usable b st Hu).
  assert (Hl : loadSample b st = (Some buf, st, [])).
  { rewrite loadSample_eq, He, Hb. reflexivity. }
  destruct c; unfold call, unlockAudioGesture, playSample,
    beep, startSource; unfold bind, get, ret, emit;
    rewrite ?He; cbn [negb]; rewrite ?Hb, ?Hl, ?He; cbn [negb];
    rewrite ?Hl;
    unfold after, requests; cbn [fst snd app].
  all: repeat match goal with
       | |- context [nodesWork ?b] => destruct (nodesWork b)
       | |- context [match audioCtx ?s with _ => _ end] =>
           destruct (audioCtx s) as [[]|]
       end; try discriminate; rewrite ?Hl; cbn; repeat split; auto.
Qed.

Lemma calls_app_events l st :
  forall b c,
    calls ((b, c) :: l) st
    = (tt, after (calls l (after (call b c st))),
       requests (call b c st) ++ requests (calls l (after (call b c st)))).
Proof.
  intros b c. cbn [calls]. unfold bind.
  destruct (call b c st) as [[[] st1] ev1].
  unfold after, requests. cbn [fst snd].
  destruct (calls l st1) as [[[] st2] ev2]. reflexivity.
Qed.

(** Once a context exists and the sample is loaded, no call into the sound
    code asks for a file, makes or resumes a context, or changes the two
    variables; and whatever is played is the loaded sample. *)
Theorem sample_loaded_once (l : list (Browser * Call)) (st : AudioState)
        (buf : string) :
  usable (audioCtx st) = true -> sampleBuffer st = Some buf ->
  let r := calls l st in
  after r = st
  /\ fetched (requests r) = []
  /\ existsb isContextCall (requests r) = false
  /\ Forall (fun x => x = buf) (played (requests r)).
Proof.
  intros Hu Hb. induction l as [|[b c] l IH]; cbv zeta.
  - cbn. repeat split. constructor.
  - rewrite calls_app_events.
    destruct (call_cached b c st Hu Hb) as (C1 & C2 & C3 & C4).
    rewrite C1. cbv zeta in IH. destruct IH as (I1 & I2 & I3 & I4).
    unfold after, requests in *. cbn [fst snd].
    rewrite fetched_app, played_app, existsb_app, C2, C3, I2, I3.
    repeat split; auto. apply Forall_app. now split.
Qed.

Lemma sample_loaded_once_witness :
  let quiet := {| constructs := false; startsRunning := false;
                  resumes := false; respond := fun _ => FetchRejects;
                  nodesWork := true |} in
  let st := {| audioCtx := Some Suspended; sampleBuffer := Some "sound.wav"%string |} in
  let r := calls [(quiet, CallPlay); (quiet, CallUnlock); (quiet, CallPlay)]
                 st in
  after r = st
  /\ fetched (requests r) = []
  /\ existsb isContextCall (requests r) = false
  /\ Forall (fun x => x = "sound.wav"%string) (played (requests r)).
Proof.
  apply (@sample_loaded_once
           [({| constructs := false; startsRunning := false;
                resumes := false; respond := fun _ => FetchRejects;
                nodesWork := true |}, CallPlay);
            ({| constructs := false; startsRunning := false;
                resumes := false; respond := fun _ => FetchRejects;
                nodesWork := true |}, CallUnlock);
            ({| constructs := false; startsRunning := false;
                resumes := false; respond := fun _ => FetchRejects;
                nodesWork := true |}, CallPlay)]
           {| audioCtx := Some Suspended; sampleBuffer := Some "sound.wav"%string |}
           "sound.wav"%string); reflexivity.
Defined.

Lemma keeps_ret T (x : T) : keepsContext (ret x).
Proof. intros st _. now split. Qed.

Lemma keeps_get : keepsContext get.
Proof. intros st _. now split. Qed.

Lemma keeps_emit e : isContextCall e = false -> keepsContext (emit e).
Proof. intros He st _. cbn. now rewrite He. Qed.

Lemma keeps_setBuffer buf : keepsContext (setBuffer buf).
Proof. intros st _. now split. Qed.

Lemma keeps_bind T U (m : Sound T) (f : T -> Sound U) :
  keepsContext m -> (forall x, keepsContext (f x)) -> keepsContext (bind m f).
Proof.
  intros Hm Hf st Hu. unfold bind.
  destruct (Hm st Hu) as (M1 & M2).
  destruct (m st) as [[x st1] ev1]. unfold after, requests in M1, M2.
  cbn [fst snd] in M1, M2.
  assert (Hu1 : usable (audioCtx st1) = true) by (now rewrite M1).
  destruct (Hf x st1 Hu1) as (F1 & F2).
  destruct (f x st1) as [[y st2] ev2]. unfold after, requests in *.
  cbn [fst snd] in *. rewrite existsb_app, M2, F2.
  split; [now rewrite F1 | reflexivity].
Qed.

Lemma keeps_ensure b : keepsContext (ensureAudioContext b).
Proof. intros st Hu. now rewrite (ensure_usable b st Hu). Qed.

Lemma keeps_tryCandidates b urls : keepsContext (tryCandidates b urls).
Proof.
  intros st _. destruct (tryCandidates_spec b urls st) as (_ & H2 & _ & _ & _ & H6).
  now split.
Qed.

Ltac keeps :=
  repeat first
    [ apply keeps_ret | apply keeps_get | apply keeps_setBuffer
    | apply keeps_ensure | apply keeps_tryCandidates
    | apply keeps_emit; reflexivity
    | apply keeps_bind; [|intros ?]
    | match goal with
      | |- keepsContext (if ?c then _ else _) => destruct c
      | |- keepsContext (match ?x with _ => _ end) => destruct x
      end ].

Lemma keeps_loadSample b : keepsContext (loadSample b).
Proof. unfold loadSample. keeps. Qed.

Lemma keeps_call b c : keepsContext (call b c).
Proof.
  destruct c; unfold call, unlockAudioGesture, playSample,
    beep, startSource; keeps; apply keeps_loadSample.
Qed.

(** A context that exists is the one every later call uses: no call makes
    another context, and none calls [resume] on it again. *)
Theorem context_is_shared (l : list (Browser * Call)) (st : AudioState) :
  usable (audioCtx st) = true ->
  audioCtx (after (calls l st)) = audioCtx st
  /\ existsb isContextCall (requests (calls l st)) = false.
Proof.
  revert st. change (keepsContext (calls l)).
  induction l as [|[b c] l IH]; cbn [calls].
  - apply keeps_ret.
  - apply keeps_bind; [apply keeps_call | intros _; exact IH].
Qed.

Lemma context_is_shared_witness :
  let offline := {| constructs := true; startsRunning := true;
                    resumes := true; respond := fun _ => FetchRejects;
                    nodesWork := true |} in
  let st := {| audioCtx := Some Suspended; sampleBuffer := None |} in
  let l := [(offline, CallPlay); (offline, CallBeep 440 230);
            (offline, CallUnlock)] in
  audioCtx (after (calls l st)) = audioCtx st
  /\ existsb isContextCall (requests (calls l st)) = false.
Proof.
  apply (@context_is_shared
           [({| constructs := true; startsRunning := true;
                resumes := true; respond := fun _ => FetchRejects;
                nodesWork := true |}, CallPlay);
            ({| constructs := true; startsRunning := true;
                resumes := true; respond := fun _ => FetchRejects;
                nodesWork := true |}, CallBeep 440 230);
            ({| constructs := true; startsRunning := true;
                resumes := true; respond := fun _ => FetchRejects;
                nodesWork := true |}, CallUnlock)]
           {| audioCtx := Some Suspended; sampleBuffer := None |}).
  reflexivity.
Defined.

Lemma playSample_eq b st :
  playSample b st
  = let '(ctx, st1, ev1) := ensureAudioContext b st in
    if ctx then
      match sampleBuffer st1 with
      | Some x => (tt, st1, ev1 ++ (if nodesWork b then [Play x] else []))
      | None =>
          let '(v, st2, ev2) := loadSample b st1 in
          (tt, st2,
           ev1 ++ ev2 ++ match v with
                         | Some x => if nodesWork b then [Play x] else []
                         | None => []
                         end)
      end
    else (tt, st1, ev1).
Proof.
  unfold playSample, bind at 1.
  destruct (ensureAudioContext b st) as [[ctx st1] ev1].
  destruct ctx; cbn [negb]; unfold ret, bind, get, startSource.
  - destruct (sampleBuffer st1).
    + destruct (nodesWork b); reflexivity.
    + destruct (loadSample b st1) as [[v st2] ev2].
      destruct v; [destruct (nodesWork b)|]; reflexivity.
  - now rewrite app_nil_r.
Qed.

(** [playSample] starts at most one source.  It plays when a context exists
    or can be made and the node calls go through: the loaded sample if there
    is one, without asking for a file; otherwise the first candidate that
    decodes, if any. *)
Theorem playSample_outcome (b : Browser) (st : AudioState) :
  let r := playSample b st in
  played (requests r)
  = (if (usable (audioCtx st) || constructs b) && nodesWork b then
       match sampleBuffer st with
       | Some buf => [buf]
       | None => match find (decodes b) candidates with
                 | Some url => [url]
                 | None => []
                 end
       end
     else [])
  /\ fetched (requests r)
     = (if usable (audioCtx st) || constructs b then
          match sampleBuffer st with
          | Some _ => []
          | None => asked b candidates
          end
        else []).
Proof.
  cbv zeta. rewrite playSample_eq.
  destruct (ensure_after b st) as (E1 & E2 & E3 & E4 & _).
  assert (E0 := ensure_result b st).
  destruct (ensureAudioContext b st) as [[ctx st1] ev1].
  unfold result, after, requests in *. cbn [fst snd] in *.
  rewrite <- E0. destruct ctx; cbn [negb andb].
  - rewrite E2.
    destruct (sampleBuffer st) as [buf|] eqn:Eb.
    + cbn [snd]. rewrite fetched_app, played_app, E3, E4.
      destruct (nodesWork b); now split.
    + destruct (loadSample_spec b st1) as (L1 & _ & _ & L4 & L5 & _).
      cbv zeta in L1, L4, L5. rewrite E1, E2 in L1, L4. cbn [orb] in L1, L4.
      destruct (loadSample b st1) as [[v st2] ev2].
      unfold result, after, requests in *. cbn [fst snd] in *. subst v.
      rewrite !fetched_app, !played_app, E3, E4, L4, L5.
      destruct (find (decodes b) candidates) as [url|];
        destruct (nodesWork b); cbn; rewrite ?app_nil_r; now split.
  - cbn [snd]. now split.
Qed.

(** The unlock on a context that is already running returns at once: it
    starts no oscillator, asks for no file and changes nothing, however
    often it is called. *)
Theorem unlock_when_running (bs : list Browser) (buf : option string) :
  let st := {| audioCtx := Some Running; sampleBuffer := buf |} in
  calls (map (fun b => (b, CallUnlock)) bs) st = (tt, st, []).
Proof.
  cbv zeta. induction bs as [|b bs IH]; [reflexivity|].
  cbn [map calls]. unfold bind at 1. cbn [call].
  unfold unlockAudioGesture, ensureAudioContext, bind at 1 2, get, ret.
  cbn. rewrite IH. reflexivity.
Qed.

End AudioFacts.

(** ** The earlier variant *)

Lemma earlier_reActivity_parts :
  Earlier.reActivity
  = Seq Bos
      (Seq (Group 1 (Seq (Plus isDigit)
                    (Seq (Star isSpace) (Seq reUnit (Opt reSeconds)))))
           (Seq (Plus isSpace) (Seq (Group 2 (Star dot)) Eos))).
Proof. reflexivity. Qed.

(** A pattern that begins with [^] matches at the start or not at all. *)
Lemma search_anchored r pos s : search (Seq Bos r) (S pos) s = None.
Proof.
  revert pos. induction s as [|c s IH]; intros pos; cbn [search matchAt Nat.eqb].
  - reflexivity.
  - apply IH.
Qed.

(** No alternative of the unit matches when the rest of the pattern fails
    after each of them. *)
Lemma unit_fails (A : Type) u us pos caps
      (k : nat -> jsstring -> captures -> option A) :
  spelled u us = true ->
  (forall p, k p [] caps = None) ->
  (forall p a r, us = a :: r -> k p r caps = None) ->
  matchAt reUnit pos us caps k = None.
Proof.
  intros Hsp H0 Hr. unfold reUnit, kw.
  spell Hsp;
    try (assert (Hbc := fun p => Hr p a [b; c] eq_refl));
    cbn [list_ascii_of_string word matchAt];
    try rewrite (m_not_s _ Ha); try rewrite (s_not_m _ Ha);
    rewrite ?Ha, ?Hb, ?Hc, ?H0, ?Hbc; reflexivity.
Qed.

Lemma unit_fails_digit (A : Type) d t pos caps
      (k : nat -> jsstring -> captures -> option A) :
  isDigit d = true -> matchAt reUnit pos (d :: t) caps k = None.
Proof.
  intros Hd. unfold reUnit, kw. cbn [list_ascii_of_string word matchAt].
  rewrite (@digit_not_letter d "m"), (@digit_not_letter d "s");
    try assumption; reflexivity.
Qed.

Lemma earlier_match_unnamed c ds u us :
  isDigit c = true -> allDigits ds -> spelled u us = true ->
  match_ Earlier.reActivity (c :: ds ++ us) = None.
Proof.
  intros Hc Hds Hsp. unfold match_. rewrite earlier_reActivity_parts.
  cbn [search]. rewrite search_anchored.
  replace (match ds ++ us with [] => None | _ :: _ => None end)
    with (@None captures) by (destruct (ds ++ us); reflexivity).
  unfold Plus. cbn [matchAt Nat.eqb]. rewrite Hc.
  rewrite <- (app_nil_r us).
  rewrite star_fails; [reflexivity | exact Hds | |].
  { destruct (@unit_head u us [] Hsp) as (h & r & -> & _ & Hd). exact Hd. }
  intros j Hj.
  assert (Hj' := allDigits_skipn j Hds).
  destruct (skipn j ds) as [|d rest] eqn:Es.
  - cbn [app]. rewrite star_stop.
    2:{ destruct (@unit_head u us [] Hsp) as (h & r & -> & Hs & _). exact Hs. }
    rewrite app_nil_r.
    apply unit_fails with (u := u); [exact Hsp | |].
    + intros p.
      rewrite (@seconds_fail _ [] []); [reflexivity | constructor | exact I].
    + intros p a r E.
      destruct r as [|b r'].
      * rewrite (@seconds_fail _ [] []); [reflexivity | constructor | exact I].
      * destruct (@unit_rest u us a (b :: r') Hsp E) as (b' & r'' & E' & Hno);
          [discriminate|].
        rewrite (@seconds_fail _ [] (b :: r')); [ | constructor | now rewrite E'].
        inversion E'; subst. destruct Hno as (Hs & _). now rewrite Hs.
  - inversion Hj'; subst. cbn [app]. rewrite star_stop.
    2:{ cbn. now apply digit_not_space. }
    now apply unit_fails_digit.
Qed.

Lemma earlier_match_named c ds u us w0 ws nm :
  isDigit c = true -> allDigits ds -> spelled u us = true ->
  isSpace w0 = true -> blank ws -> trimmedName nm ->
  beginsSeconds false nm = false ->
  match_ Earlier.reActivity (c :: ds ++ us ++ w0 :: ws ++ nm)
  = Some [(0, c :: ds ++ us ++ w0 :: ws ++ nm); (2, nm);
          (1, c :: ds ++ us)].
Proof.
  intros Hc Hds Hsp Hw0 Hws (Hne & Hstop & Hdot & Hlast) Hb.
  unfold match_. cbn [search]. rewrite earlier_reActivity_parts.
  unfold Plus. cbn [matchAt Nat.eqb]. rewrite Hc.
  set (whole := c :: ds ++ us ++ w0 :: ws ++ nm).
  erewrite star_longest; [reflexivity | exact Hds | |].
  { destruct (@unit_head u us (w0 :: ws ++ nm) Hsp) as (h & r & -> & _ & Hd).
    exact Hd. }
  rewrite star_stop.
  2:{ destruct (@unit_head u us (w0 :: ws ++ nm) Hsp) as (h & r & -> & Hs & _).
      exact Hs. }
  apply unit_match with (u := u); [exact Hsp | |].
  - intros a r E Hr.
    destruct (@unit_rest u us a r Hsp E Hr) as (b & r' & -> & Hno).
    rewrite (@seconds_fail _ [] ((b :: r') ++ w0 :: ws ++ nm));
      [ | constructor | exact Hno].
    cbn [app]. destruct Hno as (Hs & _). now rewrite Hs.
  - change (w0 :: ws ++ nm) with ((w0 :: ws) ++ nm).
    rewrite seconds_fail_name with (bare := false);
      [ | intros p [|x r] Hr; [reflexivity | cbn in Hr; now rewrite Hr]
        | now constructor | exact Hstop | exact Hb].
    cbn [app]. rewrite Hw0.
    erewrite star_longest; [reflexivity | exact Hws | exact Hstop |].
    rewrite <- (app_nil_r nm) at 1.
    erewrite star_longest; [reflexivity | exact Hdot | exact I |].
    subst whole. rewrite firstn_digits_unit.
    rewrite !firstn_all2; [reflexivity | |].
    + lia.
    + cbn [List.length]. rewrite !length_app. cbn [List.length].
      rewrite length_app. lia.
Qed.

(** In the earlier variant an activity needs a name.  A number and a unit
    alone, in any letter case, are not an activity; followed by white space
    and a name they are the activity of that name and duration, with sixty
    seconds to the minute, as long as the name does not itself begin like a
    seconds part. *)
Theorem earlier_activity_needs_name (c w0 : N) (ds us ws nm : jsstring)
        (u : DurUnit) :
  isDigit c = true -> allDigits ds -> spelled u us = true ->
  isSpace w0 = true -> blank ws -> trimmedName nm ->
  beginsSeconds false nm = false ->
  Earlier.parseActivity (c :: ds ++ us) = None
  /\ Earlier.parseActivity (c :: ds ++ us ++ w0 :: ws ++ nm)
     = Some {| name := nm;
               duration := Fin (decimal (c :: ds) * unitSeconds u) |}.
Proof.
  intros Hc Hds Hsp Hw0 Hws Hnm Hb.
  destruct (@unit_last u us Hsp) as (pre & x & E & Hx).
  split.
  - unfold Earlier.parseActivity. rewrite trim_id.
    + now rewrite (@earlier_match_unnamed c ds u us Hc Hds Hsp).
    + cbn. now apply digit_not_space.
    + rewrite E, app_comm_cons, app_assoc. now rewrite last_last.
  - unfold Earlier.parseActivity. rewrite trim_id.
    + rewrite (@earlier_match_named c ds u us w0 ws nm Hc Hds Hsp Hw0 Hws Hnm Hb).
      cbn [capture Nat.eqb group].
      now rewrite (trimmedName_trim Hnm),
        (@parseDuration_unit c ds u us Hc Hds Hsp).
    + cbn. now apply digit_not_space.
    + destruct Hnm as (Hne & _ & _ & Hl).
      replace (c :: ds ++ us ++ w0 :: ws ++ nm)
        with ((c :: ds ++ us ++ w0 :: ws) ++ nm)
        by (cbn [app]; rewrite <- !app_assoc; reflexivity).
      rewrite last_app_r by exact Hne. exact Hl.
Qed.

Lemma earlier_activity_needs_name_witness :
  Earlier.parseActivity (str "5Min") = None
  /\ Earlier.parseActivity (str "5Min s")
     = Some {| name := str "s"; duration := Fin 300 |}.
Proof.
  apply (@earlier_activity_needs_name 53%N 32%N [] (str "Min") []
           (str "s") UnitMin).
  - reflexivity.
  - constructor.
  - reflexivity.
  - reflexivity.
  - constructor.
  - unfold trimmedName. repeat split; try discriminate.
    repeat constructor.
  - reflexivity.
Defined.

Ltac ecbv :=
  cbv beta iota zeta delta
    [Earlier.ebind Earlier.eret Earlier.same Earlier.ecallback Earlier.beep
     Earlier.evalue Earlier.estate Earlier.eevents
     Earlier.tick Earlier.next Earlier.finish Earlier.startActivity
     Earlier.start Earlier.pause Earlier.resume Earlier.stop
     Earlier.clickStart Earlier.clickPause Earlier.clickStop
     Earlier.fire Earlier.forEach Earlier.second Earlier.step
     bind ret get modify emit throw callback
     set_timeline set_index set_remaining set_elapsed set_intervalId
     set_sampleTimeoutId set_isRunning set_isPaused set_timers set_nextId
     timeline index remaining elapsed intervalId sampleTimeoutId isRunning
     isPaused timers nextId value state events tid kind due
     live isDue clearTimer setInterval
     updateUI updateControls pulseClock notLast
     existsb filter map negb app option_map fst snd orb andb
     runningAt tickTimer cueTimers shown
     nle ngt neq nsub nmax nadd].

Lemma e_second_countdown tl i r e a n cur :
  (0 < r)%Z -> nth_error tl i = Some cur ->
  Earlier.second (runningAt tl i r e a None n)
  = {| Earlier.evalue := Some tt;
       Earlier.estate := runningAt tl i (r - 1) (e + 1) a None n;
       Earlier.eevents :=
         beepsAt (r - 1) (Z.of_nat i <? Z.of_nat (List.length tl) - 1)%Z
         ++ [Earlier.Shown (shown (runningAt tl i (r - 1) (e + 1) a None n) cur);
             Earlier.Shown Pulse] |}.
Proof.
  intros Hr Hc.
  assert (Hr0 : (r <=? 0)%Z = false) by (apply Z.leb_gt; lia).
  unfold beepsAt.
  destruct ((r - 1 <=? 3)%Z) eqn:E3; destruct ((0 <? r - 1)%Z) eqn:E0;
    destruct ((r - 1 =? 0)%Z) eqn:Ez;
    destruct (Z.of_nat i <? Z.of_nat (List.length tl) - 1)%Z eqn:El;
    ecbv; change (1 <=? 1) with true;
    repeat (ecbv; rewrite ?Nat.eqb_refl, ?Hr0, ?Hc, ?E3, ?E0, ?Ez, ?El).
  all: reflexivity.
Qed.

Lemma e_second_advance tl i r e a n cur :
  (r <= 0)%Z -> nth_error tl (S i) = Some cur ->
  stepDuration cur = Fin (dur cur) ->
  Earlier.second (runningAt tl i r e a None n)
  = {| Earlier.evalue := Some tt;
       Earlier.estate := runningAt tl (S i) (entry false cur) e n None (S n);
       Earlier.eevents :=
         [Earlier.Shown
            (shown (runningAt tl (S i) (entry false cur) e n None (S n)) cur)] |}.
Proof.
  intros Hr Hc Hd.
  assert (Hr0 : (r <=? 0)%Z = true) by (apply Z.leb_le; lia).
  assert (Hlen : (List.length tl <=? S i) = false).
  { apply Nat.leb_gt. apply nth_error_Some. congruence. }
  unfold entry.
  ecbv; change (1 <=? 1) with true;
    repeat (ecbv; rewrite ?Nat.eqb_refl, ?Hr0, ?Hc, ?Hlen, ?Hd).
  reflexivity.
Qed.

Lemma e_second_finish tl i r e a n :
  (r <= 0)%Z -> List.length tl = S i ->
  Earlier.second (runningAt tl i r e a None n)
  = {| Earlier.evalue := Some tt;
       Earlier.estate := finishedAt tl (S i) r e a n;
       Earlier.eevents := [Earlier.Shown (Done "🎉" "done");
                           Earlier.Shown (Controls false false)] |}.
Proof.
  intros Hr Hl.
  assert (Hr0 : (r <=? 0)%Z = true) by (apply Z.leb_le; lia).
  assert (Hlen : (List.length tl <=? S i) = true).
  { apply Nat.leb_le. lia. }
  ecbv; change (1 <=? 1) with true;
    repeat (ecbv; rewrite ?Nat.eqb_refl, ?Hr0, ?Hlen).
  reflexivity.
Qed.

Lemma e_start_spec input st0 tl cur :
  flattenWorkout (Earlier.parseWorkout input) = tl ->
  nth_error tl 0 = Some cur -> stepDuration cur = Fin (dur cur) ->
  owned st0 -> sampleTimeoutId st0 = None ->
  Earlier.start input st0
  = {| Earlier.evalue := Some tt;
       Earlier.estate := runningAt tl 0 (entry true cur) 0 (nextId st0) None
                                   (S (nextId st0));
       Earlier.eevents :=
         [Earlier.Shown (shown (runningAt tl 0 (entry true cur) 0 (nextId st0)
                                          None (S (nextId st0))) cur);
          Earlier.Shown (Controls true false)] |}.
Proof.
  intros Htl Hc Hd Ho Hs.
  destruct st0 as [tl0 i r0 e iid sid rn pa tms nid].
  cbn [sampleTimeoutId] in Hs. subst sid.
  unfold owned in Ho. cbn [timers intervalId sampleTimeoutId tid] in Ho.
  assert (Hcl := @owned_cleared iid None tms Ho).
  assert (Hlen : (List.length tl =? 0) = false).
  { destruct tl; [discriminate|reflexivity]. }
  unfold entry.
  destruct iid as [a|]; cbn beta iota in Hcl;
    (cbv beta iota zeta delta [negb tid] in Hcl);
    unfold Earlier.start, Earlier.startActivity, clearTimer;
    cbv beta iota zeta delta
      [Earlier.ebind Earlier.eret Earlier.same
       bind ret get modify set_timeline set_index set_elapsed set_isRunning
       set_isPaused set_timers timeline index remaining elapsed intervalId
       sampleTimeoutId isRunning isPaused timers nextId
       value state events map negb tid];
    rewrite Htl, Hlen, ?Hcl, Hc;
    cbv beta iota zeta delta
      [Earlier.ebind Earlier.eret Earlier.same
       bind ret get modify emit set_timeline set_index set_elapsed
       set_isRunning set_remaining set_intervalId set_nextId
       set_isPaused set_timers timeline index remaining elapsed intervalId
       sampleTimeoutId isRunning isPaused timers nextId
       updateUI updateControls setInterval
       value state events map negb tid runningAt tickTimer cueTimers shown
       option_map fst];
    rewrite Hc, Hd;
    cbv beta iota zeta delta
      [Earlier.ebind Earlier.eret Earlier.same
       bind ret get modify emit set_timeline set_index set_elapsed
       set_isRunning set_remaining set_intervalId set_nextId
       set_isPaused set_timers timeline index remaining elapsed intervalId
       sampleTimeoutId isRunning isPaused timers nextId
       updateUI updateControls setInterval
       value state events map negb tid runningAt tickTimer cueTimers shown
       option_map fst nmax nsub];
    rewrite ?Hcl; reflexivity.
Qed.

Lemma eseconds_S k st :
  eseconds (S k) st
  = (fst (eseconds k (Earlier.estate (Earlier.second st))),
     (Earlier.estate (Earlier.second st), Earlier.eevents (Earlier.second st))
       :: snd (eseconds k (Earlier.estate (Earlier.second st)))).
Proof.
  unfold eseconds. cbn [repeat Earlier.run Earlier.step].
  destruct (Earlier.run (repeat Second k) (Earlier.estate (Earlier.second st))).
  reflexivity.
Qed.

Lemma eseconds_add k1 k2 st :
  eseconds (k1 + k2) st
  = (fst (eseconds k2 (fst (eseconds k1 st))),
     snd (eseconds k1 st) ++ snd (eseconds k2 (fst (eseconds k1 st)))).
Proof.
  revert st. induction k1 as [|k1 IH]; intros st.
  - unfold eseconds. cbn. destruct (Earlier.run (repeat Second k2) st); reflexivity.
  - cbn [Nat.add]. rewrite !eseconds_S, IH. reflexivity.
Qed.

Lemma countFor_app p j l1 l2 :
  countFor p j (l1 ++ l2) = countFor p j l1 + countFor p j l2.
Proof. unfold countFor. rewrite map_app. apply list_sum_app. Qed.

Lemma countFor_nil p j : countFor p j [] = 0.
Proof. reflexivity. Qed.

Lemma countFor_cons p j en log :
  countFor p j (en :: log)
  = (if Nat.eqb (index (fst en)) j then List.length (filter p (snd en)) else 0)
    + countFor p j log.
Proof. reflexivity. Qed.

Lemma beepsAt_low r nl :
  (0 <= r)%Z ->
  List.length (filter isLowBeep (beepsAt r nl)) + lowBeeps r = lowBeeps (r + 1).
Proof.
  intros Hr. unfold beepsAt, lowBeeps.
  destruct (Z.leb_spec r 3); destruct (Z.ltb_spec 0 r);
    destruct (Z.eqb_spec r 0); destruct nl; cbn; lia.
Qed.

Lemma beepsAt_high r nl :
  (0 <= r)%Z ->
  List.length (filter isHighBeep (beepsAt r nl)) + highBeeps nl r
  = highBeeps nl (r + 1).
Proof.
  intros Hr. unfold beepsAt, highBeeps.
  destruct (Z.leb_spec r 3); destruct (Z.ltb_spec 0 r);
    destruct (Z.eqb_spec r 0); destruct (Z.leb_spec 1 r);
    destruct (Z.leb_spec 1 (r + 1)); destruct nl; cbn; lia.
Qed.

Lemma e_countdown_run tl i cur a n :
  nth_error tl i = Some cur ->
  forall m r e, r = Z.of_nat m ->
  let res := eseconds m (runningAt tl i r e a None n) in
  let nl := (Z.of_nat i <? Z.of_nat (List.length tl) - 1)%Z in
  fst res = runningAt tl i 0 (e + r) a None n
  /\ (forall j, countFor isLowBeep j (snd res)
                = if Nat.eqb i j then lowBeeps r else 0)
  /\ (forall j, countFor isHighBeep j (snd res)
                = if Nat.eqb i j then highBeeps nl r else 0).
Proof.
  intros Hc. induction m as [|m IH]; intros r e Hr.
  - subst r. cbn. replace (e + 0)%Z with e by lia.
    repeat split; intros j; destruct (Nat.eqb i j); try reflexivity.
    unfold highBeeps. now rewrite andb_false_r.
  - cbv zeta. rewrite eseconds_S.
    rewrite (@e_second_countdown tl i r e a n cur) by (lia || assumption).
    cbn [Earlier.estate Earlier.eevents fst snd].
    destruct (IH (r - 1)%Z (e + 1)%Z ltac:(lia)) as (Hst & Hlo & Hhi).
    split; [rewrite Hst; f_equal; lia|].
    split; intros j; rewrite countFor_cons; cbn [fst snd index runningAt];
      rewrite filter_app, length_app; cbn [filter isLowBeep isHighBeep List.length];
      rewrite Nat.add_0_r.
    + rewrite Hlo. destruct (Nat.eqb i j); [|reflexivity].
      replace r with (r - 1 + 1)%Z at 3 by lia. apply beepsAt_low. lia.
    + rewrite Hhi. destruct (Nat.eqb i j); [|reflexivity].
      replace r with (r - 1 + 1)%Z at 3 by lia. apply beepsAt_high. lia.
Qed.

Lemma notLast_nat i (tl : list TimelineStep) :
  (Z.of_nat i <? Z.of_nat (List.length tl) - 1)%Z = (S i <? List.length tl).
Proof.
  destruct (Z.ltb_spec (Z.of_nat i) (Z.of_nat (List.length tl) - 1));
    destruct (Nat.ltb_spec (S i) (List.length tl)); try lia; reflexivity.
Qed.

Lemma e_run tl :
  goodTimeline tl ->
  forall later earlier cur, tl = earlier ++ cur :: later ->
  forall r e a n, (0 <= r)%Z ->
  let i := List.length earlier in
  let res := eseconds (S (Z.to_nat r) + restTicks false later)
                      (runningAt tl i r e a None n) in
  isFinished (fst res)
  /\ (forall j, countFor isLowBeep j (snd res)
                = if j <? i then 0
                  else if Nat.eqb j i then lowBeeps r
                  else expectedLow tl j)
  /\ (forall j, countFor isHighBeep j (snd res)
                = if j <? i then 0
                  else if Nat.eqb j i then highBeeps (S i <? List.length tl) r
                  else expectedHigh tl j).
Proof.
  intros Hgood. induction later as [|nxt later IH];
    intros earlier cur Htl r e a n Hr i.
  - assert (Hcur : nth_error tl i = Some cur).
    { subst tl i. now rewrite nth_error_app2, Nat.sub_diag by lia. }
    assert (Hlen : List.length tl = S i).
    { subst tl i. rewrite length_app. cbn. lia. }
    cbn [restTicks]. replace (S (Z.to_nat r) + 0) with (Z.to_nat r + 1) by lia.
    cbv zeta. rewrite eseconds_add.
    destruct (@e_countdown_run tl i cur a n Hcur (Z.to_nat r) r e ltac:(lia))
      as (Hst & Hlo & Hhi).
    rewrite Hst, notLast_nat in *.
    rewrite eseconds_S, (@e_second_finish tl i 0 (e + r) a n) by (lia || assumption).
    cbn [Earlier.estate Earlier.eevents fst snd eseconds repeat Earlier.run].
    split; [now apply isFinished_finishedAt|].
    split; intros j; rewrite countFor_app, ?Hlo, ?Hhi, countFor_cons,
        countFor_nil;
      cbn [fst snd filter isLowBeep isHighBeep List.length];
      unfold expectedLow, expectedHigh;
      destruct (Nat.ltb_spec j i); destruct (Nat.eqb_spec i j);
        destruct (Nat.eqb_spec j i);
        destruct (Nat.eqb (index (finishedAt tl (S i) 0 (e + r) a n)) j);
        try lia;
        try (rewrite (proj2 (nth_error_None tl j)) by lia); lia.
  - assert (Hcur : nth_error tl i = Some cur).
    { subst tl i. now rewrite nth_error_app2, Nat.sub_diag by lia. }
    assert (Hnxt : nth_error tl (S i) = Some nxt).
    { subst tl i. rewrite nth_error_app2 by lia.
      now replace (S (List.length earlier) - List.length earlier) with 1 by lia. }
    destruct (@good_nth tl (S i) nxt Hgood Hnxt) as (Hd & Hd0).
    cbn [restTicks].
    set (r' := entry false nxt).
    replace (S (Z.to_nat r) + (S (Z.to_nat r') + restTicks false later))
      with (Z.to_nat r + (1 + (S (Z.to_nat r') + restTicks false later))) by lia.
    cbv zeta. rewrite eseconds_add.
    destruct (@e_countdown_run tl i cur a n Hcur (Z.to_nat r) r e ltac:(lia))
      as (Hst & Hlo & Hhi).
    rewrite Hst, notLast_nat in *.
    cbn [Nat.add]. rewrite eseconds_S.
    rewrite (@e_second_advance tl i 0 (e + r) a n nxt) by (lia || assumption).
    fold r'. cbn [Earlier.estate Earlier.eevents fst snd].
    assert (Htl' : tl = (earlier ++ [cur]) ++ nxt :: later).
    { now rewrite <- app_assoc. }
    assert (Hi' : List.length (earlier ++ [cur]) = S i).
    { rewrite length_app. cbn. lia. }
    assert (Hr' : (0 <= r')%Z) by (unfold r', entry; lia).
    destruct (IH (earlier ++ [cur]) nxt Htl' r' (e + r)%Z n (S n) Hr')
      as (Hfin & Hlo' & Hhi').
    rewrite Hi' in *. cbn [Nat.add] in Hfin, Hlo', Hhi'.
    split; [exact Hfin|].
    split; intros j; rewrite countFor_app, ?Hlo, ?Hhi, countFor_cons,
        ?Hlo', ?Hhi';
      cbn [fst snd filter isLowBeep isHighBeep List.length index runningAt];
      unfold expectedLow, expectedHigh; rewrite ?Hnxt;
      destruct (Nat.ltb_spec j i); destruct (Nat.eqb_spec i j);
        destruct (Nat.eqb_spec j i); destruct (Nat.eqb_spec (S i) j);
        destruct (Nat.ltb_spec j (S i)); destruct (Nat.eqb_spec j (S i));
        try lia; subst; rewrite ?Hnxt; cbn [Nat.eqb]; fold r'; lia.
Qed.

(** The beeps of the earlier variant.  A run started on a workout with
    whole durations and left alone is finished after [ticksToFinish]
    seconds.  On the way every step gets a low beep with three, two and one
    second left, as far as it has them, and every step but the last a high
    beep when it reaches zero; a step that starts at zero gets none. *)
Theorem earlier_beeps (input : jsstring) (st0 : TimerState)
        (tl : list TimelineStep) (j : nat) :
  flattenWorkout (Earlier.parseWorkout input) = tl ->
  tl <> [] -> goodTimeline tl -> owned st0 -> sampleTimeoutId st0 = None ->
  let st1 := Earlier.estate (Earlier.start input st0) in
  let res := eseconds (ticksToFinish tl) st1 in
  isFinished (fst res)
  /\ countFor isLowBeep j (snd res) = expectedLow tl j
  /\ countFor isHighBeep j (snd res) = expectedHigh tl j.
Proof.
  intros Htl Hne Hgood Ho Hs.
  destruct tl as [|cur later]; [congruence|]. set (tl := cur :: later) in *.
  assert (Hcur : nth_error tl 0 = Some cur) by reflexivity.
  assert (Hg : goodStep cur) by (now inversion Hgood).
  destruct (@goodStep_dur cur Hg) as (Hd & Hd0).
  cbv zeta. rewrite (@e_start_spec input st0 tl cur Htl Hcur Hd Ho Hs).
  cbn [Earlier.estate].
  assert (Hr : (0 <= entry true cur)%Z) by (unfold entry; lia).
  destruct (@e_run tl Hgood later [] cur eq_refl (entry true cur) 0%Z
              (nextId st0) (S (nextId st0)) Hr)
    as (Hfin & Hlo & Hhi).
  cbn [List.length] in Hfin, Hlo, Hhi.
  unfold ticksToFinish.
  change (restTicks true tl)
    with (S (Z.to_nat (entry true cur)) + restTicks false later).
  split; [exact Hfin|].
  rewrite Hlo, Hhi. unfold expectedLow, expectedHigh.
  destruct j as [|j]; cbn [Nat.ltb Nat.leb Nat.eqb]; [now rewrite Hcur|].
  now split.
Qed.

Lemma earlier_beeps_witness :
  let input := str "5s a
2s b" in
  let a := plainStep (Some {| name := str "a"; duration := Fin 5 |}) in
  let b := plainStep (Some {| name := str "b"; duration := Fin 2 |}) in
  let st1 := Earlier.estate (Earlier.start input initial) in
  let res := eseconds (ticksToFinish [a; b]) st1 in
  isFinished (fst res)
  /\ countFor isLowBeep 0 (snd res) = expectedLow [a; b] 0
  /\ countFor isHighBeep 0 (snd res) = expectedHigh [a; b] 0.
Proof.
  apply (@earlier_beeps (str "5s a
2s b") initial
           [plainStep (Some {| name := str "a"; duration := Fin 5 |});
            plainStep (Some {| name := str "b"; duration := Fin 2 |})] 0).
  - vm_compute. reflexivity.
  - discriminate.
  - apply Forall_cons; [exists 5%Z; split; [reflexivity | discriminate]|].
    apply Forall_cons; [exists 2%Z; split; [reflexivity | discriminate]|].
    apply Forall_nil.
  - intros t [].
  - reflexivity.
Defined.
